(** * Orçamentos: quote generation, parsing and totals

    A shallow embedding of the TypeScript sources

    - [services/geminiService.ts]  (credential check, [generateQuote]),
    - [App.tsx]                    ([handleUpdateQuote], [calculateTotal]),
    - [components/QuoteResult.tsx] (edit handlers, totals),
    - [components/QuoteHistory.tsx] (history listing total),

    preceded by a model of the part of the JavaScript runtime these
    functions rely on: IEEE-754 binary64 numbers, strings as sequences of
    UTF-16 code units, JSON values, the conversions [ToBoolean] and
    [ToNumber], [String.prototype.trim], [JSON.parse] and the one regular
    expression of the program. *)

From Stdlib Require Import ZArith NArith List String Ascii Bool Lia.
From Stdlib Require Import Floats.SpecFloat.
Import ListNotations.

(* ================================================================== *)
(** * The JavaScript runtime *)
(* ================================================================== *)

Module JS.

(** ** Numbers

    A JavaScript Number is an IEEE-754 binary64 value.  [spec_float] is the
    Standard Library's inductive description of such values (one NaN, two
    zeros, two infinities, finite values [(-1)^s * m * 2^e]); its operations
    round to nearest, ties to even, as JavaScript does. *)

Definition prec : Z := 53.
Definition emax : Z := 1024.

Definition number : Type := spec_float.

Definition nan : number := S754_nan.
Definition zero : number := S754_zero false.
Definition infinity (neg : bool) : number := S754_infinity neg.

(** The Number nearest to an integer (exact below 2^53). *)
Definition of_Z (z : Z) : number := binary_normalize prec emax z 0 false.

Definition add : number -> number -> number := SFadd prec emax.
Definition mul : number -> number -> number := SFmul prec emax.
Definition div : number -> number -> number := SFdiv prec emax.

Arguments of_Z _ : simpl never.
Arguments add _ _ : simpl never.
Arguments mul _ _ : simpl never.
Arguments div _ _ : simpl never.

(** The global [isNaN] on a Number. *)
Definition isNaN (x : number) : bool :=
  match x with S754_nan => true | _ => false end.

Definition is_zero (x : number) : bool :=
  match x with S754_zero _ => true | _ => false end.

(** [a >= b] and [a < b]; both are false when an operand is NaN. *)
Definition ge (a b : number) : bool := SFleb b a.
Definition lt (a b : number) : bool := SFltb a b.

(** Equality of Numbers that does not tell [+0] from [-0] and takes NaN
    equal to itself (the specification's SameValueZero). *)
Definition same_value_zero (a b : number) : Prop :=
  a = b \/ (is_zero a = true /\ is_zero b = true).

(** The Number denoted by the decimal [m * 10^e] with [0 <= m], correctly
    rounded; [neg] is the sign of the literal. *)
Definition decimal_to_number (neg : bool) (m e : Z) : number :=
  match m with
  | Z0 => S754_zero neg
  | Zpos p =>
      if (0 <=? e)%Z
      then binary_round prec emax neg (p * Z.to_pos (10 ^ e)) 0
      else
        let '(q, e', l) :=
          SFdiv_core_binary prec emax (Zpos p) 0 (10 ^ (- e)) 0 in
        binary_round_aux prec emax neg q e' l
  | Zneg _ => nan
  end.

(** ** Strings

    A string is a sequence of UTF-16 code units. *)

Definition JsString : Type := list N.

(** The string whose code units are the bytes of [s] (so [s] is read as
    Latin-1; all the program's property names and delimiters are ASCII). *)
Definition u16 (s : string) : JsString :=
  map N_of_ascii (list_ascii_of_string s).

Definition string_eqb (a b : JsString) : bool :=
  if list_eq_dec N.eq_dec a b then true else false.

(** [strip_prefix p s = Some r] exactly when [s = p ++ r]. *)
Fixpoint strip_prefix (p s : JsString) : option JsString :=
  match p, s with
  | [], _ => Some s
  | a :: p', b :: s' => if (a =? b)%N then strip_prefix p' s' else None
  | _ :: _, [] => None
  end.

(** WhiteSpace and LineTerminator code points: what [trim] removes and
    what the regular-expression class [\s] matches.
    TAB LF VT FF CR SP NBSP, U+1680, U+2000..U+200A, LS PS, U+202F, U+205F,
    U+3000, BOM. *)
Definition is_ws (c : N) : bool :=
  ((9 <=? c) && (c <=? 13) || (c =? 32) || (c =? 160) || (c =? 5760)
   || (8192 <=? c) && (c <=? 8202) || (c =? 8232) || (c =? 8233)
   || (c =? 8239) || (c =? 8287) || (c =? 12288) || (c =? 65279))%N.

Fixpoint trimStart (s : JsString) : JsString :=
  match s with
  | c :: t => if is_ws c then trimStart t else s
  | [] => []
  end.

Definition trimEnd (s : JsString) : JsString := rev (trimStart (rev s)).

(** [String.prototype.trim]. *)
Definition trim (s : JsString) : JsString := trimEnd (trimStart s).


(** ** Numeric literals in strings: [StringToNumber]

    [Number(s)] on a string: surrounding white space is dropped; the empty
    string is [+0]; [Infinity] with an optional sign, a signed decimal
    literal ([12], [12.], [12.5], [.5], each with an optional exponent) and
    an unsigned binary, octal or hexadecimal integer literal ([0b..],
    [0o..], [0x..]) denote their value; every other string is NaN. *)

Definition digit_of (base : N) (c : N) : option Z :=
  let v :=
    if ((48 <=? c) && (c <=? 57))%N then Some (c - 48)%N
    else if ((97 <=? c) && (c <=? 102))%N then Some (c - 87)%N
    else if ((65 <=? c) && (c <=? 70))%N then Some (c - 55)%N
    else None in
  match v with
  | Some d => if (d <? base)%N then Some (Z.of_N d) else None
  | None => None
  end.

(** Reads the longest run of digits in [base] at the front of [s], continuing
    the value [acc]; returns the value, the number of digits read and the
    rest of the string. *)
Fixpoint read_digits (base : N) (s : JsString) (acc : Z) (count : Z)
  : Z * Z * JsString :=
  match s with
  | c :: t =>
      match digit_of base c with
      | Some d => read_digits base t (acc * Z.of_N base + d) (count + 1)
      | None => (acc, count, s)
      end
  | [] => (acc, count, [])
  end.

(** An optional [+] or [-]: whether the sign is negative, and the rest. *)
Definition read_sign (s : JsString) : bool * JsString :=
  match s with
  | 43 :: t => (false, t)
  | 45 :: t => (true, t)
  | _ => (false, s)
  end%N.

(** An exponent part [e], [E] followed by a signed run of at least one
    digit, if [s] starts with one; [Some (0, s)] if [s] does not start with
    an exponent indicator; [None] if the indicator has no digits. *)
Definition read_exponent (s : JsString) : option (Z * JsString) :=
  match s with
  | c :: t =>
      if ((c =? 101) || (c =? 69))%N then
        let '(neg, t') := read_sign t in
        let '(x, n, r) := read_digits 10 t' 0 0 in
        if (n =? 0)%Z then None else Some (if neg then (- x)%Z else x, r)
      else Some (0%Z, s)
  | [] => Some (0%Z, [])
  end.

(** [digits [. digits] [exponent]] or [. digits [exponent]] at the front of
    [s]: the mantissa, the decimal exponent and the rest.  [frac_needed]
    tells whether a decimal point must be followed by a digit (JSON) or not
    (JavaScript). *)
Definition read_decimal (frac_needed : bool) (s : JsString)
  : option (Z * Z * JsString) :=
  let '(ip, n_ip, r1) := read_digits 10 s 0 0 in
  let after_point :=
    match r1 with
    | 46 :: r =>
        let '(m, n_fp, r2) := read_digits 10 r ip 0 in
        if (n_fp =? 0)%Z && (frac_needed || (n_ip =? 0)%Z) then None
        else Some (m, n_fp, r2)
    | _ => if (n_ip =? 0)%Z then None else Some (ip, 0%Z, r1)
    end%N in
  match after_point with
  | Some (m, n_fp, r2) =>
      match read_exponent r2 with
      | Some (x, r3) => Some (m, (x - n_fp)%Z, r3)
      | None => None
      end
  | None => None
  end.

Definition StrUnsignedDecimalLiteral (neg : bool) (s : JsString) : number :=
  if string_eqb s (u16 "Infinity") then infinity neg
  else
    match read_decimal false s with
    | Some (m, e, []) => decimal_to_number neg m e
    | _ => nan
    end.

Definition NonDecimalIntegerLiteral (base : N) (s : JsString) : number :=
  match read_digits base s 0 0 with
  | (m, n, []) => if (n =? 0)%Z then nan else of_Z m
  | _ => nan
  end.

Definition StringToNumber (s : JsString) : number :=
  match trim s with
  | [] => zero
  | 43 :: t => StrUnsignedDecimalLiteral false t
  | 45 :: t => StrUnsignedDecimalLiteral true t
  | 48 :: c :: t =>
      if ((c =? 120) || (c =? 88))%N then NonDecimalIntegerLiteral 16 t
      else if ((c =? 111) || (c =? 79))%N then NonDecimalIntegerLiteral 8 t
      else if ((c =? 98) || (c =? 66))%N then NonDecimalIntegerLiteral 2 t
      else StrUnsignedDecimalLiteral false (48 :: c :: t)
  | t => StrUnsignedDecimalLiteral false t
  end%N.

(** ** Values

    The values that JSON text and the program's own objects are made of.
    An object is its list of own properties in insertion order; reading a
    property takes the first entry with that name. *)

Unset Elimination Schemes.
Inductive JsValue : Type :=
| JUndefined
| JNull
| JBool (b : bool)
| JNum (x : number)
| JStr (s : JsString)
| JArr (elements : list JsValue)
| JObj (props : list (JsString * JsValue)).
Set Elimination Schemes.

(** ** Exceptions *)

Inductive JsError : Type :=
| TypeError
| SyntaxError
| PlainError (message : string).   (* [new Error(message)] *)

Inductive completion (A : Type) : Type :=
| Normal (a : A)
| Throw (e : JsError).

Arguments Normal {A} a.
Arguments Throw {A} e.

Definition bind {A B} (c : completion A) (k : A -> completion B)
  : completion B :=
  match c with
  | Normal a => k a
  | Throw e => Throw e
  end.

Declare Scope js_scope.
Delimit Scope js_scope with js.
Notation "x <- c ;; k" := (bind c (fun x => k))
  (at level 61, c at next level, right associativity) : js_scope.
Infix "+" := add : js_scope.
Infix "*" := mul : js_scope.
Infix "/" := div : js_scope.

(** [for each x of xs: ys.push(f x)], stopping at the first exception. *)
Fixpoint mapM {A B} (f : A -> completion B) (xs : list A)
  : completion (list B) :=
  match xs with
  | [] => Normal []
  | x :: t => (y <- f x ;; ys <- mapM f t ;; Normal (y :: ys))%js
  end.

(** ** Properties *)

Fixpoint lookup (k : JsString) (props : list (JsString * JsValue))
  : option JsValue :=
  match props with
  | [] => None
  | (k', v) :: t => if string_eqb k k' then Some v else lookup k t
  end.

Definition has_own (k : JsString) (props : list (JsString * JsValue)) : bool :=
  match lookup k props with Some _ => true | None => false end.

(** [v.k] for a property name [k] that no built-in prototype defines (every
    name the program reads is such a name: [title], [steps],
    [suggestedPrice], [env], ...).  Reading a property of [undefined] or
    [null] throws; a primitive or an array has no such property. *)
Definition get (v : JsValue) (k : string) : completion JsValue :=
  match v with
  | JUndefined | JNull => Throw TypeError
  | JObj props =>
      Normal match lookup (u16 k) props with Some x => x | None => JUndefined end
  | _ => Normal JUndefined
  end.

Definition is_nullish (v : JsValue) : bool :=
  match v with JUndefined | JNull => true | _ => false end.

(** [v?.k] *)
Definition get_opt (v : JsValue) (k : string) : completion JsValue :=
  if is_nullish v then Normal JUndefined else get v k.

(** [a ?? b] *)
Definition nullish_or (a b : JsValue) : JsValue :=
  if is_nullish a then b else a.

(** ** Conversions *)

Definition ToBoolean (v : JsValue) : bool :=
  match v with
  | JUndefined | JNull => false
  | JBool b => b
  | JNum x => negb (is_zero x || isNaN x)
  | JStr s => match s with [] => false | _ => true end
  | JArr _ | JObj _ => true
  end.

(** [a || b] *)
Definition or_else (a b : JsValue) : JsValue :=
  if ToBoolean a then a else b.

(** Whether [ToString(v)] throws.  An ordinary object is converted by its
    inherited [toString], unless an own property of that name (never
    callable in a value built from JSON) hides it, in which case the
    conversion throws a TypeError; an array is converted by joining the
    conversions of its elements. *)
Fixpoint ToString_throws (v : JsValue) : bool :=
  match v with
  | JObj props => has_own (u16 "toString") props
  | JArr xs => existsb ToString_throws xs
  | _ => false
  end.

(** The Number that [ToNumber(v)] yields when it does not throw.  An
    ordinary object converts to the string [[object Object]], hence to NaN.
    An array converts to the join of its elements with commas, so: the
    empty array to the empty string, hence [+0]; a one-element array to the
    string of its element ([undefined] and [null] give the empty string, a
    Number its shortest decimal form, which reads back as the same Number
    with [-0] printed as [0]); a longer array to a string with a comma,
    hence NaN. *)
Fixpoint ToNumber_value (v : JsValue) : number :=
  match v with
  | JUndefined => nan
  | JNull => zero
  | JBool b => if b then of_Z 1 else zero
  | JNum x => x
  | JStr s => StringToNumber s
  | JObj _ => nan
  | JArr [] => zero
  | JArr [x] =>
      match x with
      | JUndefined | JNull => zero
      | JBool _ | JObj _ => nan
      | JNum n => if is_zero n then zero else n
      | JStr s => StringToNumber s
      | JArr _ => ToNumber_value x
      end
  | JArr (_ :: _ :: _) => nan
  end.

(** [Number(v)] *)
Definition ToNumber (v : JsValue) : completion number :=
  if ToString_throws v then Throw TypeError else Normal (ToNumber_value v).

(** [Array.isArray(v)] *)
Definition isArray (v : JsValue) : bool :=
  match v with JArr _ => true | _ => false end.

(** [v.map(f)], collecting the results in a list; a value that is not an
    array has no callable [map]. *)
Definition array_map {B} (f : JsValue -> completion B) (v : JsValue)
  : completion (list B) :=
  match v with
  | JArr xs => mapM f xs
  | _ => Throw TypeError
  end.

(** ** [JSON.parse]

    A recursive-descent reader of the JSON grammar (ECMA-404): white space
    is TAB, LF, CR and SP; a value is an object, an array, a string, a
    number or one of [true], [false], [null].  The recursion is on a fuel
    that bounds the number of nested calls; [JSON_parse] starts with more
    fuel than a text of that length can use. *)

Definition is_json_ws (c : N) : bool :=
  ((c =? 9) || (c =? 10) || (c =? 13) || (c =? 32))%N.

Fixpoint skip_json_ws (s : JsString) : JsString :=
  match s with
  | c :: t => if is_json_ws c then skip_json_ws t else s
  | [] => []
  end.

(** The code unit written by four hexadecimal digits. *)
Definition hex4 (a b c d : N) : option N :=
  match digit_of 16 a, digit_of 16 b, digit_of 16 c, digit_of 16 d with
  | Some x, Some y, Some z, Some w =>
      Some (Z.to_N (((x * 16 + y) * 16 + z) * 16 + w))
  | _, _, _, _ => None
  end.

(** The characters of a string literal after its opening quote, up to the
    closing quote: the string denoted and the text after the quote. *)
Fixpoint json_string_body (s : JsString) : option (JsString * JsString) :=
  let cons_to c r :=
    match r with Some (str, rest) => Some (c :: str, rest) | None => None end in
  match s with
  | [] => None
  | c :: t =>
      if (c =? 34)%N then Some ([], t)
      else if (c =? 92)%N then
        match t with
        | e :: t' =>
            if (e =? 34)%N then cons_to 34%N (json_string_body t')
            else if (e =? 92)%N then cons_to 92%N (json_string_body t')
            else if (e =? 47)%N then cons_to 47%N (json_string_body t')
            else if (e =? 98)%N then cons_to 8%N (json_string_body t')
            else if (e =? 102)%N then cons_to 12%N (json_string_body t')
            else if (e =? 110)%N then cons_to 10%N (json_string_body t')
            else if (e =? 114)%N then cons_to 13%N (json_string_body t')
            else if (e =? 116)%N then cons_to 9%N (json_string_body t')
            else if (e =? 117)%N then
              match t' with
              | a :: b :: c' :: d :: t'' =>
                  match hex4 a b c' d with
                  | Some u => cons_to u (json_string_body t'')
                  | None => None
                  end
              | _ => None
              end
            else None
        | [] => None
        end
      else if (c <? 32)%N then None
      else cons_to c (json_string_body t)
  end.

(** A JSON number at the front of [s]: an optional minus sign, an integer
    part without superfluous leading zero, an optional fraction with at
    least one digit, an optional exponent. *)
Definition json_number (s : JsString) : option (number * JsString) :=
  let '(neg, body) :=
    match s with
    | 45 :: t => (true, t)
    | _ => (false, s)
    end%N in
  let leading_zero_ok :=
    match body with
    | 48 :: c :: _ => negb ((48 <=? c) && (c <=? 57))
    | _ => true
    end%N in
  let starts_with_digit :=
    match body with
    | c :: _ => ((48 <=? c) && (c <=? 57))%N
    | [] => false
    end in
  if starts_with_digit && leading_zero_ok then
    match read_decimal true body with
    | Some (m, e, rest) => Some (decimal_to_number neg m e, rest)
    | None => None
    end
  else None.

(** [obj[k] = v] on an object under construction: a repeated name keeps its
    place and takes the new value. *)
Fixpoint set_prop (props : list (JsString * JsValue)) (k : JsString)
  (v : JsValue) : list (JsString * JsValue) :=
  match props with
  | [] => [(k, v)]
  | (k', v') :: t =>
      if string_eqb k k' then (k', v) :: t else (k', v') :: set_prop t k v
  end.

Inductive parsed (A : Type) : Type :=
| Parsed (a : A) (rest : JsString)
| Malformed
| OutOfFuel.

Arguments Parsed {A} a rest.
Arguments Malformed {A}.
Arguments OutOfFuel {A}.

Fixpoint json_value (fuel : nat) (s : JsString) : parsed JsValue :=
  match fuel with
  | O => OutOfFuel
  | S n =>
      match skip_json_ws s with
      | [] => Malformed
      | c :: t =>
          if (c =? 123)%N then                       (* { *)
            match skip_json_ws t with
            | c' :: r =>
                if (c' =? 125)%N then Parsed (JObj []) r
                else json_members n t []
            | [] => Malformed
            end
          else if (c =? 91)%N then                   (* [ *)
            match skip_json_ws t with
            | c' :: r =>
                if (c' =? 93)%N then Parsed (JArr []) r
                else json_elements n t []
            | [] => Malformed
            end
          else if (c =? 34)%N then                   (* string *)
            match json_string_body t with
            | Some (str, r) => Parsed (JStr str) r
            | None => Malformed
            end
          else
            match strip_prefix (u16 "true") (c :: t),
                  strip_prefix (u16 "false") (c :: t),
                  strip_prefix (u16 "null") (c :: t) with
            | Some r, _, _ => Parsed (JBool true) r
            | _, Some r, _ => Parsed (JBool false) r
            | _, _, Some r => Parsed JNull r
            | None, None, None =>
                match json_number (c :: t) with
                | Some (x, r) => Parsed (JNum x) r
                | None => Malformed
                end
            end
      end
  end

(** The elements of an array after [[] or a comma, up to the closing
    bracket; [acc] holds the elements read so far. *)
with json_elements (fuel : nat) (s : JsString) (acc : list JsValue)
  : parsed JsValue :=
  match fuel with
  | O => OutOfFuel
  | S n =>
      match json_value n s with
      | Parsed v r =>
          match skip_json_ws r with
          | c :: r' =>
              if (c =? 44)%N then json_elements n r' (acc ++ [v])
              else if (c =? 93)%N then Parsed (JArr (acc ++ [v])) r'
              else Malformed
          | [] => Malformed
          end
      | Malformed => Malformed
      | OutOfFuel => OutOfFuel
      end
  end

(** The members of an object after [{] or a comma, up to the closing
    brace. *)
with json_members (fuel : nat) (s : JsString)
  (acc : list (JsString * JsValue)) : parsed JsValue :=
  match fuel with
  | O => OutOfFuel
  | S n =>
      match skip_json_ws s with
      | q :: t =>
          if (q =? 34)%N then
            match json_string_body t with
            | Some (k, r) =>
                match skip_json_ws r with
                | c :: r' =>
                    if (c =? 58)%N then
                      match json_value n r' with
                      | Parsed v r'' =>
                          match skip_json_ws r'' with
                          | d :: r3 =>
                              if (d =? 44)%N
                              then json_members n r3 (set_prop acc k v)
                              else if (d =? 125)%N
                              then Parsed (JObj (set_prop acc k v)) r3
                              else Malformed
                          | [] => Malformed
                          end
                      | Malformed => Malformed
                      | OutOfFuel => OutOfFuel
                      end
                    else Malformed
                | [] => Malformed
                end
            | None => Malformed
            end
          else Malformed
      | [] => Malformed
      end
  end.

(** [JSON.parse(text)]: one value, surrounded by white space only. *)
Definition JSON_parse (text : JsString) : completion JsValue :=
  match json_value (2 * List.length text + 1) text with
  | Parsed v rest =>
      match skip_json_ws rest with
      | [] => Normal v
      | _ :: _ => Throw SyntaxError
      end
  | Malformed | OutOfFuel => Throw SyntaxError
  end.

(** ** Further operations on Numbers, strings and arrays *)

(** [a - b] and [a > b]; the comparison is false when an operand is NaN. *)
Definition sub : number -> number -> number := SFsub prec emax.
Arguments sub _ _ : simpl never.

Definition gt (a b : number) : bool := SFltb b a.

(** [s.split(sep)] for a separator of one code unit: the pieces between
    the occurrences of [sep], of which there is always at least one. *)
Fixpoint split (sep : N) (s : JsString) : list JsString :=
  match s with
  | [] => [[]]
  | c :: t =>
      if (c =? sep)%N then [] :: split sep t
      else match split sep t with
           | piece :: pieces => (c :: piece) :: pieces
           | [] => [[c]]
           end
  end.

(** [s.replace(/\s/g, r)] for a replacement [r] of one code unit: the class
    [\s] of a regular expression is the white space and the line
    terminators, the code units that [trim] removes. *)
Definition replace_ws (r : N) (s : JsString) : JsString :=
  map (fun c => if is_ws c then r else c) s.

(** [xs.filter((_, i) => i !== index)] *)
Fixpoint filter_index {A} (index : nat) (xs : list A) : list A :=
  match xs, index with
  | [], _ => []
  | _ :: t, O => t
  | x :: t, S i => x :: filter_index i t
  end.

End JS.

Import JS.
Local Open Scope js_scope.
Local Open Scope string_scope.
Local Open Scope list_scope.

(* ================================================================== *)
(** * The data model ([types.ts])

    The type declarations are not among the sources; the records below
    have the fields that the specification lists and that the code reads
    and writes.  A field holds a JavaScript value, since nothing checks at
    run time that a stored quote has the declared types; an absent
    property is [JUndefined]. *)
(* ================================================================== *)

(** Modelled from the spec: the type [Currency] of [types.ts], the
    enumerated set EUR, BRL, USD. *)
Inductive Currency : Type := EUR | BRL | USD.

Module QuoteStep.
(** Modelled from the spec: the interface [QuoteStep] of [types.ts].
    [suggestedPrice] and [suggestedUnit] are the suggestions of the model;
    [userPrice], [quantity] and [taxRate] are what the user edits. *)
Record t : Type := mk {
  title : JsValue;
  description : JsValue;
  suggestedPrice : JsValue;
  suggestedUnit : JsValue;
  quantity : JsValue;
  userPrice : JsValue;
  taxRate : JsValue
}.

(** The object [{}]. *)
Definition empty : t :=
  mk JUndefined JUndefined JUndefined JUndefined JUndefined JUndefined
     JUndefined.

(** [{ ...s, userPrice: v }], [{ ...s, quantity: v }],
    [{ ...s, taxRate: v }] *)
Definition with_userPrice (s : t) (v : JsValue) : t :=
  mk (title s) (description s) (suggestedPrice s) (suggestedUnit s)
     (quantity s) v (taxRate s).
Definition with_quantity (s : t) (v : JsValue) : t :=
  mk (title s) (description s) (suggestedPrice s) (suggestedUnit s)
     v (userPrice s) (taxRate s).
Definition with_taxRate (s : t) (v : JsValue) : t :=
  mk (title s) (description s) (suggestedPrice s) (suggestedUnit s)
     (quantity s) (userPrice s) v.

(** [{ ...s, description: v }] and [s.title = v] *)
Definition with_description (s : t) (v : JsValue) : t :=
  mk (title s) v (suggestedPrice s) (suggestedUnit s)
     (quantity s) (userPrice s) (taxRate s).
Definition with_title (s : t) (v : JsValue) : t :=
  mk v (description s) (suggestedPrice s) (suggestedUnit s)
     (quantity s) (userPrice s) (taxRate s).
End QuoteStep.

(** An array of steps.  A position of a JavaScript array holds a value or
    is a hole (an index below [length] that was never written); the values
    here are step objects and [undefined]. *)
Inductive Slot : Type :=
| Hole
| Undefined
| Step (s : QuoteStep.t).

Module QuoteData.
(** Modelled from the spec: the interface [QuoteData] of [types.ts]; the
    identifier is a string. *)
Record t : Type := mk {
  id : JsString;
  date : JsValue;
  clientName : JsValue;
  clientAddress : JsValue;
  clientContact : JsValue;
  title : JsValue;
  summary : JsValue;
  executionTime : JsValue;
  paymentTerms : JsValue;
  steps : list Slot;
  currency : Currency;
  city : JsValue
}.

(** [{ ...q, steps: newSteps }] *)
Definition with_steps (q : t) (newSteps : list Slot) : t :=
  mk (id q) (date q) (clientName q) (clientAddress q) (clientContact q)
     (title q) (summary q) (executionTime q) (paymentTerms q) newSteps
     (currency q) (city q).

(** [{ ...q, id: newId, date: newDate }] *)
Definition with_id_date (q : t) (newId : JsString) (newDate : JsValue) : t :=
  mk newId newDate (clientName q) (clientAddress q) (clientContact q)
     (title q) (summary q) (executionTime q) (paymentTerms q) (steps q)
     (currency q) (city q).

(** The keys of a quote that the fields of the editor write. *)
Inductive Field : Type :=
| field_clientName
| field_clientAddress
| field_clientContact
| field_executionTime
| field_paymentTerms.

(** [{ ...q, [field]: v }] *)
Definition with_field (q : t) (field : Field) (v : JsValue) : t :=
  match field with
  | field_clientName =>
      mk (id q) (date q) v (clientAddress q) (clientContact q) (title q)
         (summary q) (executionTime q) (paymentTerms q) (steps q)
         (currency q) (city q)
  | field_clientAddress =>
      mk (id q) (date q) (clientName q) v (clientContact q) (title q)
         (summary q) (executionTime q) (paymentTerms q) (steps q)
         (currency q) (city q)
  | field_clientContact =>
      mk (id q) (date q) (clientName q) (clientAddress q) v (title q)
         (summary q) (executionTime q) (paymentTerms q) (steps q)
         (currency q) (city q)
  | field_executionTime =>
      mk (id q) (date q) (clientName q) (clientAddress q) (clientContact q)
         (title q) (summary q) v (paymentTerms q) (steps q)
         (currency q) (city q)
  | field_paymentTerms =>
      mk (id q) (date q) (clientName q) (clientAddress q) (clientContact q)
         (title q) (summary q) (executionTime q) v (steps q)
         (currency q) (city q)
  end.
End QuoteData.

(** What [generateQuote] returns: a quote without [id], [date] and the
    client fields. *)

Module QuoteFragment.
(** Modelled from the spec: [Omit<QuoteData, 'id' | 'date' | 'clientName'
    | 'clientAddress' | 'clientContact'>], with the steps as
    [generateQuote] builds them, one object for each step of the
    response. *)
Record t : Type := mk {
  title : JsValue;
  summary : JsValue;
  executionTime : JsValue;
  paymentTerms : JsValue;
  steps : list QuoteStep.t;
  currency : Currency;
  city : JsValue
}.
End QuoteFragment.

(** A file chosen in the form, as far as the program looks at it: its
    [type] and what a [FileReader] holds in [result] once [readAsDataURL]
    has ended (a data URL, or [null] after a failed read). *)
Module File.
Record t : Type := mk {
  type : JsString;
  result : JsValue
}.
End File.

(* ================================================================== *)
(** * [services/geminiService.ts] *)
(* ================================================================== *)

Module GeminiService.

(** ** The credential check at module initialisation *)

(** The two global bindings [getApiKey] looks at: [process] and
    [import.meta]; [None] when the binding does not exist. *)
Record Environment : Type := {
  process : option JsValue;
  import_meta : option JsValue
}.

(** [typeof g !== 'undefined'] *)
Definition defined (g : option JsValue) : bool :=
  match g with
  | None | Some JUndefined => false
  | Some _ => true
  end.

(** [g.env?.name], for a binding that [typeof] found defined. *)
Definition env_var (g : option JsValue) (name : string) : completion JsValue :=
  match g with
  | Some v => env <- get v "env" ;; get_opt env name
  | None => Normal JUndefined
  end.

(** One [try { if (typeof g !== 'undefined' && g.env?.name) return
    g.env.name; } catch (e) { }] block: the value returned, if the block
    returns. *)
Definition try_source (g : option JsValue) (name : string) : option JsValue :=
  if defined g then
    match env_var g name with
    | Normal k => if ToBoolean k then Some k else None
    | Throw _ => None
    end
  else None.

Definition getApiKey (env : Environment) : JsValue :=
  match try_source (process env) "API_KEY" with
  | Some k => k
  | None =>
      match try_source (import_meta env) "VITE_API_KEY" with
      | Some k => k
      | None => JUndefined
      end
  end.

Definition missing_key_message : string :=
  "API Key não encontrada. Por favor, configure a variável de ambiente 'VITE_API_KEY' (ou 'API_KEY') nas configurações do seu projeto no Vercel.".

(** The statements the module runs when it is first imported:
    [const apiKey = getApiKey(); if (!apiKey) throw ...;
     const ai = new GoogleGenAI({ apiKey })].  The result is the key the
    client [ai] is built with. *)
Definition module_init (env : Environment) : completion JsValue :=
  let apiKey := getApiKey env in
  if negb (ToBoolean apiKey) then Throw (PlainError missing_key_message)
  else Normal apiKey.

(** ** The regular expression [/```(json)?\s*([\s\S]*?)\s*```/]

    [String.prototype.match] looks for the leftmost position at which the
    pattern matches, trying the alternatives of each quantifier in order:
    the optional group with [json] before without, a greedy [\s*] from the
    longest run to the shortest, the lazy group from the shortest capture
    to the longest.  The functions below return the second capture. *)

Definition fence : JsString := u16 "```".

(** [\s*```] matches at the front of [s]. *)
Fixpoint closing_fence (s : JsString) : bool :=
  match strip_prefix fence s with
  | Some _ => true
  | None =>
      match s with
      | c :: t => if is_ws c then closing_fence t else false
      | [] => false
      end
  end.

(** [([\s\S]*?)\s*```] at the front of [s]: the capture. *)
Fixpoint lazy_capture (s : JsString) : option JsString :=
  if closing_fence s then Some []
  else
    match s with
    | c :: t =>
        match lazy_capture t with
        | Some g => Some (c :: g)
        | None => None
        end
    | [] => None
    end.

(** [\s*([\s\S]*?)\s*```] at the front of [s]. *)
Fixpoint after_tag (s : JsString) : option JsString :=
  match s with
  | c :: t =>
      if is_ws c then
        match after_tag t with
        | Some g => Some g
        | None => lazy_capture s
        end
      else lazy_capture s
  | [] => lazy_capture []
  end.

(** [(json)?\s*([\s\S]*?)\s*```] at the front of [s]. *)
Definition after_opening (s : JsString) : option JsString :=
  match strip_prefix (u16 "json") s with
  | Some r =>
      match after_tag r with
      | Some g => Some g
      | None => after_tag s
      end
  | None => after_tag s
  end.

Definition match_at (s : JsString) : option JsString :=
  match strip_prefix fence s with
  | Some r => after_opening r
  | None => None
  end.

(** [s.match(/```(json)?\s*([\s\S]*?)\s*```/)]: [None] for [null],
    [Some g] for a match whose second capture is [g]. *)
Fixpoint fence_match (s : JsString) : option JsString :=
  match match_at s with
  | Some g => Some g
  | None =>
      match s with
      | _ :: t => fence_match t
      | [] => None
      end
  end.

(** ** [generateQuote], from the model's response on *)

(** The text handed to [JSON.parse]. *)
Definition jsonText (response_text : JsString) : JsString :=
  let text := trim response_text in
  match fence_match text with
  | Some g => if ToBoolean (JStr g) then g else text
  | None => text
  end.

(** The callback of [parsedJson.steps.map]. *)
Definition stepWithUserPrice (step : JsValue) : completion QuoteStep.t :=
  suggested <- get step "suggestedPrice" ;;
  nested <- get_opt suggested "unitPrice" ;;
  let unitPrice := nullish_or (nullish_or nested suggested) (JNum zero) in
  unit <- get_opt suggested "unit" ;;
  suggestedQuantity <- get step "suggestedQuantity" ;;
  let quantity := nullish_or suggestedQuantity (JNum (of_Z 1)) in
  title <- get step "title" ;;
  description <- get step "description" ;;
  price <- ToNumber unitPrice ;;
  qty <- ToNumber quantity ;;
  userPrice <- ToNumber unitPrice ;;
  Normal (QuoteStep.mk title description (JNum price) unit (JNum qty)
            (JNum userPrice) (JNum zero)).

Definition unexpected_shape_message : string :=
  "A resposta da IA não corresponde ao formato esperado.".

Definition invalid_json_message : string :=
  "A resposta da IA não estava em um formato JSON válido.".

(** The body of the [try] block after [JSON.parse]:
    [if (parsedJson.title && Array.isArray(parsedJson.steps)) { ... return
    { ... } } else { throw new Error(...) }]. *)
Definition quoteOfJson (currency : Currency) (city : JsValue)
  (parsedJson : JsValue) : completion QuoteFragment.t :=
  title <- get parsedJson "title" ;;
  shape <- (if ToBoolean title
            then steps <- get parsedJson "steps" ;; Normal (isArray steps)
            else Normal false) ;;
  if shape then
    steps <- get parsedJson "steps" ;;
    stepsWithUserPrice <- array_map stepWithUserPrice steps ;;
    title <- get parsedJson "title" ;;
    summary <- get parsedJson "summary" ;;
    executionTime <- get parsedJson "executionTime" ;;
    paymentTerms <- get parsedJson "paymentTerms" ;;
    Normal (QuoteFragment.mk title summary
              (or_else executionTime (JStr (u16 "A definir")))
              (or_else paymentTerms (JStr (u16 "A combinar")))
              stepsWithUserPrice currency city)
  else Throw (PlainError unexpected_shape_message).

(** [try { ... } catch (e) { throw new Error(...) }]: whatever the block
    throws, the handler throws the one error in its place. *)
Definition generateQuote (currency : Currency) (city : JsValue)
  (response_text : JsString) : completion QuoteFragment.t :=
  match (parsedJson <- JSON_parse (jsonText response_text) ;;
         quoteOfJson currency city parsedJson) with
  | Normal quote => Normal quote
  | Throw _ => Throw (PlainError invalid_json_message)
  end.

(** ** [fileToGenerativePart] *)

Record InlineData : Type := {
  data : JsValue;
  mimeType : JsString
}.

(** The promise resolves with [reader.result.split(',')[1]] when the
    result is a string, which is [undefined] when there is no second
    piece, and with [''] otherwise. *)
Definition fileToGenerativePart (file : File.t) : InlineData :=
  {| data :=
       match File.result file with
       | JStr result =>
           match nth_error (split 44 result) 1 with
           | Some piece => JStr piece
           | None => JUndefined
           end
       | _ => JStr []
       end;
     mimeType := File.type file |}.

(** ** [generateTechnicalReport], from the response on *)

Definition report_error_message : string :=
  "Não foi possível gerar o relatório técnico. Tente novamente.".

(** The [try] block at the end of the function: the text of the response
    is trimmed and parsed, and the value is returned as it is ([as
    TechnicalReportData] checks nothing at run time); the handler replaces
    whatever the block throws.  Reading the images and the request come
    before the block, and an error there leaves the function as it is. *)
Definition generateTechnicalReport (response_text : JsString)
  : completion JsValue :=
  match (let jsonText := trim response_text in
         parsedJson <- JSON_parse jsonText ;;
         Normal parsedJson) with
  | Normal report => Normal report
  | Throw _ => Throw (PlainError report_error_message)
  end.

End GeminiService.

(* ================================================================== *)
(** * Arrays of steps *)
(* ================================================================== *)

Module StepArray.

(** [[...steps]]: a copy in which a hole has become [undefined]. *)
Definition spread (steps : list Slot) : list Slot :=
  map (fun x => match x with Hole => Undefined | _ => x end) steps.

(** [steps[index]]: [undefined] at a hole and beyond the end. *)
Definition at_index (steps : list Slot) (index : nat) : Slot :=
  match nth_error steps index with
  | Some (Step s) => Step s
  | _ => Undefined
  end.

(** [{ ...x }] for an element [x]: spreading [undefined] gives [{}]. *)
Definition spread_object (x : Slot) : QuoteStep.t :=
  match x with
  | Step s => s
  | Hole | Undefined => QuoteStep.empty
  end.

(** [steps[index] = x].  Writing at or beyond [length] lengthens the array,
    leaving holes between the former end and [index]. *)
Fixpoint assign (steps : list Slot) (index : nat) (x : Slot) : list Slot :=
  match index, steps with
  | O, [] => [x]
  | O, _ :: t => x :: t
  | S i, [] => Hole :: assign [] i x
  | S i, y :: t => y :: assign t i x
  end.

(** A property of a callback's argument: [step.userPrice] and the like
    throw when [step] is [undefined]. *)
Definition prop (x : Slot) (field : QuoteStep.t -> JsValue)
  : completion JsValue :=
  match x with
  | Step s => Normal (field s)
  | Hole | Undefined => Throw TypeError
  end.

(** [steps.reduce((acc, step) => f(acc, step), init)]: holes are passed
    over; an exception ends the loop. *)
Fixpoint reduce (f : number -> Slot -> completion number)
  (steps : list Slot) (acc : number) : completion number :=
  match steps with
  | [] => Normal acc
  | Hole :: t => reduce f t acc
  | x :: t => acc' <- f acc x ;; reduce f t acc'
  end.

End StepArray.

(** [n || d] on Numbers: [d] replaces [0], [-0] and NaN. *)
Definition number_or (n d : number) : number :=
  if ToBoolean (JNum n) then n else d.

(* ================================================================== *)
(** * [components/QuoteInputForm.tsx] *)
(* ================================================================== *)

Module QuoteInputForm.

(** The state of the component. *)
Record State : Type := mk {
  description : JsString;
  city : JsString;
  images : list File.t;
  imagePreviews : list JsString;
  clientName : JsString;
  clientAddress : JsString;
  clientContact : JsString
}.

Definition initial : State := mk [] [] [] [] [] [] [].

(** [handleImageChange]: [files] is [event.target.files], each file paired
    with the URL that [URL.createObjectURL] returns for it in this call;
    [None] is [null]. *)
Definition handleImageChange (files : option (list (File.t * JsString)))
  (s : State) : State :=
  match files with
  | Some filesArray =>
      let newPreviews := map snd filesArray in
      mk (description s) (city s)
         (images s ++ map fst filesArray)
         (imagePreviews s ++ newPreviews)
         (clientName s) (clientAddress s) (clientContact s)
  | None => s
  end.

(** [removeImage]: both lists lose the element at [index]. *)
Definition removeImage (index : nat) (s : State) : State :=
  mk (description s) (city s)
     (filter_index index (images s))
     (filter_index index (imagePreviews s))
     (clientName s) (clientAddress s) (clientContact s).

(** The argument of [URL.revokeObjectURL] in [removeImage], [prev[index]];
    [None] is [undefined]. *)
Definition revoked (index : nat) (s : State) : option JsString :=
  nth_error (imagePreviews s) index.

(** The arguments of [onSubmit]. *)
Record Submission : Type := {
  sub_description : JsString;
  sub_city : JsString;
  sub_images : list File.t;
  sub_currency : Currency;
  sub_clientName : JsString;
  sub_clientAddress : JsString;
  sub_clientContact : JsString
}.

(** [handleSubmit]: the call of [onSubmit], or [None] when the alert is
    shown instead. *)
Definition handleSubmit (currency : Currency) (s : State)
  : option Submission :=
  if ToBoolean (JStr (description s)) && ToBoolean (JStr (city s))
     && ToBoolean (JStr (clientName s))
  then Some {| sub_description := description s;
               sub_city := city s;
               sub_images := images s;
               sub_currency := currency;
               sub_clientName := clientName s;
               sub_clientAddress := clientAddress s;
               sub_clientContact := clientContact s |}
  else None.

End QuoteInputForm.

(* ================================================================== *)
(** * [App.tsx] *)
(* ================================================================== *)

Module App.

(** [calculateTotal] (declared in [App], called nowhere). *)
Definition calculateTotal (quote : QuoteData.t) : completion number :=
  StepArray.reduce
    (fun acc step =>
       userPrice <- StepArray.prop step QuoteStep.userPrice ;;
       p <- ToNumber userPrice ;;
       let price := number_or p zero in
       taxRate <- StepArray.prop step QuoteStep.taxRate ;;
       t <- ToNumber taxRate ;;
       let tax := number_or t zero in
       qty <- StepArray.prop step QuoteStep.quantity ;;
       q <- ToNumber qty ;;
       let quantity := number_or q (of_Z 1) in
       Normal (acc + (price * quantity) * (of_Z 1 + tax / of_Z 100)))
    (QuoteData.steps quote) zero.

(** The state update of [handleUpdateQuote]:
    [prev.map(q => q.id === updatedQuote.id ? updatedQuote : q)]. *)
Definition handleUpdateQuote (updatedQuote : QuoteData.t)
  (prev : list QuoteData.t) : list QuoteData.t :=
  map (fun q =>
         if string_eqb (QuoteData.id q) (QuoteData.id updatedQuote)
         then updatedQuote else q)
      prev.

(** ** The other updates of the list of saved quotes *)

(** The state update of [handleSaveQuote], [prev => [...prev, newQuote]]:
    [newId] is what [new Date().toISOString() + Math.random()] evaluates
    to and [now] the second [new Date().toISOString()]. *)
Definition handleSaveQuote (newId now : JsString) (finalQuote : QuoteData.t)
  (prev : list QuoteData.t) : list QuoteData.t :=
  let newQuote := QuoteData.with_id_date finalQuote newId (JStr now) in
  prev ++ [newQuote].

(** The state update of [handleDeleteQuote]; [confirmed] is the answer of
    [window.confirm]. *)
Definition handleDeleteQuote (confirmed : bool) (id : JsString)
  (prev : list QuoteData.t) : list QuoteData.t :=
  if confirmed
  then filter (fun quote => negb (string_eqb (QuoteData.id quote) id)) prev
  else prev.

(** [savedQuotes.find(q => q.id === id)] in [handleViewQuote]. *)
Definition quoteToView (savedQuotes : list QuoteData.t) (id : JsString)
  : option QuoteData.t :=
  find (fun q => string_eqb (QuoteData.id q) id) savedQuotes.

(** ** The state of the component and its handlers *)

Inductive Page : Type := form | loading | result | history | view | settings.

Record UserSettings : Type := {
  companyName : JsValue;
  companyAddress : JsValue;
  companyTaxId : JsValue;
  companyLogo : JsValue
}.

(** The state variables of [App], and the calls of [handleGenerateQuote]
    that wait for [generateQuote] ([pending]); a call keeps the arguments
    of the submission. *)
Record State : Type := mkState {
  page : Page;
  currentQuote : option QuoteData.t;
  currentImages : list File.t;
  savedQuotes : list QuoteData.t;
  currency : Currency;
  error : option string;
  userSettings : UserSettings;
  pending : list QuoteInputForm.Submission
}.

(** The state once the component is mounted: the initial values, and what
    the first effect has read from [localStorage] ([None] for a key that
    is not stored). *)
Definition initial (storedQuotes : option (list QuoteData.t))
  (storedSettings : option UserSettings) : State :=
  mkState form None []
    (match storedQuotes with Some quotes => quotes | None => [] end)
    EUR None
    (match storedSettings with
     | Some stored => stored
     | None => Build_UserSettings (JStr []) (JStr []) (JStr []) (JStr [])
     end)
    [].

Definition setPage (p : Page) (s : State) : State :=
  mkState p (currentQuote s) (currentImages s) (savedQuotes s) (currency s)
    (error s) (userSettings s) (pending s).

Definition setCurrency (c : Currency) (s : State) : State :=
  mkState (page s) (currentQuote s) (currentImages s) (savedQuotes s) c
    (error s) (userSettings s) (pending s).

Definition setSavedQuotes
  (update : list QuoteData.t -> list QuoteData.t) (s : State) : State :=
  mkState (page s) (currentQuote s) (currentImages s)
    (update (savedQuotes s)) (currency s) (error s) (userSettings s)
    (pending s).

Definition setUserSettings (newSettings : UserSettings) (s : State)
  : State :=
  mkState (page s) (currentQuote s) (currentImages s) (savedQuotes s)
    (currency s) (error s) newSettings (pending s).

(** [handleGenerateQuote] up to the [await]. *)
Definition handleGenerateQuote (call : QuoteInputForm.Submission)
  (s : State) : State :=
  mkState loading (currentQuote s) (QuoteInputForm.sub_images call)
    (savedQuotes s) (QuoteInputForm.sub_currency call) None
    (userSettings s) (pending s ++ [call]).

(** What the awaited call of [generateQuote] comes to: the request fails
    with an [Error] of some message, or with a value that is no [Error]
    ([None]), or there is a response, of which the service reads the
    text. *)
Inductive Outcome : Type :=
| request_failed (message : option string)
| response (text : JsString).

(** The object [newQuote] of [handleGenerateQuote]; [clock] are the digits
    of [Date.now()] and [now] is [new Date().toISOString()]. *)
Definition newQuote (generated : QuoteFragment.t) (clock now : JsString)
  (call : QuoteInputForm.Submission) : QuoteData.t :=
  QuoteData.mk (u16 "temp-" ++ clock) (JStr now)
    (JStr (QuoteInputForm.sub_clientName call))
    (JStr (QuoteInputForm.sub_clientAddress call))
    (JStr (QuoteInputForm.sub_clientContact call))
    (QuoteFragment.title generated) (QuoteFragment.summary generated)
    (QuoteFragment.executionTime generated)
    (QuoteFragment.paymentTerms generated)
    (map Step (QuoteFragment.steps generated))
    (QuoteFragment.currency generated) (QuoteFragment.city generated).

Definition generated_state (quote : QuoteData.t) (s : State) : State :=
  mkState result (Some quote) (currentImages s) (savedQuotes s) (currency s)
    (error s) (userSettings s) (pending s).

Definition failed_state (errorMessage : string) (s : State) : State :=
  mkState form (currentQuote s) (currentImages s) (savedQuotes s)
    (currency s)
    (Some (String.append "Falha ao gerar o orçamento: " errorMessage))
    (userSettings s) (pending s).

(** [handleGenerateQuote] from the [await] on, for the call at position
    [n] of [pending].  The message of a TypeError or SyntaxError is the
    engine's; the model has no text for it and gives no state then
    ([generateQuote] throws neither). *)
Definition generateQuote_returns (n : nat) (outcome : Outcome)
  (clock now : JsString) (s : State) : option State :=
  match nth_error (pending s) n with
  | None => None
  | Some call =>
      let s := mkState (page s) (currentQuote s) (currentImages s)
                 (savedQuotes s) (currency s) (error s) (userSettings s)
                 (filter_index n (pending s)) in
      match outcome with
      | request_failed (Some message) => Some (failed_state message s)
      | request_failed None =>
          Some (failed_state "Ocorreu um erro desconhecido." s)
      | response text =>
          match GeminiService.generateQuote
                  (QuoteInputForm.sub_currency call)
                  (JStr (QuoteInputForm.sub_city call)) text with
          | Normal generated =>
              Some (generated_state (newQuote generated clock now call) s)
          | Throw (PlainError message) => Some (failed_state message s)
          | Throw _ => None
          end
      end
  end.

Definition handleReset (s : State) : State :=
  mkState form None [] (savedQuotes s) (currency s) None (userSettings s)
    (pending s).

Definition handleViewQuote (id : JsString) (s : State) : State :=
  match quoteToView (savedQuotes s) id with
  | Some quote =>
      mkState view (Some quote) [] (savedQuotes s) (currency s) (error s)
        (userSettings s) (pending s)
  | None => s
  end.

(** ** What the user and the service can do

    An event is open in a state when the page of the state renders the
    control that triggers it: the form on [form], the editor with its
    save button on [result] and [view] when there is a current quote, the
    list on [history], the buttons of the header as their conditions say.
    The editor is given [currentQuote] and hands back its edited copy,
    which has kept the identifier. *)
Inductive Event : Type :=
| submit_form (filled : QuoteInputForm.State)
| select_currency (c : Currency)
| service_returns (n : nat) (outcome : Outcome) (clock now : JsString)
| new_quote
| show_history
| show_settings
| save_or_update (finalQuote : QuoteData.t) (newId now : JsString)
| save_settings (newSettings : UserSettings)
| delete_quote (id : JsString) (confirmed : bool)
| view_quote (id : JsString).

Definition is_page (p q : Page) : bool :=
  match p, q with
  | form, form | loading, loading | result, result | history, history
  | view, view | settings, settings => true
  | _, _ => false
  end.

(** The state after an event, [None] when the event is not open. *)
Definition react (s : State) (e : Event) : option State :=
  match e with
  | submit_form filled =>
      if is_page (page s) form then
        match QuoteInputForm.handleSubmit (currency s) filled with
        | Some call => Some (handleGenerateQuote call s)
        | None => Some s
        end
      else None
  | select_currency c =>
      if is_page (page s) form then Some (setCurrency c s) else None
  | service_returns n outcome clock now =>
      generateQuote_returns n outcome clock now s
  | new_quote =>
      if negb (is_page (page s) form) && negb (is_page (page s) loading)
      then Some (handleReset s) else None
  | show_history =>
      if negb (is_page (page s) history) then Some (setPage history s)
      else None
  | show_settings => Some (setPage settings s)
  | save_or_update finalQuote newId now =>
      match currentQuote s with
      | Some quote =>
          if string_eqb (QuoteData.id finalQuote) (QuoteData.id quote) then
            match page s with
            | result =>
                Some (setPage history
                        (setSavedQuotes
                           (handleSaveQuote newId now finalQuote) s))
            | view =>
                Some (setPage history
                        (setSavedQuotes (handleUpdateQuote finalQuote) s))
            | _ => None
            end
          else None
      | None => None
      end
  | save_settings newSettings =>
      if is_page (page s) settings then Some (setUserSettings newSettings s)
      else None
  | delete_quote id confirmed =>
      if is_page (page s) history
      then Some (setSavedQuotes (handleDeleteQuote confirmed id) s)
      else None
  | view_quote id =>
      if is_page (page s) history then Some (handleViewQuote id s) else None
  end.

(** The state after a sequence of events, each open when it happens. *)
Fixpoint run (s : State) (events : list Event) : option State :=
  match events with
  | [] => Some s
  | e :: rest =>
      match react s e with
      | Some s' => run s' rest
      | None => None
      end
  end.

End App.

(* ================================================================== *)
(** * [components/QuoteResult.tsx] *)
(* ================================================================== *)

Module QuoteResult.

(** ** Edit handlers

    Each handler is given the quote being edited and returns the quote that
    the component holds afterwards ([setEditedQuote] is applied to the
    state the handler has read). *)

Definition handlePriceChange (editedQuote : QuoteData.t) (index : nat)
  (value : JsString) : QuoteData.t :=
  let newPrice := StringToNumber value in
  if negb (isNaN newPrice) then
    let newSteps := StepArray.spread (QuoteData.steps editedQuote) in
    let newSteps :=
      StepArray.assign newSteps index
        (Step (QuoteStep.with_userPrice
                 (StepArray.spread_object (StepArray.at_index newSteps index))
                 (JNum newPrice))) in
    QuoteData.with_steps editedQuote newSteps
  else editedQuote.

Definition handleQuantityChange (editedQuote : QuoteData.t) (index : nat)
  (value : JsString) : QuoteData.t :=
  let newQuantity := StringToNumber value in
  if negb (isNaN newQuantity) && ge newQuantity zero then
    let newSteps := StepArray.spread (QuoteData.steps editedQuote) in
    let newSteps :=
      StepArray.assign newSteps index
        (Step (QuoteStep.with_quantity
                 (StepArray.spread_object (StepArray.at_index newSteps index))
                 (JNum newQuantity))) in
    QuoteData.with_steps editedQuote newSteps
  else editedQuote.

Definition handleTaxChange (editedQuote : QuoteData.t) (index : nat)
  (value : JsString) : QuoteData.t :=
  let newTaxRate := StringToNumber value in
  if negb (isNaN newTaxRate) then
    let newSteps := StepArray.spread (QuoteData.steps editedQuote) in
    let newSteps :=
      StepArray.assign newSteps index
        (Step (QuoteStep.with_taxRate
                 (StepArray.spread_object (StepArray.at_index newSteps index))
                 (JNum newTaxRate))) in
    QuoteData.with_steps editedQuote newSteps
  else editedQuote.

(** ** Totals *)

Record Totals : Type := {
  subtotal : number;
  totalTax : number;
  grandTotal : number
}.

(** [Number(step.field || 0)] *)
Definition number_of_or_zero (step : Slot) (field : QuoteStep.t -> JsValue)
  : completion number :=
  v <- StepArray.prop step field ;;
  ToNumber (or_else v (JNum zero)).

(** The [useMemo] block over [editedQuote.steps]. *)
Definition totals (steps : list Slot) : completion Totals :=
  sub <- StepArray.reduce
           (fun acc step =>
              p <- number_of_or_zero step QuoteStep.userPrice ;;
              q <- number_of_or_zero step QuoteStep.quantity ;;
              Normal (acc + (p * q)))
           steps zero ;;
  tax <- StepArray.reduce
           (fun acc step =>
              p <- number_of_or_zero step QuoteStep.userPrice ;;
              q <- number_of_or_zero step QuoteStep.quantity ;;
              t <- number_of_or_zero step QuoteStep.taxRate ;;
              Normal (acc + ((p * q) * (t / of_Z 100))))
           steps zero ;;
  Normal {| subtotal := sub; totalTax := tax; grandTotal := sub + tax |}.

(** [Number(v) || 0] *)
Definition number_or_zero (v : JsValue) : completion number :=
  n <- ToNumber v ;; Normal (number_or n zero).

(** The two constants computed for each rendered step. *)
Definition lineTotal (step : QuoteStep.t) : completion number :=
  p <- number_or_zero (QuoteStep.userPrice step) ;;
  q <- number_or_zero (QuoteStep.quantity step) ;;
  Normal (p * q).

Definition lineTotalWithTax (step : QuoteStep.t) : completion number :=
  total <- lineTotal step ;;
  t <- number_or_zero (QuoteStep.taxRate step) ;;
  Normal (total * (of_Z 1 + t / of_Z 100)).

(** ** The handlers of the text fields *)

Definition handleDescriptionChange (editedQuote : QuoteData.t) (index : nat)
  (value : JsString) : QuoteData.t :=
  let newSteps := StepArray.spread (QuoteData.steps editedQuote) in
  let newSteps :=
    StepArray.assign newSteps index
      (Step (QuoteStep.with_description
               (StepArray.spread_object (StepArray.at_index newSteps index))
               (JStr value))) in
  QuoteData.with_steps editedQuote newSteps.

(** [newSteps[index].title = value] writes into the step object itself,
    which the copied array shares with the array of the state before; the
    assignment throws when there is no object at [index].  The result is
    the state that [setEditedQuote] installs. *)
Definition handleTitleChange (editedQuote : QuoteData.t) (index : nat)
  (value : JsString) : completion QuoteData.t :=
  let newSteps := StepArray.spread (QuoteData.steps editedQuote) in
  match StepArray.at_index newSteps index with
  | Step s =>
      Normal (QuoteData.with_steps editedQuote
                (StepArray.assign newSteps index
                   (Step (QuoteStep.with_title s (JStr value)))))
  | Hole | Undefined => Throw TypeError
  end.

Definition handleClientDataChange (editedQuote : QuoteData.t)
  (field : QuoteData.Field) (value : JsString) : QuoteData.t :=
  QuoteData.with_field editedQuote field (JStr value).

(** ** Laying the sections out on the pages of the PDF *)

(** A section of the document, as the loop looks at it: whether it has
    the class [break-before-page], and the size of the canvas that
    [html2canvas] returns for it. *)
Record PdfSection : Type := {
  break_before_page : bool;
  canvas_width : number;
  canvas_height : number
}.

(** One call of [pdf.addImage]: the page it draws on and its arguments
    [y] and [height] ([x] is the margin and the width is the usable width
    in every call). *)
Record Image : Type := {
  on_page : nat;
  image_y : number;
  image_height : number
}.

(** The document ([pages] counts its pages, the last of which is the one
    drawn on; [drawn] are the images in the order of the calls) and the
    variable [cursorY]. *)
Record Layout : Type := {
  pages : nat;
  drawn : list Image;
  cursorY : number
}.

Definition margin : number := of_Z 10.

(** The body of the loop for one section. *)
Definition place (pdfWidth pdfHeight : number) (l : Layout)
  (section : PdfSection)
  : Layout :=
  let usableWidth := sub pdfWidth (margin * of_Z 2) in
  let l :=
    if break_before_page section
    then {| pages := S (pages l); drawn := drawn l; cursorY := margin |}
    else l in
  let imgWidth := canvas_width section in
  let imgHeight := canvas_height section in
  let ratio := usableWidth / imgWidth in
  let pdfImageHeight := imgHeight * ratio in
  let l :=
    if gt (cursorY l + pdfImageHeight) (sub pdfHeight margin)
    then {| pages := S (pages l); drawn := drawn l; cursorY := margin |}
    else l in
  {| pages := pages l;
     drawn := drawn l ++ [{| on_page := pages l;
                             image_y := cursorY l;
                             image_height := pdfImageHeight |}];
     cursorY := cursorY l + (pdfImageHeight + of_Z 5) |}.

(** The loop over the sections, from a new document of one page. *)
Definition layout (pdfWidth pdfHeight : number) (sections : list PdfSection)
  : Layout :=
  fold_left (place pdfWidth pdfHeight) sections
    {| pages := 1; drawn := []; cursorY := margin |}.

(** The name of the file that is saved. *)
Inductive ViewMode : Type := quote | report.

Definition fileName (viewMode : ViewMode) (editedQuote : QuoteData.t)
  : completion JsString :=
  match QuoteData.clientName editedQuote with
  | JStr clientName =>
      Normal (match viewMode with
              | report => u16 "laudo-"
              | quote => u16 "orcamento-"
              end ++ replace_ws 95 clientName ++ u16 ".pdf")
  | _ => Throw TypeError
  end.

End QuoteResult.

(* ================================================================== *)
(** * [components/QuoteHistory.tsx] *)
(* ================================================================== *)

Module QuoteHistory.

(** [totalPrice] of one listed quote. *)
Definition totalPrice (quote : QuoteData.t) : completion number :=
  StepArray.reduce
    (fun acc step =>
       userPrice <- StepArray.prop step QuoteStep.userPrice ;;
       p <- ToNumber userPrice ;;
       let price := number_or p zero in
       taxRate <- StepArray.prop step QuoteStep.taxRate ;;
       t <- ToNumber taxRate ;;
       let tax := number_or t zero in
       qty <- StepArray.prop step QuoteStep.quantity ;;
       q <- ToNumber qty ;;
       let quantity := number_or q (of_Z 1) in   (* Default to 1 for older quotes *)
       Normal (acc + (price * quantity) * (of_Z 1 + tax / of_Z 100)))
    (QuoteData.steps quote) zero.

(** What the component renders: the notice that nothing is saved, or one
    row for each quote with its total, the rows in the order of
    [quotes.slice().reverse()]. *)
Inductive Rendering : Type :=
| nothing_saved
| rows (listed : list (QuoteData.t * number)).

Definition render (quotes : list QuoteData.t) : completion Rendering :=
  match quotes with
  | [] => Normal nothing_saved
  | _ :: _ =>
      listed <- mapM (fun quote =>
                        total <- totalPrice quote ;; Normal (quote, total))
                     (rev quotes) ;;
      Normal (rows listed)
  end.


End QuoteHistory.

(* ================================================================== *)
(** * Vocabulary of the properties *)
(* ================================================================== *)

(** ** Editing sessions *)

(** [step.quantity >= 0], as JavaScript evaluates it. *)
Definition quantity_nonnegative (s : QuoteStep.t) : Prop :=
  exists n, ToNumber (QuoteStep.quantity s) = Normal n /\ ge n zero = true.

(** Every step object of the array has a quantity that is [>= 0]. *)
Definition quantities_nonnegative (steps : list Slot) : Prop :=
  Forall (fun x => match x with
                   | Step s => quantity_nonnegative s
                   | Hole | Undefined => True
                   end) steps.

(** One edit of the quote on screen.  The component renders the inputs of
    the steps it holds, so the price and tax handlers are called with the
    index of a step of the array; the quantity handler is taken at any
    index. *)
Inductive edit : QuoteData.t -> QuoteData.t -> Prop :=
| edit_price q index s value :
    nth_error (QuoteData.steps q) index = Some (Step s) ->
    edit q (QuoteResult.handlePriceChange q index value)
| edit_quantity q index value :
    edit q (QuoteResult.handleQuantityChange q index value)
| edit_tax q index s value :
    nth_error (QuoteData.steps q) index = Some (Step s) ->
    edit q (QuoteResult.handleTaxChange q index value).

(** The quotes an editing session can reach from [q]. *)
Inductive edits (q : QuoteData.t) : QuoteData.t -> Prop :=
| edits_none : edits q q
| edits_more q' q'' : edits q q' -> edit q' q'' -> edits q q''.

(** ** Totals *)

(** A field that holds a Number other than NaN, and that Number. *)
Definition numeric (v : JsValue) : Prop :=
  exists x, v = JNum x /\ isNaN x = false.

Definition num (v : JsValue) : number :=
  match v with JNum x => x | _ => nan end.

Definition numeric_step (s : QuoteStep.t) : Prop :=
  numeric (QuoteStep.userPrice s) /\
  numeric (QuoteStep.quantity s) /\
  numeric (QuoteStep.taxRate s).

(** The formulas of the specification, on the Numbers stored in a step:
    [userPrice * quantity], [userPrice * quantity * (1 + taxRate / 100)]
    and the tax of a line, [lineTotal * (taxRate / 100)]. *)
Definition spec_lineTotal (s : QuoteStep.t) : number :=
  num (QuoteStep.userPrice s) * num (QuoteStep.quantity s).

Definition spec_lineTotalWithTax (s : QuoteStep.t) : number :=
  num (QuoteStep.userPrice s) * num (QuoteStep.quantity s)
  * (of_Z 1 + num (QuoteStep.taxRate s) / of_Z 100).

Definition spec_lineTax (s : QuoteStep.t) : number :=
  spec_lineTotal s * (num (QuoteStep.taxRate s) / of_Z 100).

(** The sum of a list of Numbers, added from the left starting at [0]. *)
Definition sum (xs : list number) : number := fold_left add xs zero.

(** A step with the three amounts given as integers and nothing else. *)
Definition step_of (userPrice quantity taxRate : Z) : QuoteStep.t :=
  QuoteStep.mk JUndefined JUndefined JUndefined JUndefined
    (JNum (of_Z quantity)) (JNum (of_Z userPrice)) (JNum (of_Z taxRate)).

(** A step saved without a quantity, with price 10 and tax rate 0, and
    the same step with the quantity [null]. *)
Definition step_without_quantity : QuoteStep.t :=
  QuoteStep.mk JUndefined JUndefined JUndefined JUndefined
    JUndefined (JNum (of_Z 10)) (JNum zero).

Definition step_with_null_quantity : QuoteStep.t :=
  QuoteStep.with_quantity step_without_quantity JNull.


(** Such a value that is missing or is no number. *)
Definition no_number (v : JsValue) : Prop :=
  v = JUndefined \/ v = JNull \/ v = JNum nan.

(** The amount that the history lists for a step, in the words of the
    specification: price times quantity times [1 + taxRate / 100], where
    a price or tax rate that is missing or no number counts as 0, and
    such a quantity as 1. *)
Definition spec_listed_amount (s : QuoteStep.t) : number :=
  (number_or (ToNumber_value (QuoteStep.userPrice s)) zero
   * number_or (ToNumber_value (QuoteStep.quantity s)) (of_Z 1))
  * (of_Z 1
     + number_or (ToNumber_value (QuoteStep.taxRate s)) zero / of_Z 100).

(** The two steps feed the same three amounts to the totals. *)
Definition same_amounts (s s' : QuoteStep.t) : Prop :=
  QuoteResult.number_of_or_zero (Step s) QuoteStep.userPrice
  = QuoteResult.number_of_or_zero (Step s') QuoteStep.userPrice /\
  QuoteResult.number_of_or_zero (Step s) QuoteStep.quantity
  = QuoteResult.number_of_or_zero (Step s') QuoteStep.quantity /\
  QuoteResult.number_of_or_zero (Step s) QuoteStep.taxRate
  = QuoteResult.number_of_or_zero (Step s') QuoteStep.taxRate.

Notation "a ~= b" := (same_value_zero a b) (at level 70, no associativity).

(** ** Credentials *)

(** The value stored as [g.env.name], when the binding [g] and its [env]
    are objects. *)
Definition stored_key (g : option JsValue) (name : string) : option JsValue :=
  match g with
  | Some (JObj props) =>
      match lookup (u16 "env") props with
      | Some (JObj vars) => lookup (u16 name) vars
      | _ => None
      end
  | _ => None
  end.

(** A credential is available: one of the two variables holds a truthy
    value (for a string: a non-empty one). *)
Definition credential_available (env : GeminiService.Environment) : Prop :=
  exists k,
    ToBoolean k = true /\
    (stored_key (GeminiService.process env) "API_KEY" = Some k \/
     stored_key (GeminiService.import_meta env) "VITE_API_KEY" = Some k).

(** A browser build with the key in [import.meta.env], and one without
    any key. *)
Definition env_with_key : GeminiService.Environment :=
  {| GeminiService.process := None;
     GeminiService.import_meta :=
       Some (JObj [(u16 "env",
                    JObj [(u16 "VITE_API_KEY", JStr (u16 "k-123"))])]) |}.

Definition env_without_key : GeminiService.Environment :=
  {| GeminiService.process := Some (JObj [(u16 "env", JObj [])]);
     GeminiService.import_meta := Some (JObj [(u16 "env", JObj [])]) |}.

(** ** Parsed responses *)

(** The field [k] of [v], [undefined] when there is none. *)
Definition property (v : JsValue) (k : string) : JsValue :=
  match get v k with
  | Normal x => x
  | Throw _ => JUndefined
  end.

Definition present (v : JsValue) : bool := negb (is_nullish v).

(** The unit price of a step of the response, in the words of the
    specification: the nested [suggestedPrice.unitPrice] if present, else
    the flat [suggestedPrice] if present, else 0. *)
Definition resolved_unit_price (step : JsValue) : JsValue :=
  let flat := property step "suggestedPrice" in
  let nested := property flat "unitPrice" in
  if present nested then nested
  else if present flat then flat
  else JNum zero.

(** The quantity of a step of the response: [suggestedQuantity] if
    present, else 1. *)
Definition resolved_quantity (step : JsValue) : JsValue :=
  let suggested := property step "suggestedQuantity" in
  if present suggested then suggested else JNum (of_Z 1).

(** [Number(v)] returns. *)
Definition convertible (v : JsValue) : Prop := ToString_throws v = false.

(** A step of the response that [generateQuote] can normalise: it is not
    [null], and its price and quantity can be converted to Numbers. *)
Definition usable_step (step : JsValue) : Prop :=
  is_nullish step = false /\
  convertible (resolved_unit_price step) /\
  convertible (resolved_quantity step).

(** The step that the specification describes for a step of the
    response. *)
Definition normalised (step : JsValue) : QuoteStep.t :=
  let price := JNum (ToNumber_value (resolved_unit_price step)) in
  QuoteStep.mk (property step "title") (property step "description")
    price (property (property step "suggestedPrice") "unit")
    (JNum (ToNumber_value (resolved_quantity step))) price (JNum zero).

(** Responses used as examples.  In [text s] an apostrophe of [s] stands
    for a double quote. *)
Definition text (s : string) : JsString :=
  map (fun c => if (c =? 39)%N then 34%N else c) (u16 s).

Definition response_null_step : JsString :=
  text "{'title':'T','steps':[null]}".

Definition response_two_steps : JsString :=
  text "{'title':'T','steps':[{'suggestedPrice':{'unitPrice':12.5,'unit':'m'}},{'suggestedPrice':7,'suggestedQuantity':3}]}".

Definition response_without_steps : JsString := text "{'title':'T'}".

Definition response_without_title : JsString := text "{'steps':[]}".

Definition response_malformed : JsString := text "{'title':".

(** A payload with three backticks inside a string, bare and in a fenced
    block tagged [json]; the payload of the specification's example. *)
Definition payload_with_backticks : JsString :=
  text "{'title':'a```b','steps':[]}".

Definition fenced_payload_with_backticks : JsString :=
  u16 "```json" ++ [10%N] ++ payload_with_backticks ++ [10%N] ++ u16 "```".

Definition payload_example : JsString := text "{'title':'T','steps':[]}".

(** ** A quote used in examples: the two steps (50, 1, 0) and (30, 3, 10) *)

Definition example_steps : list QuoteStep.t :=
  [step_of 50 1 0; step_of 30 3 10].

Definition example_quote : QuoteData.t :=
  QuoteData.mk (u16 "temp-1") JUndefined JUndefined JUndefined JUndefined
    (JStr (u16 "T")) JUndefined JUndefined JUndefined
    (map Step example_steps) EUR JUndefined.

Definition example_quote_updated : QuoteData.t :=
  QuoteData.with_steps example_quote [Step (step_of 60 1 0)].

Definition other_quote : QuoteData.t :=
  QuoteData.mk (u16 "temp-2") JUndefined JUndefined JUndefined JUndefined
    (JStr (u16 "U")) JUndefined JUndefined JUndefined [] EUR JUndefined.

(** ** Fenced text *)

(** [p] occurs in [s]. *)
Fixpoint contains (p s : JsString) : bool :=
  match strip_prefix p s with
  | Some _ => true
  | None =>
      match s with
      | _ :: t => contains p t
      | [] => false
      end
  end.

(** [s] is not empty and its last code unit is neither white space nor a
    backtick. *)
Fixpoint ends_solid (s : JsString) : bool :=
  match s with
  | [] => false
  | [c] => negb (is_ws c) && negb (c =? 96)%N
  | _ :: t => ends_solid t
  end.

(** The code units a JSON value can start with:
    [{], [[], a double quote, [t], [f], [n], [-] and the digits. *)
Definition json_start (c : N) : bool :=
  ((c =? 123) || (c =? 91) || (c =? 34) || (c =? 116) || (c =? 102)
   || (c =? 110) || (c =? 45) || (48 <=? c) && (c <=? 57))%N.

(** [payload] in a fenced block: the fence, the tag [json] if [tagged],
    white space, the payload, white space, the fence. *)
Definition fenced (tagged : bool) (w1 payload w2 : JsString) : JsString :=
  GeminiService.fence ++ (if tagged then u16 "json" else []) ++ w1
  ++ payload ++ w2 ++ GeminiService.fence.

(** A code unit that is neither white space nor a backtick. *)
Definition solid (c : N) : bool := negb (is_ws c) && negb (c =? 96)%N.

(** What a successful run of the JSON reader has read: the text of a
    value starts with a code unit a value can start with and ends with a
    solid one; the text of a list of elements or members ends with a solid
    code unit. *)
Definition value_read (fuel : nat) : Prop :=
  forall s v rest,
    json_value fuel s = Parsed v rest ->
    exists c body,
      skip_json_ws s = (c :: body) ++ rest /\
      json_start c = true /\ ends_solid (c :: body) = true.

Definition elements_read (fuel : nat) : Prop :=
  forall s acc v rest,
    json_elements fuel s acc = Parsed v rest ->
    exists body, s = body ++ rest /\ ends_solid body = true.

Definition members_read (fuel : nat) : Prop :=
  forall s acc v rest,
    json_members fuel s acc = Parsed v rest ->
    exists body, s = body ++ rest /\ ends_solid body = true.

(** The fuel that suffices for a text: twice its length and one more for a
    value, two more for a list of elements or members. *)
Definition enough_fuel (fuel : nat) : Prop :=
  (forall s, 2 * List.length s + 1 <= fuel -> json_value fuel s <> OutOfFuel) /\
  (forall s acc,
     2 * List.length s + 2 <= fuel -> json_elements fuel s acc <> OutOfFuel) /\
  (forall s acc,
     2 * List.length s + 2 <= fuel -> json_members fuel s acc <> OutOfFuel).

(* ================================================================== *)
(** * Vocabulary for the properties of the remaining code *)
(* ================================================================== *)

(** ** Saved quotes and the pages of the application *)

Definition ids (quotes : list QuoteData.t) : list JsString :=
  map QuoteData.id quotes.

(** The states that the application can be in: those that a sequence of
    events leads to from a state in which it is mounted. *)
Definition reachable (s : App.State) : Prop :=
  exists storedQuotes storedSettings events,
    App.run (App.initial storedQuotes storedSettings) events = Some s.

(** The quote that the service has generated from some response to a
    submission. *)
Definition generated_quote (q : QuoteData.t) : Prop :=
  exists generated clock now call text,
    GeminiService.generateQuote (QuoteInputForm.sub_currency call)
      (JStr (QuoteInputForm.sub_city call)) text = Normal generated /\
    q = App.newQuote generated clock now call.

(** What holds in every state of the application. *)
Definition editor_has_quote (s : App.State) : Prop :=
  match App.page s with
  | App.result =>
      exists q, App.currentQuote s = Some q /\ generated_quote q
  | App.view =>
      exists q, App.currentQuote s = Some q /\ In q (App.savedQuotes s)
  | App.loading => App.pending s <> []
  | _ => True
  end.

(** ** What the service returns *)

(** A step as [generateQuote] builds it: the amounts are Numbers, the
    price of the user is the suggested price and the tax rate is [0]. *)
Definition generated_step (s : QuoteStep.t) : Prop :=
  exists price qty,
    QuoteStep.suggestedPrice s = JNum price /\
    QuoteStep.userPrice s = JNum price /\
    QuoteStep.quantity s = JNum qty /\
    QuoteStep.taxRate s = JNum zero.

(** ** The editor *)

(** The steps of [q] with the step [s], which stands between [before] and
    [after], replaced by [s'] in a copy of the array. *)
Definition step_replaced (q : QuoteData.t) (before : list Slot)
  (s' : QuoteStep.t) (after : list Slot) : QuoteData.t :=
  QuoteData.with_steps q
    (StepArray.spread before ++ Step s' :: StepArray.spread after).

(** One change that the editor lets the user make: the inputs of a step
    are rendered for the step objects of the array, and call the handlers
    with the index of their step; the fields of the client and of the
    conditions call [handleClientDataChange]. *)
Inductive change : QuoteData.t -> QuoteData.t -> Prop :=
| change_price q index s value :
    nth_error (QuoteData.steps q) index = Some (Step s) ->
    change q (QuoteResult.handlePriceChange q index value)
| change_quantity q index s value :
    nth_error (QuoteData.steps q) index = Some (Step s) ->
    change q (QuoteResult.handleQuantityChange q index value)
| change_tax q index s value :
    nth_error (QuoteData.steps q) index = Some (Step s) ->
    change q (QuoteResult.handleTaxChange q index value)
| change_description q index s value :
    nth_error (QuoteData.steps q) index = Some (Step s) ->
    change q (QuoteResult.handleDescriptionChange q index value)
| change_title q index s value q' :
    nth_error (QuoteData.steps q) index = Some (Step s) ->
    QuoteResult.handleTitleChange q index value = Normal q' ->
    change q q'
| change_client q field value :
    change q (QuoteResult.handleClientDataChange q field value).

(** The quotes that a session in the editor leads to from [q]. *)
Inductive changes (q : QuoteData.t) : QuoteData.t -> Prop :=
| changes_none : changes q q
| changes_more q' q'' : changes q q' -> change q' q'' -> changes q q''.

(** An array whose elements are all step objects with amounts that
    [Number] converts. *)
Definition amounts_convertible (s : QuoteStep.t) : Prop :=
  convertible (QuoteStep.userPrice s) /\
  convertible (QuoteStep.quantity s) /\
  convertible (QuoteStep.taxRate s).

Definition all_steps (P : QuoteStep.t -> Prop) (steps : list Slot) : Prop :=
  Forall (fun x => exists s, x = Step s /\ P s) steps.

(** The step [s'] is [s] with one field written by a handler. *)
Definition one_field_written (s s' : QuoteStep.t) : Prop :=
  (exists n, s' = QuoteStep.with_userPrice s (JNum n)) \/
  (exists n, s' = QuoteStep.with_quantity s (JNum n)) \/
  (exists n, s' = QuoteStep.with_taxRate s (JNum n)) \/
  (exists v, s' = QuoteStep.with_description s (JStr v)) \/
  (exists v, s' = QuoteStep.with_title s (JStr v)).

(** The fields of a quote that no input of the editor writes. *)
Definition same_identity (q q' : QuoteData.t) : Prop :=
  QuoteData.id q' = QuoteData.id q /\
  QuoteData.date q' = QuoteData.date q /\
  QuoteData.title q' = QuoteData.title q /\
  QuoteData.summary q' = QuoteData.summary q /\
  QuoteData.currency q' = QuoteData.currency q /\
  QuoteData.city q' = QuoteData.city q.

(** ** The list on screen *)

Definition listed (r : QuoteHistory.Rendering)
  : list (QuoteData.t * number) :=
  match r with
  | QuoteHistory.nothing_saved => []
  | QuoteHistory.rows l => l
  end.

(** ** Responses *)

(** No backtick occurs in [s]. *)
Definition no_backtick (s : JsString) : bool :=
  forallb (fun c => negb (c =? 96)%N) s.

(** No comma occurs in [s]. *)
Definition no_comma (s : JsString) : bool :=
  forallb (fun c => negb (c =? 44)%N) s.

(** ** The photos of the form *)

(** What the user does with the photos: choosing files, each of which the
    browser gives a preview URL, and removing the photo at an index.  The
    other inputs of the form write neither [images] nor
    [imagePreviews]. *)
Inductive PhotoEvent : Type :=
| choose_files (files : option (list (File.t * JsString)))
| remove_photo (index : nat).

Definition photo_react (s : QuoteInputForm.State) (e : PhotoEvent)
  : QuoteInputForm.State :=
  match e with
  | choose_files files => QuoteInputForm.handleImageChange files s
  | remove_photo index => QuoteInputForm.removeImage index s
  end.

(** The files that the events hand over, with their URLs. *)
Definition chosen (events : list PhotoEvent) : list (File.t * JsString) :=
  flat_map (fun e => match e with
                     | choose_files (Some files) => files
                     | _ => []
                     end) events.

(** The previews are those of the images, position by position: the two
    lists are the two sides of one list of pairs that were chosen. *)
Definition previews_of_images (s : QuoteInputForm.State)
  (pairs : list (File.t * JsString)) : Prop :=
  exists shown,
    QuoteInputForm.images s = map fst shown /\
    QuoteInputForm.imagePreviews s = map snd shown /\
    incl shown pairs.

(** ** The pages of the PDF *)

(** The height of the image of a section, scaled to the usable width. *)
Definition scaled_height (pdfWidth : number)
  (section : QuoteResult.PdfSection) : number :=
  QuoteResult.canvas_height section
  * (sub pdfWidth (QuoteResult.margin * of_Z 2)
     / QuoteResult.canvas_width section).

(** How the image of a section is placed: with the scaled height; at the
    top margin, or else so that adding its height to its position does
    not exceed the page height less the margin; at the top margin when
    the section asks for a page break. *)
Definition placed (pdfWidth pdfHeight : number)
  (section : QuoteResult.PdfSection) (img : QuoteResult.Image) : Prop :=
  QuoteResult.image_height img = scaled_height pdfWidth section /\
  (QuoteResult.image_y img = QuoteResult.margin \/
   gt (QuoteResult.image_y img + QuoteResult.image_height img)
      (sub pdfHeight QuoteResult.margin) = false) /\
  (QuoteResult.break_before_page section = true ->
   QuoteResult.image_y img = QuoteResult.margin).

(** The pages of the images never go back: they start at [first] or
    later and end at [last] or before. *)
Fixpoint pages_in_order (first : nat) (images : list QuoteResult.Image)
  (last : nat) : Prop :=
  match images with
  | [] => first <= last
  | img :: rest =>
      first <= QuoteResult.on_page img /\
      pages_in_order (QuoteResult.on_page img) rest last
  end.

(** ** States, files and environments used in examples *)

Definition no_settings : App.UserSettings :=
  App.Build_UserSettings (JStr []) (JStr []) (JStr []) (JStr []).

(** The list of saved quotes is shown; a saved quote is open in the
    editor; a new quote is shown as a result. *)
Definition state_history : App.State :=
  App.mkState App.history None [] [other_quote; example_quote] EUR None
    no_settings [].

Definition state_viewing : App.State :=
  App.mkState App.view (Some example_quote) [] [other_quote; example_quote]
    EUR None no_settings [].

Definition state_updated : App.State :=
  App.mkState App.history (Some example_quote) []
    [other_quote; example_quote_updated] EUR None no_settings [].

Definition state_result : App.State :=
  App.mkState App.result (Some example_quote) [] [other_quote] EUR None
    no_settings [].

Definition state_saved : App.State :=
  App.mkState App.history (Some example_quote) []
    [other_quote;
     QuoteData.with_id_date example_quote (u16 "2025-01-01T00:00:00.000Z0.5")
       (JStr (u16 "2025-01-01T00:00:00.000Z"))]
    EUR None no_settings [].

(** A form filled in, and the state while its submission is pending. *)
Definition form_filled : QuoteInputForm.State :=
  QuoteInputForm.mk (u16 "Pintar a sala") (u16 "Lisboa") [] []
    (u16 "Ana Maria") [] [].

Definition state_loading : App.State :=
  App.mkState App.loading None [] [] EUR None no_settings
    [{| QuoteInputForm.sub_description := u16 "Pintar a sala";
        QuoteInputForm.sub_city := u16 "Lisboa";
        QuoteInputForm.sub_images := [];
        QuoteInputForm.sub_currency := EUR;
        QuoteInputForm.sub_clientName := u16 "Ana Maria";
        QuoteInputForm.sub_clientAddress := [];
        QuoteInputForm.sub_clientContact := [] |}].

(** The quote of the example with a client. *)
Definition example_quote_of_client : QuoteData.t :=
  QuoteData.with_field example_quote QuoteData.field_clientName
    (JStr (u16 "Ana Maria")).

(** An environment with both variables set, and one whose [API_KEY] is
    the empty string. *)
Definition env_both_keys : GeminiService.Environment :=
  {| GeminiService.process :=
       Some (JObj [(u16 "env",
                    JObj [(u16 "API_KEY", JStr (u16 "k-first"))])]);
     GeminiService.import_meta :=
       Some (JObj [(u16 "env",
                    JObj [(u16 "VITE_API_KEY", JStr (u16 "k-second"))])]) |}.

Definition env_empty_first_key : GeminiService.Environment :=
  {| GeminiService.process :=
       Some (JObj [(u16 "env", JObj [(u16 "API_KEY", JStr [])])]);
     GeminiService.import_meta :=
       Some (JObj [(u16 "env",
                    JObj [(u16 "VITE_API_KEY", JStr (u16 "k-second"))])]) |}.

(** A file read as a data URL, and an empty file. *)
Definition file_png : File.t :=
  File.mk (u16 "image/png") (JStr (u16 "data:image/png;base64,QUJD")).

Definition file_empty : File.t := File.mk [] (JStr (u16 "data:")).

(** ** A response with a negative quantity *)

(** A response whose first step suggests the quantity [-2], the quote
    that the application makes of it for the form filled in above, and
    the state that shows this quote as a result. *)
Definition response_negative_quantity : JsString :=
  text "{'title':'T','steps':[{'suggestedPrice':5,'suggestedQuantity':-2},{'suggestedPrice':7}]}".

Definition quote_negative_quantity : QuoteData.t :=
  QuoteData.mk (u16 "temp-1700000000000")
    (JStr (u16 "2025-01-01T00:00:00.000Z"))
    (JStr (u16 "Ana Maria")) (JStr []) (JStr [])
    (JStr (u16 "T")) JUndefined
    (JStr (u16 "A definir")) (JStr (u16 "A combinar"))
    [Step (QuoteStep.mk JUndefined JUndefined (JNum (of_Z 5)) JUndefined
             (JNum (of_Z (-2))) (JNum (of_Z 5)) (JNum zero));
     Step (QuoteStep.mk JUndefined JUndefined (JNum (of_Z 7)) JUndefined
             (JNum (of_Z 1)) (JNum (of_Z 7)) (JNum zero))]
    EUR (JStr (u16 "Lisboa")).

Definition state_negative_quantity : App.State :=
  App.mkState App.result (Some quote_negative_quantity) [] [] EUR None
    no_settings [].


(* ================================================================== *)
(** * Properties *)
(* ================================================================== *)

(** ** Arrays *)

Lemma spread_length (steps : list Slot) :
  List.length (StepArray.spread steps) = List.length steps.
Proof. apply length_map. Qed.

Lemma spread_nth_step (steps : list Slot) (i : nat) (s : QuoteStep.t) :
  nth_error steps i = Some (Step s) ->
  nth_error (StepArray.spread steps) i = Some (Step s).
Proof.
  intros H. unfold StepArray.spread. now rewrite nth_error_map, H.
Qed.

Lemma at_index_step (steps : list Slot) (i : nat) (s : QuoteStep.t) :
  nth_error steps i = Some (Step s) -> StepArray.at_index steps i = Step s.
Proof. intros H. unfold StepArray.at_index. now rewrite H. Qed.

Section ForallSlots.
Variable P : Slot -> Prop.
Hypothesis P_hole : P Hole.
Hypothesis P_undefined : P Undefined.

Lemma Forall_spread (steps : list Slot) :
  Forall P steps -> Forall P (StepArray.spread steps).
Proof.
  induction 1 as [|x l Hx _ IH]; simpl; constructor; auto.
  destruct x; auto.
Qed.

Lemma Forall_assign (steps : list Slot) (i : nat) (x : Slot) :
  P x -> Forall P steps -> Forall P (StepArray.assign steps i x).
Proof.
  intros Hx. revert steps.
  induction i as [|i IH]; intros [|y t] H; simpl.
  - auto.
  - inversion H; subst. auto.
  - constructor; auto.
  - inversion H; subst. auto.
Qed.
End ForallSlots.

Lemma Forall_nth_step (P : Slot -> Prop) (steps : list Slot) (i : nat)
  (s : QuoteStep.t) :
  Forall P steps -> nth_error steps i = Some (Step s) -> P (Step s).
Proof.
  intros H Hn. rewrite Forall_forall in H. apply H.
  eapply nth_error_In; eauto.
Qed.

(** ** Edit handlers *)

Lemma lt_zero_not_ge (x : number) : lt x zero = true -> ge x zero = false.
Proof.
  unfold lt, ge, zero, SFltb, SFleb.
  destruct x as [s|s| |s m e]; simpl; try destruct s; simpl; congruence.
Qed.

Lemma written_quantity_nonnegative (s : QuoteStep.t) (n : number) :
  ge n zero = true -> quantity_nonnegative (QuoteStep.with_quantity s (JNum n)).
Proof. intros H. exists n. split; [reflexivity | exact H]. Qed.

Lemma handleQuantityChange_preserves (q : QuoteData.t) (index : nat)
  (value : JsString) :
  quantities_nonnegative (QuoteData.steps q) ->
  quantities_nonnegative
    (QuoteData.steps (QuoteResult.handleQuantityChange q index value)).
Proof.
  intros H. unfold QuoteResult.handleQuantityChange.
  destruct (negb (isNaN (StringToNumber value))
            && ge (StringToNumber value) zero) eqn:Hguard; [|exact H].
  apply andb_prop in Hguard. destruct Hguard as [_ Hge]. simpl.
  apply Forall_assign; try exact I.
  - now apply written_quantity_nonnegative.
  - apply Forall_spread; try exact I. exact H.
Qed.

(** The price and tax handlers, called at the index of a step, write a
    copy of that step with its quantity as it was. *)
Ltac keeps_quantities Hn H :=
  destruct (negb (isNaN (StringToNumber _))); [|exact H];
  simpl;
  rewrite (at_index_step _ _ _ (spread_nth_step _ _ _ Hn));
  simpl;
  apply Forall_assign; try exact I;
  [ exact (Forall_nth_step _ _ _ _ H Hn)
  | apply Forall_spread; try exact I; exact H ].

Lemma handlePriceChange_preserves (q : QuoteData.t) (index : nat)
  (s : QuoteStep.t) (value : JsString) :
  nth_error (QuoteData.steps q) index = Some (Step s) ->
  quantities_nonnegative (QuoteData.steps q) ->
  quantities_nonnegative
    (QuoteData.steps (QuoteResult.handlePriceChange q index value)).
Proof.
  intros Hn H. unfold QuoteResult.handlePriceChange. keeps_quantities Hn H.
Qed.

Lemma handleTaxChange_preserves (q : QuoteData.t) (index : nat)
  (s : QuoteStep.t) (value : JsString) :
  nth_error (QuoteData.steps q) index = Some (Step s) ->
  quantities_nonnegative (QuoteData.steps q) ->
  quantities_nonnegative
    (QuoteData.steps (QuoteResult.handleTaxChange q index value)).
Proof.
  intros Hn H. unfold QuoteResult.handleTaxChange. keeps_quantities Hn H.
Qed.

Lemma edit_preserves (q q' : QuoteData.t) :
  edit q q' ->
  quantities_nonnegative (QuoteData.steps q) ->
  quantities_nonnegative (QuoteData.steps q').
Proof.
  intros [q0 i s v Hn | q0 i v | q0 i s v Hn] H.
  - eapply handlePriceChange_preserves; eauto.
  - now apply handleQuantityChange_preserves.
  - eapply handleTaxChange_preserves; eauto.
Qed.

(** C7.  The quantity invariant is kept by editing: if every step of the
    quote has [quantity >= 0], so has every step of any quote reached from
    it by price, quantity and tax edits.  In particular one call of the
    quantity handler, at any index and with any input, keeps it: the
    handler writes a quantity only when the input is a number and
    [>= 0]. *)
Theorem quantity_invariant_preserved (q q' : QuoteData.t) :
  quantities_nonnegative (QuoteData.steps q) ->
  edits q q' ->
  quantities_nonnegative (QuoteData.steps q').
Proof.
  intros H Hreach. induction Hreach as [|q1 q2 _ IH Hedit].
  - exact H.
  - exact (edit_preserves _ _ Hedit IH).
Qed.

(** C7, as the claim has it, fails.  [generateQuote] takes the quantity
    that the response suggests without looking at its sign: a response
    that suggests [-2] for the first step leads the application to a
    result whose first step has the quantity [-2].  The invariant does not
    hold of this quote, and an accepted edit of the quantity of the second
    step produces a different quote of which it does not hold either. *)
Lemma negative_quantity_reached :
  App.run (App.initial None None)
    [App.submit_form form_filled;
     App.service_returns 0 (App.response response_negative_quantity)
       (u16 "1700000000000") (u16 "2025-01-01T00:00:00.000Z")]
  = Some state_negative_quantity /\
  App.currentQuote state_negative_quantity = Some quote_negative_quantity /\
  ~ quantities_nonnegative (QuoteData.steps quote_negative_quantity) /\
  edits quote_negative_quantity
    (QuoteResult.handleQuantityChange quote_negative_quantity 1 (u16 "4")) /\
  QuoteResult.handleQuantityChange quote_negative_quantity 1 (u16 "4")
  <> quote_negative_quantity /\
  ~ quantities_nonnegative
      (QuoteData.steps
         (QuoteResult.handleQuantityChange quote_negative_quantity 1
            (u16 "4"))).
Proof.
  assert (forall steps,
            nth_error steps 0
            = Some (Step (QuoteStep.mk JUndefined JUndefined (JNum (of_Z 5))
                            JUndefined (JNum (of_Z (-2))) (JNum (of_Z 5))
                            (JNum zero))) ->
            ~ quantities_nonnegative steps) as Hneg.
  { intros steps Hnth H.
    destruct (Forall_nth_step _ _ _ _ H Hnth) as (n & Hn & Hge).
    injection Hn as <-. discriminate Hge. }
  split; [vm_compute; reflexivity|]. split; [reflexivity|].
  split; [apply Hneg; reflexivity|].
  split; [|split].
  - apply edits_more with (q' := quote_negative_quantity);
      [apply edits_none | apply edit_quantity].
  - intros E. apply (f_equal QuoteData.steps) in E.
    apply (f_equal (fun steps => nth_error steps 1)) in E.
    vm_compute in E. discriminate E.
  - apply Hneg. vm_compute. reflexivity.
Qed.

(** C10.  A rejected edit changes nothing: when [Number(value)] is NaN the
    price, quantity and tax handlers all return the quote they were given,
    and so does the quantity handler when [Number(value)] is negative. *)
Theorem rejected_edit_unchanged (q : QuoteData.t) (index : nat)
  (value : JsString) :
  (isNaN (StringToNumber value) = true ->
     QuoteResult.handlePriceChange q index value = q /\
     QuoteResult.handleQuantityChange q index value = q /\
     QuoteResult.handleTaxChange q index value = q) /\
  (lt (StringToNumber value) zero = true ->
     QuoteResult.handleQuantityChange q index value = q).
Proof.
  split.
  - intros Hnan.
    unfold QuoteResult.handlePriceChange, QuoteResult.handleQuantityChange,
      QuoteResult.handleTaxChange.
    rewrite Hnan. simpl. auto.
  - intros Hneg. unfold QuoteResult.handleQuantityChange.
    rewrite (lt_zero_not_ge _ Hneg), andb_false_r. reflexivity.
Qed.

(** ** Saved quotes *)

(** C9.  Updating a saved quote keeps the length and the order of the
    list: at every position, a stored quote with the id of the updated
    quote is replaced by the updated quote, and any other stored quote is
    left as it was. *)
Theorem handleUpdateQuote_frame (updatedQuote : QuoteData.t)
  (prev : list QuoteData.t) :
  List.length (App.handleUpdateQuote updatedQuote prev) = List.length prev /\
  forall i q,
    nth_error prev i = Some q ->
    (QuoteData.id q = QuoteData.id updatedQuote ->
       nth_error (App.handleUpdateQuote updatedQuote prev) i
       = Some updatedQuote) /\
    (QuoteData.id q <> QuoteData.id updatedQuote ->
       nth_error (App.handleUpdateQuote updatedQuote prev) i = Some q).
Proof.
  unfold App.handleUpdateQuote. split; [apply length_map|].
  intros i q Hq. rewrite nth_error_map, Hq. simpl.
  unfold string_eqb.
  destruct (list_eq_dec N.eq_dec (QuoteData.id q) (QuoteData.id updatedQuote));
    split; intros; congruence.
Qed.

(** ** Numbers up to the sign of zero *)

Lemma svz_refl (a : number) : a ~= a.
Proof. now left. Qed.

Lemma svz_zero (a b : number) : is_zero a = true -> is_zero b = true -> a ~= b.
Proof. intros; right; auto. Qed.

Lemma svz_cases (a b : number) :
  a ~= b -> a = b \/ exists s s', a = S754_zero s /\ b = S754_zero s'.
Proof.
  intros [H|[Ha Hb]]; [now left|right].
  destruct a; try discriminate. destruct b; try discriminate. eauto.
Qed.

Lemma svz_add (a a' b b' : number) : a ~= a' -> b ~= b' -> a + b ~= a' + b'.
Proof.
  intros Ha Hb.
  destruct (svz_cases _ _ Ha) as [->|(s1 & s2 & -> & ->)];
    destruct (svz_cases _ _ Hb) as [->|(s3 & s4 & -> & ->)].
  - apply svz_refl.
  - unfold add. destruct a' as [s|s| |s m e]; simpl;
      try (apply svz_refl);
      destruct s, s3, s4; simpl; (apply svz_refl || now apply svz_zero).
  - unfold add. destruct b' as [s|s| |s m e]; simpl;
      try (apply svz_refl);
      destruct s, s1, s2; simpl; (apply svz_refl || now apply svz_zero).
  - unfold add. destruct s1, s2, s3, s4; simpl;
      (apply svz_refl || now apply svz_zero).
Qed.

Lemma svz_mul (a a' b b' : number) : a ~= a' -> b ~= b' -> a * b ~= a' * b'.
Proof.
  intros Ha Hb.
  destruct (svz_cases _ _ Ha) as [->|(s1 & s2 & -> & ->)];
    destruct (svz_cases _ _ Hb) as [->|(s3 & s4 & -> & ->)].
  - apply svz_refl.
  - unfold mul. destruct a' as [s|s| |s m e]; simpl;
      (apply svz_refl || now apply svz_zero).
  - unfold mul. destruct b' as [s|s| |s m e]; simpl;
      (apply svz_refl || now apply svz_zero).
  - unfold mul. simpl. now apply svz_zero.
Qed.

Lemma svz_div_100 (a a' : number) : a ~= a' -> a / of_Z 100 ~= a' / of_Z 100.
Proof.
  intros Ha. destruct (svz_cases _ _ Ha) as [->|(s1 & s2 & -> & ->)].
  - apply svz_refl.
  - now apply svz_zero.
Qed.

Lemma number_or_zero_svz (n : number) : isNaN n = false -> number_or n zero ~= n.
Proof.
  intros H. unfold number_or. simpl. rewrite H, orb_false_r.
  destruct (is_zero n) eqn:Hz; simpl.
  - now apply svz_zero.
  - apply svz_refl.
Qed.

(** ** Conversions of Numbers *)

Lemma ToNumber_JNum (x : number) : ToNumber (JNum x) = Normal x.
Proof. reflexivity. Qed.

Lemma or_else_zero_number (x : number) :
  ToNumber (or_else (JNum x) (JNum zero)) = Normal (number_or x zero).
Proof.
  unfold or_else, number_or. now destruct (ToBoolean (JNum x)).
Qed.

Lemma or_else_falsy (v d : JsValue) : ToBoolean v = false -> or_else v d = d.
Proof. intros H. unfold or_else. now rewrite H. Qed.

(** ** [reduce] *)

Lemma reduce_steps (f : number -> Slot -> completion number)
  (g : QuoteStep.t -> number) (steps : list QuoteStep.t) :
  (forall s acc, In s steps -> f acc (Step s) = Normal (acc + g s)) ->
  forall acc,
    StepArray.reduce f (map Step steps) acc
    = Normal (fold_left (fun a s => a + g s) steps acc).
Proof.
  induction steps as [|s l IH]; intros Hf acc; simpl.
  - reflexivity.
  - rewrite Hf by now left. simpl. apply IH.
    intros s' acc' Hin. apply Hf. now right.
Qed.

Lemma reduce_replace (f : number -> Slot -> completion number)
  (before after : list Slot) (s s' : QuoteStep.t) :
  (forall acc, f acc (Step s) = f acc (Step s')) ->
  forall acc,
    StepArray.reduce f (before ++ Step s :: after) acc
    = StepArray.reduce f (before ++ Step s' :: after) acc.
Proof.
  intros Hf. induction before as [|x l IH]; intros acc; simpl.
  - now rewrite Hf.
  - destruct x; auto; destruct (f acc _); simpl; auto.
Qed.

Lemma fold_add_svz (g g' : QuoteStep.t -> number) (steps : list QuoteStep.t) :
  (forall s, In s steps -> g s ~= g' s) ->
  forall acc acc',
    acc ~= acc' ->
    fold_left (fun a s => a + g s) steps acc
    ~= fold_left add (map g' steps) acc'.
Proof.
  induction steps as [|s l IH]; intros Hg acc acc' Hacc; simpl.
  - exact Hacc.
  - apply IH.
    + intros s' Hin. apply Hg. now right.
    + apply svz_add; [exact Hacc | apply Hg; now left].
Qed.

(** ** The totals of numeric steps *)

Lemma number_of_or_zero_numeric (s : QuoteStep.t)
  (field : QuoteStep.t -> JsValue) :
  numeric (field s) ->
  QuoteResult.number_of_or_zero (Step s) field
  = Normal (number_or (num (field s)) zero)
  /\ number_or (num (field s)) zero ~= num (field s).
Proof.
  intros (x & Hx & Hnan). unfold QuoteResult.number_of_or_zero. simpl.
  rewrite Hx. simpl num. split.
  - apply or_else_zero_number.
  - now apply number_or_zero_svz.
Qed.

Lemma number_or_zero_numeric (v : JsValue) :
  numeric v ->
  QuoteResult.number_or_zero v = Normal (number_or (num v) zero)
  /\ number_or (num v) zero ~= num v.
Proof.
  intros (x & -> & Hnan). split; [reflexivity|].
  now apply number_or_zero_svz.
Qed.

Lemma lineTotal_numeric (s : QuoteStep.t) :
  numeric_step s ->
  exists a b,
    QuoteResult.lineTotal s = Normal a /\ a ~= spec_lineTotal s /\
    QuoteResult.lineTotalWithTax s = Normal b /\ b ~= spec_lineTotalWithTax s.
Proof.
  intros (Hp & Hq & Ht).
  destruct (number_or_zero_numeric _ Hp) as [Ep Sp].
  destruct (number_or_zero_numeric _ Hq) as [Eq Sq].
  destruct (number_or_zero_numeric _ Ht) as [Et St].
  unfold QuoteResult.lineTotalWithTax, QuoteResult.lineTotal.
  rewrite Ep, Eq, Et. simpl.
  eexists; eexists. repeat split.
  - now apply svz_mul.
  - unfold spec_lineTotalWithTax. apply svz_mul.
    + now apply svz_mul.
    + apply svz_add; [apply svz_refl | now apply svz_div_100].
Qed.

Lemma totals_numeric (steps : list QuoteStep.t) :
  Forall numeric_step steps ->
  exists t,
    QuoteResult.totals (map Step steps) = Normal t /\
    QuoteResult.subtotal t ~= sum (map spec_lineTotal steps) /\
    QuoteResult.totalTax t ~= sum (map spec_lineTax steps) /\
    QuoteResult.grandTotal t = QuoteResult.subtotal t + QuoteResult.totalTax t.
Proof.
  intros H. rewrite Forall_forall in H. unfold QuoteResult.totals.
  set (term := fun s =>
         number_or (num (QuoteStep.userPrice s)) zero
         * number_or (num (QuoteStep.quantity s)) zero).
  set (tax := fun s =>
         term s * (number_or (num (QuoteStep.taxRate s)) zero / of_Z 100)).
  rewrite (reduce_steps _ term).
  2:{ intros s acc Hin. destruct (H s Hin) as (Hp & Hq & _).
      destruct (number_of_or_zero_numeric s QuoteStep.userPrice Hp) as [-> _].
      destruct (number_of_or_zero_numeric s QuoteStep.quantity Hq) as [-> _].
      reflexivity. }
  simpl. rewrite (reduce_steps _ tax).
  2:{ intros s acc Hin. destruct (H s Hin) as (Hp & Hq & Ht).
      destruct (number_of_or_zero_numeric s QuoteStep.userPrice Hp) as [-> _].
      destruct (number_of_or_zero_numeric s QuoteStep.quantity Hq) as [-> _].
      destruct (number_of_or_zero_numeric s QuoteStep.taxRate Ht) as [-> _].
      reflexivity. }
  simpl. eexists. split; [reflexivity|]. simpl.
  assert (Hterm : forall s, In s steps -> term s ~= spec_lineTotal s).
  { intros s Hin. destruct (H s Hin) as (Hp & Hq & _).
    apply svz_mul.
    - apply (number_of_or_zero_numeric s QuoteStep.userPrice Hp).
    - apply (number_of_or_zero_numeric s QuoteStep.quantity Hq). }
  repeat split.
  - apply fold_add_svz; [exact Hterm | apply svz_refl].
  - apply fold_add_svz; [|apply svz_refl].
    intros s Hin. destruct (H s Hin) as (_ & _ & Ht).
    apply svz_mul; [now apply Hterm|].
    apply svz_div_100.
    apply (number_of_or_zero_numeric s QuoteStep.taxRate Ht).
Qed.

(** C1.  For steps whose price, quantity and tax rate are Numbers (not
    NaN), with equality of Numbers up to the sign of zero:
    [lineTotal = userPrice * quantity],
    [lineTotalWithTax = userPrice * quantity * (1 + taxRate / 100)],
    [subtotal] is the sum of the line totals, [totalTax] the sum of
    [lineTotal * (taxRate / 100)], and [grandTotal] is exactly
    [subtotal + totalTax].  The steps (50, 1, 0) and (30, 3, 10) give
    140, 9 and 149. *)
Theorem totals_formulas (steps : list QuoteStep.t) :
  Forall numeric_step steps ->
  (forall s, In s steps ->
     exists a b,
       QuoteResult.lineTotal s = Normal a /\ a ~= spec_lineTotal s /\
       QuoteResult.lineTotalWithTax s = Normal b /\
       b ~= spec_lineTotalWithTax s) /\
  (exists t,
     QuoteResult.totals (map Step steps) = Normal t /\
     QuoteResult.subtotal t ~= sum (map spec_lineTotal steps) /\
     QuoteResult.totalTax t ~= sum (map spec_lineTax steps) /\
     QuoteResult.grandTotal t
     = QuoteResult.subtotal t + QuoteResult.totalTax t) /\
  QuoteResult.totals [Step (step_of 50 1 0); Step (step_of 30 3 10)]
  = Normal {| QuoteResult.subtotal := of_Z 140;
              QuoteResult.totalTax := of_Z 9;
              QuoteResult.grandTotal := of_Z 149 |}.
Proof.
  intros H. split; [|split].
  - intros s Hin. rewrite Forall_forall in H. apply lineTotal_numeric; auto.
  - now apply totals_numeric.
  - vm_compute. reflexivity.
Qed.

(** The scenario of the specification: price 100, quantity 2 and tax rate
    23 give a line total of 200, and 246 with tax. *)
Example lineTotal_scenario :
  QuoteResult.lineTotal (step_of 100 2 23) = Normal (of_Z 200) /\
  QuoteResult.lineTotalWithTax (step_of 100 2 23) = Normal (of_Z 246).
Proof. split; vm_compute; reflexivity. Qed.

(** ** Fields that are missing or hold no Number *)

Lemma number_of_or_zero_falsy (v : JsValue) :
  ToBoolean v = false ->
  ToNumber (or_else v (JNum zero)) = ToNumber (or_else (JNum zero) (JNum zero)).
Proof. intros H. rewrite or_else_falsy by exact H. reflexivity. Qed.

Lemma totals_replace (before after : list Slot) (s s' : QuoteStep.t) :
  same_amounts s s' ->
  QuoteResult.totals (before ++ Step s :: after)
  = QuoteResult.totals (before ++ Step s' :: after).
Proof.
  intros (Hp & Hq & Ht). unfold QuoteResult.totals.
  rewrite (reduce_replace _ before after s s').
  2:{ intros acc. now rewrite Hp, Hq. }
  destruct (StepArray.reduce _ (before ++ Step s' :: after) zero); [|reflexivity].
  cbn [bind].
  rewrite (reduce_replace _ before after s s').
  2:{ intros acc. now rewrite Hp, Hq, Ht. }
  reflexivity.
Qed.

Lemma same_amounts_falsy (s : QuoteStep.t) (v : JsValue) :
  ToBoolean v = false ->
  same_amounts (QuoteStep.with_userPrice s v)
               (QuoteStep.with_userPrice s (JNum zero)) /\
  same_amounts (QuoteStep.with_quantity s v)
               (QuoteStep.with_quantity s (JNum zero)) /\
  same_amounts (QuoteStep.with_taxRate s v)
               (QuoteStep.with_taxRate s (JNum zero)).
Proof.
  intros H. unfold same_amounts, QuoteResult.number_of_or_zero.
  cbn [StepArray.prop bind QuoteStep.with_userPrice QuoteStep.with_quantity
       QuoteStep.with_taxRate QuoteStep.userPrice QuoteStep.quantity
       QuoteStep.taxRate].
  rewrite (number_of_or_zero_falsy _ H). tauto.
Qed.

Lemma with_quantity_same (s : QuoteStep.t) :
  QuoteStep.with_quantity s (QuoteStep.quantity s) = s.
Proof. now destruct s. Qed.




(** ** The history listing *)

(** [calculateTotal] of [App] computes what the history listing shows. *)
Lemma calculateTotal_as_listed (quote : QuoteData.t) :
  App.calculateTotal quote = QuoteHistory.totalPrice quote.
Proof. reflexivity. Qed.

Lemma number_or_NaN (n d : number) : isNaN n = true -> number_or n d = d.
Proof.
  intros H. unfold number_or. cbn [ToBoolean]. rewrite H.
  now rewrite orb_true_r.
Qed.

Lemma quantity_default (s : QuoteStep.t) (n : number) :
  ToNumber (QuoteStep.quantity s) = Normal n ->
  isNaN n = true \/ QuoteStep.quantity s = JNull ->
  number_or n (of_Z 1) = of_Z 1.
Proof.
  intros Hq [Hn | Hnull]; [now apply number_or_NaN|].
  rewrite Hnull in Hq. injection Hq as <-. reflexivity.
Qed.

Lemma totalPrice_quantity_one (q : QuoteData.t) (before after : list Slot)
  (s : QuoteStep.t) (n : number) :
  ToNumber (QuoteStep.quantity s) = Normal n ->
  isNaN n = true \/ QuoteStep.quantity s = JNull ->
  QuoteHistory.totalPrice (QuoteData.with_steps q (before ++ Step s :: after))
  = QuoteHistory.totalPrice
      (QuoteData.with_steps q
         (before ++ Step (QuoteStep.with_quantity s (JNum (of_Z 1))) :: after)).
Proof.
  intros Hq Hn. unfold QuoteHistory.totalPrice.
  cbn [QuoteData.with_steps QuoteData.steps].
  apply reduce_replace. intros acc.
  cbn [StepArray.prop bind QuoteStep.with_quantity QuoteStep.userPrice
       QuoteStep.quantity QuoteStep.taxRate].
  rewrite Hq, ToNumber_JNum. cbn [bind].
  rewrite (quantity_default _ _ Hq Hn). reflexivity.
Qed.

Lemma reduce_app (f : number -> Slot -> completion number)
  (l1 l2 : list Slot) (acc : number) :
  StepArray.reduce f (l1 ++ l2) acc
  = (acc' <- StepArray.reduce f l1 acc ;; StepArray.reduce f l2 acc').
Proof.
  revert acc. induction l1 as [|x l IH]; intros acc; simpl; [reflexivity|].
  destruct x; auto; destruct (f acc _); simpl; auto.
Qed.

Lemma ToNumber_is_value (v : JsValue) (x : number) :
  ToNumber v = Normal x -> ToNumber_value v = x.
Proof.
  unfold ToNumber. destruct (ToString_throws v); [discriminate|].
  now intros [= <-].
Qed.

Lemma totalPrice_listed (q : QuoteData.t) (steps : list QuoteStep.t) :
  Forall amounts_convertible steps ->
  QuoteHistory.totalPrice (QuoteData.with_steps q (map Step steps))
  = Normal (fold_left (fun acc x => acc + spec_listed_amount x) steps zero).
Proof.
  intros H. unfold QuoteHistory.totalPrice.
  cbn [QuoteData.with_steps QuoteData.steps].
  apply reduce_steps. intros x acc Hin.
  rewrite Forall_forall in H. destruct (H x Hin) as (Hp & Hq & Ht).
  cbn [StepArray.prop bind]. unfold ToNumber, spec_listed_amount.
  unfold convertible in *. now rewrite Hp, Hq, Ht.
Qed.

(** C6.  In the history listing a step whose quantity is missing, [null]
    or no Number ([Number(quantity)] is NaN) is counted with quantity 1.
    The listed total of a quote with such a step is the one of the same
    quote with that quantity set to 1.  The step adds
    [price * 1 * (1 + tax / 100)] to the total: it is the listed total of
    a quote of that step alone, and after any steps the step adds it to
    their total; in general the listed total is the sum, from the left, of
    the amounts of the steps, with price and tax rate counting as 0 and
    the quantity as 1 where they are missing or no number.  The totals of
    the quote on screen count such a quantity as 0 instead: a step with
    price 10 and no quantity is listed at 10, and at 60 after a step of
    50, and totals 0 on screen. *)
Theorem history_quantity_defaults_to_one (q : QuoteData.t)
  (before after : list Slot) (s : QuoteStep.t) (n : number) :
  ToNumber (QuoteStep.quantity s) = Normal n ->
  isNaN n = true \/ QuoteStep.quantity s = JNull ->
  QuoteHistory.totalPrice (QuoteData.with_steps q (before ++ Step s :: after))
  = QuoteHistory.totalPrice
      (QuoteData.with_steps q
         (before ++ Step (QuoteStep.with_quantity s (JNum (of_Z 1))) :: after))
  /\
  (forall p t,
     ToNumber (QuoteStep.userPrice s) = Normal p ->
     ToNumber (QuoteStep.taxRate s) = Normal t ->
     QuoteHistory.totalPrice (QuoteData.with_steps q [Step s])
     = Normal (zero + (number_or p zero * of_Z 1)
                      * (of_Z 1 + number_or t zero / of_Z 100)) /\
     (forall total,
        QuoteHistory.totalPrice (QuoteData.with_steps q before) = Normal total ->
        QuoteHistory.totalPrice (QuoteData.with_steps q (before ++ [Step s]))
        = Normal (total + (number_or p zero * of_Z 1)
                          * (of_Z 1 + number_or t zero / of_Z 100))) /\
     spec_listed_amount s
     = (number_or p zero * of_Z 1) * (of_Z 1 + number_or t zero / of_Z 100))
  /\
  (forall steps,
     Forall amounts_convertible steps ->
     QuoteHistory.totalPrice (QuoteData.with_steps q (map Step steps))
     = Normal (fold_left (fun acc x => acc + spec_listed_amount x) steps zero))
  /\
  (no_number (QuoteStep.quantity s) ->
     QuoteResult.totals (before ++ Step s :: after)
     = QuoteResult.totals
         (before ++ Step (QuoteStep.with_quantity s (JNum zero)) :: after))
  /\
  QuoteHistory.totalPrice (QuoteData.with_steps q [Step step_without_quantity])
  = Normal (of_Z 10)
  /\
  QuoteHistory.totalPrice
    (QuoteData.with_steps q [Step (step_of 50 1 0); Step step_without_quantity])
  = Normal (of_Z 60)
  /\
  QuoteHistory.totalPrice
    (QuoteData.with_steps q
       [Step (step_of 50 1 0); Step step_with_null_quantity])
  = Normal (of_Z 60)
  /\
  QuoteResult.totals [Step step_without_quantity]
  = Normal {| QuoteResult.subtotal := zero;
              QuoteResult.totalTax := zero;
              QuoteResult.grandTotal := zero |}.
Proof.
  intros Hq Hn.
  split; [now apply totalPrice_quantity_one with (n := n)|].
  split; [|split; [exact (totalPrice_listed q)|split; [|split; [|split; [|split]]]]].
  - intros p t Hp Ht.
    assert (forall acc,
              StepArray.reduce
                (fun acc step =>
                   userPrice <- StepArray.prop step QuoteStep.userPrice ;;
                   p <- ToNumber userPrice ;;
                   let price := number_or p zero in
                   taxRate <- StepArray.prop step QuoteStep.taxRate ;;
                   t <- ToNumber taxRate ;;
                   let tax := number_or t zero in
                   qty <- StepArray.prop step QuoteStep.quantity ;;
                   q <- ToNumber qty ;;
                   let quantity := number_or q (of_Z 1) in
                   Normal (acc + (price * quantity)
                                 * (of_Z 1 + tax / of_Z 100)))
                [Step s] acc
              = Normal (acc + (number_or p zero * of_Z 1)
                              * (of_Z 1 + number_or t zero / of_Z 100)))
      as Hstep.
    { intros acc. cbn [StepArray.reduce StepArray.prop bind].
      rewrite Hp, Ht, Hq. cbn [bind].
      now rewrite (quantity_default _ _ Hq Hn). }
    split; [exact (Hstep zero)|]. split.
    + intros total Hbefore. unfold QuoteHistory.totalPrice in *.
      cbn [QuoteData.with_steps QuoteData.steps] in *.
      rewrite reduce_app, Hbefore. cbn [bind]. apply Hstep.
    + unfold spec_listed_amount.
      rewrite (ToNumber_is_value _ _ Hp), (ToNumber_is_value _ _ Ht),
        (ToNumber_is_value _ _ Hq).
      now rewrite (quantity_default _ _ Hq Hn).
  - intros Hmissing.
    rewrite <- (with_quantity_same s) at 1.
    apply totals_replace. apply (same_amounts_falsy s).
    destruct Hmissing as [-> | [-> | ->]]; reflexivity.
  - vm_compute. reflexivity.
  - vm_compute. reflexivity.
  - vm_compute. reflexivity.
  - vm_compute. reflexivity.
Qed.

(** ** The credential check *)

Lemma try_source_stored (g : option JsValue) (name : string) :
  GeminiService.try_source g name
  = match stored_key g name with
    | Some k => if ToBoolean k then Some k else None
    | None => None
    end.
Proof.
  unfold GeminiService.try_source, stored_key.
  destruct g as [v|]; [|reflexivity].
  destruct v as [| |b|x|str|xs|props]; try reflexivity.
  cbn [GeminiService.defined GeminiService.env_var get bind].
  destruct (lookup (u16 "env") props) as [e|]; [|reflexivity].
  destruct e as [| |b|x|str|xs|vars]; try reflexivity.
  cbn [get_opt is_nullish get].
  now destruct (lookup (u16 name) vars).
Qed.

Lemma try_source_truthy (g : option JsValue) (name : string) (k : JsValue) :
  GeminiService.try_source g name = Some k ->
  ToBoolean k = true /\ stored_key g name = Some k.
Proof.
  rewrite try_source_stored.
  destruct (stored_key g name) as [k'|]; [|discriminate].
  destruct (ToBoolean k') eqn:Hk; [|discriminate].
  intros [= <-]. auto.
Qed.

Lemma try_source_none (g : option JsValue) (name : string) (k : JsValue) :
  GeminiService.try_source g name = None ->
  stored_key g name = Some k -> ToBoolean k = false.
Proof.
  rewrite try_source_stored. intros H Hk. rewrite Hk in H.
  now destruct (ToBoolean k).
Qed.

(** C8.  Without a credential the module fails when it is initialised,
    with the error that names the missing key; with a credential it is
    initialised, and the client holds a truthy key taken from one of the
    two variables. *)
Theorem startup_credential_check (env : GeminiService.Environment) :
  (~ credential_available env ->
     GeminiService.module_init env
     = Throw (PlainError GeminiService.missing_key_message)) /\
  (credential_available env ->
     exists k,
       GeminiService.module_init env = Normal k /\
       ToBoolean k = true /\
       (stored_key (GeminiService.process env) "API_KEY" = Some k \/
        stored_key (GeminiService.import_meta env) "VITE_API_KEY" = Some k)).
Proof.
  unfold GeminiService.module_init, GeminiService.getApiKey.
  destruct (GeminiService.try_source (GeminiService.process env) "API_KEY")
    as [k1|] eqn:H1.
  - destruct (try_source_truthy _ _ _ H1) as [T1 S1]. split.
    + intros Hno. exfalso. apply Hno. exists k1. auto.
    + intros _. exists k1. rewrite T1. auto.
  - destruct (GeminiService.try_source (GeminiService.import_meta env)
                "VITE_API_KEY") as [k2|] eqn:H2.
    + destruct (try_source_truthy _ _ _ H2) as [T2 S2]. split.
      * intros Hno. exfalso. apply Hno. exists k2. auto.
      * intros _. exists k2. rewrite T2. auto.
    + split; [reflexivity|].
      intros (k & Hk & [Hs|Hs]); exfalso.
      * rewrite (try_source_none _ _ _ H1 Hs) in Hk. discriminate.
      * rewrite (try_source_none _ _ _ H2 Hs) in Hk. discriminate.
Qed.

(** ** Normalising the steps of a response *)

Lemma get_present (v : JsValue) (k : string) :
  is_nullish v = false -> get v k = Normal (property v k).
Proof. unfold property. destruct v; simpl; congruence. Qed.

Lemma get_returns_present (v x : JsValue) (k : string) :
  get v k = Normal x -> is_nullish v = false.
Proof. destruct v; simpl; congruence. Qed.

Lemma get_opt_property (v : JsValue) (k : string) :
  get_opt v k = Normal (property v k).
Proof.
  unfold get_opt. destruct (is_nullish v) eqn:H.
  - unfold property. destruct v; simpl in *; congruence.
  - now apply get_present.
Qed.

Lemma unitPrice_resolved (step : JsValue) :
  nullish_or
    (nullish_or (property (property step "suggestedPrice") "unitPrice")
                (property step "suggestedPrice"))
    (JNum zero)
  = resolved_unit_price step.
Proof.
  unfold resolved_unit_price, nullish_or, present.
  destruct (is_nullish (property (property step "suggestedPrice") "unitPrice"))
    eqn:Hn; simpl.
  - now destruct (is_nullish (property step "suggestedPrice")).
  - now rewrite Hn.
Qed.

Lemma quantity_resolved (step : JsValue) :
  nullish_or (property step "suggestedQuantity") (JNum (of_Z 1))
  = resolved_quantity step.
Proof.
  unfold resolved_quantity, nullish_or, present.
  now destruct (is_nullish (property step "suggestedQuantity")).
Qed.

Lemma ToNumber_convertible (v : JsValue) :
  convertible v -> ToNumber v = Normal (ToNumber_value v).
Proof. intros H. unfold ToNumber. now rewrite H. Qed.

Lemma stepWithUserPrice_usable (step : JsValue) :
  usable_step step ->
  GeminiService.stepWithUserPrice step = Normal (normalised step).
Proof.
  intros (Hstep & Hprice & Hqty). unfold GeminiService.stepWithUserPrice.
  rewrite !(get_present step) by exact Hstep. cbn [bind].
  rewrite !get_opt_property. cbn [bind].
  rewrite unitPrice_resolved, quantity_resolved.
  rewrite (ToNumber_convertible _ Hprice), (ToNumber_convertible _ Hqty).
  reflexivity.
Qed.

Lemma mapM_all_normal {A B : Type} (f : A -> completion B) (g : A -> B)
  (xs : list A) :
  Forall (fun x => f x = Normal (g x)) xs -> mapM f xs = Normal (map g xs).
Proof.
  induction 1 as [|x l Hx _ IH]; simpl.
  - reflexivity.
  - now rewrite Hx, IH.
Qed.

Lemma quoteOfJson_steps (currency : Currency) (city parsedJson title : JsValue)
  (elements : list JsValue) :
  get parsedJson "title" = Normal title ->
  ToBoolean title = true ->
  get parsedJson "steps" = Normal (JArr elements) ->
  Forall usable_step elements ->
  exists quote,
    GeminiService.quoteOfJson currency city parsedJson = Normal quote /\
    QuoteFragment.steps quote = map normalised elements.
Proof.
  intros Htitle Htruthy Hsteps Husable.
  pose proof (get_returns_present _ _ _ Htitle) as Hobj.
  unfold GeminiService.quoteOfJson.
  rewrite Htitle. cbn [bind]. rewrite Htruthy, Hsteps.
  cbn [bind isArray array_map].
  rewrite (mapM_all_normal _ normalised).
  2:{ eapply Forall_impl; [|exact Husable].
      intros step. apply stepWithUserPrice_usable. }
  cbn [bind]. rewrite !(get_present parsedJson) by exact Hobj. cbn [bind].
  eexists. split; reflexivity.
Qed.

(** C2, as the code has it.  For a response that parses to a value with a
    truthy [title] and an array [steps] none of whose elements is [null]
    (or has a price or quantity that cannot be converted to a Number),
    [generateQuote] returns a quote with as many steps as the response;
    each has the resolved unit price as [suggestedPrice] and as
    [userPrice], the suggested quantity or 1 as [quantity], and tax rate
    0. *)
Theorem generateQuote_steps (currency : Currency) (city : JsValue)
  (response_text : JsString) (parsedJson title : JsValue)
  (elements : list JsValue) :
  JSON_parse (GeminiService.jsonText response_text) = Normal parsedJson ->
  get parsedJson "title" = Normal title ->
  ToBoolean title = true ->
  get parsedJson "steps" = Normal (JArr elements) ->
  Forall usable_step elements ->
  exists quote,
    GeminiService.generateQuote currency city response_text = Normal quote /\
    List.length (QuoteFragment.steps quote) = List.length elements /\
    forall i step,
      nth_error elements i = Some step ->
      exists out,
        nth_error (QuoteFragment.steps quote) i = Some out /\
        QuoteStep.suggestedPrice out
        = JNum (ToNumber_value (resolved_unit_price step)) /\
        QuoteStep.userPrice out = QuoteStep.suggestedPrice out /\
        QuoteStep.quantity out
        = JNum (ToNumber_value (resolved_quantity step)) /\
        QuoteStep.taxRate out = JNum zero.
Proof.
  intros Hparse Htitle Htruthy Hsteps Husable.
  destruct (quoteOfJson_steps currency city _ _ _ Htitle Htruthy Hsteps Husable)
    as (quote & Hquote & Hmap).
  exists quote. unfold GeminiService.generateQuote.
  rewrite Hparse. cbn [bind]. rewrite Hquote.
  split; [reflexivity|]. rewrite Hmap. split; [apply length_map|].
  intros i step Hi. exists (normalised step).
  rewrite nth_error_map, Hi. repeat split.
Qed.

(** C2, as the specification has it, fails: a response with a title and
    an array of steps one of which is [null] is rejected. *)
Lemma generateQuote_null_step_rejected :
  exists parsedJson,
    JSON_parse (GeminiService.jsonText response_null_step) = Normal parsedJson /\
    (exists title,
       get parsedJson "title" = Normal title /\ ToBoolean title = true) /\
    get parsedJson "steps" = Normal (JArr [JNull]) /\
    GeminiService.generateQuote EUR JNull response_null_step
    = Throw (PlainError GeminiService.invalid_json_message).
Proof.
  eexists. split; [vm_compute; reflexivity|].
  split.
  { eexists. split; [vm_compute; reflexivity | reflexivity]. }
  split; vm_compute; reflexivity.
Qed.

(** ** Errors of [generateQuote] *)

Lemma generateQuote_one_error (currency : Currency) (city : JsValue)
  (response_text : JsString) (e : JsError) :
  GeminiService.generateQuote currency city response_text = Throw e ->
  e = PlainError GeminiService.invalid_json_message.
Proof.
  unfold GeminiService.generateQuote.
  destruct (bind _ _); [discriminate|]. now intros [= <-].
Qed.

(** C3, on the code.  The check of the shape throws the error of an
    unexpected shape, but inside the [try] block: the handler replaces it,
    and a response that is valid JSON without [steps] or without [title]
    fails with the very error of a response that is not JSON. *)
Theorem shape_error_replaced :
  (exists parsedJson,
     JSON_parse (GeminiService.jsonText response_without_steps)
     = Normal parsedJson /\
     GeminiService.quoteOfJson EUR JNull parsedJson
     = Throw (PlainError GeminiService.unexpected_shape_message)) /\
  GeminiService.generateQuote EUR JNull response_without_steps
  = Throw (PlainError GeminiService.invalid_json_message) /\
  GeminiService.generateQuote EUR JNull response_without_title
  = Throw (PlainError GeminiService.invalid_json_message) /\
  JSON_parse (GeminiService.jsonText response_malformed) = Throw SyntaxError /\
  GeminiService.generateQuote EUR JNull response_malformed
  = Throw (PlainError GeminiService.invalid_json_message) /\
  GeminiService.unexpected_shape_message
  <> GeminiService.invalid_json_message.
Proof.
  split.
  { eexists. split; [vm_compute; reflexivity|]. vm_compute. reflexivity. }
  repeat split; try (vm_compute; reflexivity).
  discriminate.
Qed.

(** ** White space and [trim] *)

Lemma trimStart_ws (l s : JsString) :
  forallb is_ws l = true -> trimStart (l ++ s) = trimStart s.
Proof.
  induction l as [|c l IH]; simpl; [reflexivity|].
  intros H. apply andb_prop in H. destruct H as [Hc Hl].
  rewrite Hc. now apply IH.
Qed.

Lemma trimStart_solid (c : N) (s : JsString) :
  is_ws c = false -> trimStart (c :: s) = c :: s.
Proof. intros H. simpl. now rewrite H. Qed.

Lemma forallb_rev (f : N -> bool) (l : JsString) :
  forallb f l = true -> forallb f (rev l) = true.
Proof.
  rewrite !forallb_forall. intros H x Hx. apply H. now apply in_rev.
Qed.

Lemma ends_solid_app (a b : JsString) :
  ends_solid b = true -> ends_solid (a ++ b) = true.
Proof.
  intros H. induction a as [|c a IH]; simpl; [exact H|].
  destruct (a ++ b) eqn:E; [|exact IH].
  destruct a; simpl in E; [subst b|]; discriminate.
Qed.

Lemma ends_solid_last (c : N) (a : JsString) :
  is_ws c = false -> c <> 96%N -> ends_solid (a ++ [c]) = true.
Proof.
  intros Hws Hc. apply ends_solid_app. simpl. rewrite Hws.
  apply N.eqb_neq in Hc. now rewrite Hc.
Qed.

Lemma ends_solid_inv (s : JsString) :
  ends_solid s = true ->
  exists a c, s = a ++ [c] /\ is_ws c = false /\ c <> 96%N.
Proof.
  induction s as [|c s IH]; simpl; [discriminate|].
  destruct s as [|d s].
  - intros H. apply andb_prop in H. destruct H as [Hws Hc].
    exists [], c. repeat split.
    + now destruct (is_ws c).
    + apply N.eqb_neq. now destruct (c =? 96)%N.
  - intros H. destruct (IH H) as (a & z & E & Hz). exists (c :: a), z.
    rewrite E. auto.
Qed.

Lemma trim_between (l s t a : JsString) (c z : N) (s' : JsString) :
  forallb is_ws l = true ->
  forallb is_ws t = true ->
  s = c :: s' ->
  is_ws c = false ->
  s = a ++ [z] ->
  is_ws z = false ->
  trim (l ++ s ++ t) = s.
Proof.
  intros Hl Ht Hs Hc Ha Hz. unfold trim, trimEnd.
  rewrite trimStart_ws by exact Hl.
  rewrite Hs at 1. cbn [app]. rewrite trimStart_solid by exact Hc.
  change (c :: (s' ++ t)) with ((c :: s') ++ t).
  rewrite <- Hs, rev_app_distr.
  rewrite trimStart_ws by now apply forallb_rev.
  rewrite Ha, rev_app_distr. cbn [rev app].
  rewrite trimStart_solid by exact Hz.
  change (z :: rev a) with (rev [z] ++ rev a).
  now rewrite <- rev_app_distr, rev_involutive.
Qed.

Lemma trim_self (s a : JsString) (c z : N) (s' : JsString) :
  s = c :: s' -> is_ws c = false -> s = a ++ [z] -> is_ws z = false ->
  trim s = s.
Proof.
  intros Hs Hc Ha Hz.
  pose proof (trim_between [] s [] a c z s' eq_refl eq_refl Hs Hc Ha Hz) as H.
  cbn [app] in H. now rewrite app_nil_r in H.
Qed.

Lemma trim_core (l core t : JsString) (c : N) (core' : JsString) :
  forallb is_ws l = true ->
  forallb is_ws t = true ->
  core = c :: core' ->
  is_ws c = false ->
  ends_solid core = true ->
  trim (l ++ core ++ t) = core.
Proof.
  intros Hl Ht Hcore Hc Hend.
  destruct (ends_solid_inv _ Hend) as (a & z & E & Hz & _).
  now apply trim_between with (a := a) (c := c) (z := z) (s' := core').
Qed.

(** ** The fence pattern *)

#[local] Arguments N.eqb _ _ : simpl never.
#[local] Arguments N.leb _ _ : simpl never.
#[local] Arguments N.ltb _ _ : simpl never.

Lemma strip_prefix_app (p s : JsString) : strip_prefix p (p ++ s) = Some s.
Proof.
  induction p as [|c p IH]; simpl; [reflexivity|].
  now rewrite N.eqb_refl.
Qed.

Lemma strip_prefix_ws_fence (c : N) (s : JsString) :
  is_ws c = true -> strip_prefix GeminiService.fence (c :: s) = None.
Proof.
  intros H. simpl. destruct (96 =? c)%N eqn:E; [|reflexivity].
  apply N.eqb_eq in E. subst c. discriminate H.
Qed.

Lemma contains_tail (p : JsString) (c : N) (s : JsString) :
  contains p (c :: s) = false ->
  strip_prefix p (c :: s) = None /\ contains p s = false.
Proof.
  simpl. destruct (strip_prefix p (c :: s)); [discriminate|]. auto.
Qed.

Lemma strip_prefix_more (p a b r : JsString) :
  strip_prefix p a = Some r -> strip_prefix p (a ++ b) = Some (r ++ b).
Proof.
  revert a. induction p as [|c p IH]; intros a; simpl.
  - now intros [= <-].
  - destruct a as [|d a]; [discriminate|]. simpl.
    destruct (c =? d)%N; [apply IH | discriminate].
Qed.

Lemma contains_app_l (p a b : JsString) :
  contains p (a ++ b) = false -> contains p a = false.
Proof.
  induction a as [|c a IH].
  - intros H. destruct p; [|reflexivity].
    destruct b; discriminate H.
  - intros H. change ((c :: a) ++ b) with (c :: (a ++ b)) in H.
    destruct (contains_tail _ _ _ H) as [Hs Hc]. simpl.
    destruct (strip_prefix p (c :: a)) as [r|] eqn:E.
    + apply strip_prefix_more with (b := b) in E.
      change ((c :: a) ++ b) with (c :: (a ++ b)) in E. congruence.
    + now apply IH.
Qed.

Lemma contains_app_r (p a b : JsString) :
  contains p (a ++ b) = false -> contains p b = false.
Proof.
  induction a as [|c a IH]; simpl app; [auto|].
  intros H. apply IH. now destruct (contains_tail _ _ _ H).
Qed.

Lemma fence_match_none (s : JsString) :
  contains GeminiService.fence s = false -> GeminiService.fence_match s = None.
Proof.
  induction s as [|c s IH]; [reflexivity|].
  intros H. destruct (contains_tail _ _ _ H) as [Hs Hc].
  cbn [GeminiService.fence_match]. unfold GeminiService.match_at.
  rewrite Hs. now apply IH.
Qed.

Lemma closing_fence_eq (s : JsString) :
  GeminiService.closing_fence s
  = match strip_prefix GeminiService.fence s with
    | Some _ => true
    | None =>
        match s with
        | c :: t => if is_ws c then GeminiService.closing_fence t else false
        | [] => false
        end
    end.
Proof. now destruct s. Qed.

Lemma lazy_capture_eq (s : JsString) :
  GeminiService.lazy_capture s
  = if GeminiService.closing_fence s then Some []
    else
      match s with
      | c :: t =>
          match GeminiService.lazy_capture t with
          | Some g => Some (c :: g)
          | None => None
          end
      | [] => None
      end.
Proof. now destruct s. Qed.

Lemma closing_fence_ws (w rest : JsString) :
  forallb is_ws w = true ->
  GeminiService.closing_fence (w ++ GeminiService.fence ++ rest) = true.
Proof.
  induction w as [|c w IH]; intros H.
  - cbn [app]. rewrite closing_fence_eq. now rewrite strip_prefix_app.
  - simpl in H. apply andb_prop in H. destruct H as [Hc Hw].
    cbn [app]. rewrite closing_fence_eq.
    rewrite (strip_prefix_ws_fence _ _ Hc), Hc. now apply IH.
Qed.

Lemma closing_fence_solid (b rest : JsString) :
  ends_solid b = true ->
  contains GeminiService.fence b = false ->
  GeminiService.closing_fence (b ++ rest) = false.
Proof.
  induction b as [|c1 b1 IH]; [discriminate|].
  intros Hend Hno. destruct (contains_tail _ _ _ Hno) as [Hs Hc].
  assert (Hnone : strip_prefix GeminiService.fence ((c1 :: b1) ++ rest) = None).
  { destruct b1 as [|c2 [|c3 b3]].
    - simpl in Hend. simpl.
      destruct (96 =? c1)%N eqn:E1; [|reflexivity].
      apply N.eqb_eq in E1. subst c1.
      rewrite andb_false_r in Hend. discriminate.
    - simpl in Hend. simpl.
      destruct (96 =? c1)%N; [|reflexivity].
      destruct (96 =? c2)%N eqn:E2; [|reflexivity].
      apply N.eqb_eq in E2. subst c2.
      rewrite andb_false_r in Hend. discriminate.
    - simpl in Hs. simpl.
      destruct (96 =? c1)%N; [|reflexivity].
      destruct (96 =? c2)%N; [|reflexivity].
      destruct (96 =? c3)%N; [discriminate|reflexivity]. }
  rewrite closing_fence_eq, Hnone. cbn [app].
  destruct (is_ws c1) eqn:Hws; [|reflexivity].
  destruct b1 as [|c2 b2].
  - simpl in Hend. rewrite Hws in Hend. discriminate.
  - apply IH; [exact Hend | exact Hc].
Qed.

Lemma lazy_capture_body (b w rest : JsString) :
  b = [] \/ ends_solid b = true ->
  contains GeminiService.fence b = false ->
  forallb is_ws w = true ->
  GeminiService.lazy_capture (b ++ w ++ GeminiService.fence ++ rest) = Some b.
Proof.
  intros Hend Hno Hw. induction b as [|c b IH].
  - cbn [app]. rewrite lazy_capture_eq.
    now rewrite (closing_fence_ws w rest Hw).
  - destruct Hend as [Hend|Hend]; [discriminate|].
    destruct (contains_tail _ _ _ Hno) as [_ Hc].
    rewrite lazy_capture_eq.
    rewrite (closing_fence_solid (c :: b) _ Hend Hno). cbn [app].
    rewrite IH; [reflexivity| |exact Hc].
    destruct b as [|d b]; [now left | right; exact Hend].
Qed.

Lemma after_tag_body (w1 core w2 rest : JsString) (c : N)
  (core' : JsString) :
  forallb is_ws w1 = true ->
  forallb is_ws w2 = true ->
  core = c :: core' ->
  is_ws c = false ->
  ends_solid core = true ->
  contains GeminiService.fence core = false ->
  GeminiService.after_tag (w1 ++ core ++ w2 ++ GeminiService.fence ++ rest)
  = Some core.
Proof.
  intros Hw1 Hw2 Hcore Hc Hend Hno.
  pose proof (lazy_capture_body core w2 rest (or_intror Hend) Hno Hw2) as Hlazy.
  induction w1 as [|d w1 IH].
  - subst core. cbn [app] in *.
    cbn [GeminiService.after_tag]. rewrite Hc. exact Hlazy.
  - simpl in Hw1. apply andb_prop in Hw1. destruct Hw1 as [Hd Hw1].
    cbn [app GeminiService.after_tag]. rewrite Hd.
    now rewrite (IH Hw1).
Qed.

Lemma fence_match_eq (s : JsString) :
  GeminiService.fence_match s
  = match GeminiService.match_at s with
    | Some g => Some g
    | None =>
        match s with
        | _ :: t => GeminiService.fence_match t
        | [] => None
        end
    end.
Proof. now destruct s. Qed.

Lemma strip_prefix_json_other (d : N) (s : JsString) :
  d <> 106%N -> strip_prefix (u16 "json") (d :: s) = None.
Proof.
  intros H. change (u16 "json") with [106; 115; 111; 110]%N.
  cbn [strip_prefix]. apply N.eqb_neq in H. rewrite N.eqb_sym in H.
  now rewrite H.
Qed.

Lemma is_ws_not_j (d : N) : is_ws d = true -> d <> 106%N.
Proof. intros H ->. discriminate H. Qed.

Lemma trim_fenced (tagged : bool) (w1 payload w2 : JsString) :
  trim (fenced tagged w1 payload w2) = fenced tagged w1 payload w2.
Proof.
  unfold fenced.
  set (inner := (if tagged then u16 "json" else []) ++ w1 ++ payload ++ w2).
  replace ((if tagged then u16 "json" else []) ++ w1 ++ payload ++ w2
           ++ GeminiService.fence)
    with (inner ++ GeminiService.fence)
    by (unfold inner; now rewrite <- !app_assoc).
  change GeminiService.fence with [96; 96; 96]%N.
  apply (trim_self _
           ([96; 96; 96]%N ++ inner ++ [96; 96]%N) 96%N 96%N
           ([96; 96]%N ++ inner ++ [96; 96; 96]%N)); try reflexivity.
  rewrite <- !app_assoc. reflexivity.
Qed.

Lemma jsonText_fenced (tagged : bool) (w1 w2 l core t : JsString) (c : N)
  (core' : JsString) :
  forallb is_ws w1 = true ->
  forallb is_ws w2 = true ->
  forallb is_ws l = true ->
  forallb is_ws t = true ->
  core = c :: core' ->
  is_ws c = false ->
  c <> 106%N ->
  ends_solid core = true ->
  contains GeminiService.fence core = false ->
  GeminiService.jsonText (fenced tagged w1 (l ++ core ++ t) w2) = core.
Proof.
  intros Hw1 Hw2 Hl Ht Hcore Hc Hj Hend Hno.
  unfold GeminiService.jsonText. rewrite trim_fenced.
  assert (Htag :
    GeminiService.after_tag
      ((w1 ++ l) ++ core ++ (t ++ w2) ++ GeminiService.fence ++ [])
    = Some core).
  { apply after_tag_body with (c := c) (core' := core'); auto.
    - rewrite forallb_app, Hw1, Hl. reflexivity.
    - rewrite forallb_app, Ht, Hw2. reflexivity. }
  rewrite app_nil_r in Htag.
  assert (Hopen :
    GeminiService.after_opening
      ((if tagged then u16 "json" else []) ++ w1 ++ (l ++ core ++ t) ++ w2
       ++ GeminiService.fence)
    = Some core).
  { replace (w1 ++ (l ++ core ++ t) ++ w2 ++ GeminiService.fence)
      with ((w1 ++ l) ++ core ++ (t ++ w2) ++ GeminiService.fence)
      by now rewrite <- !app_assoc.
    unfold GeminiService.after_opening. destruct tagged.
    - now rewrite strip_prefix_app, Htag.
    - cbn [app]. rewrite Htag.
      destruct (w1 ++ l) as [|d wl] eqn:Ewl.
      + cbn [app]. rewrite Hcore. cbn [app].
        now rewrite strip_prefix_json_other.
      + cbn [app]. rewrite strip_prefix_json_other; [reflexivity|].
        apply is_ws_not_j.
        assert (Hwl : forallb is_ws (w1 ++ l) = true)
          by (rewrite forallb_app, Hw1, Hl; reflexivity).
        rewrite Ewl in Hwl. simpl in Hwl.
        now apply andb_prop in Hwl. }
  rewrite fence_match_eq. unfold GeminiService.match_at, fenced.
  rewrite strip_prefix_app, Hopen.
  rewrite Hcore. reflexivity.
Qed.

Lemma jsonText_bare (l core t : JsString) (c : N) (core' : JsString) :
  forallb is_ws l = true ->
  forallb is_ws t = true ->
  core = c :: core' ->
  is_ws c = false ->
  ends_solid core = true ->
  contains GeminiService.fence core = false ->
  GeminiService.jsonText (l ++ core ++ t) = core.
Proof.
  intros Hl Ht Hcore Hc Hend Hno. unfold GeminiService.jsonText.
  rewrite (trim_core l core t c core') by assumption.
  now rewrite fence_match_none.
Qed.

(** ** What [JSON.parse] reads *)

Lemma strip_prefix_spec (p s r : JsString) :
  strip_prefix p s = Some r -> s = p ++ r.
Proof.
  revert s. induction p as [|c p IH]; intros s; simpl.
  - now intros [= <-].
  - destruct s as [|d s]; [discriminate|].
    destruct (c =? d)%N eqn:E; [|discriminate].
    apply N.eqb_eq in E. subst d. intros H. now rewrite (IH _ H).
Qed.

Lemma json_ws_is_ws (c : N) : is_json_ws c = true -> is_ws c = true.
Proof.
  unfold is_json_ws. intros H.
  repeat (apply orb_prop in H; destruct H as [H|H]);
    apply N.eqb_eq in H; subst c; reflexivity.
Qed.

Lemma forallb_json_ws (w : JsString) :
  forallb is_json_ws w = true -> forallb is_ws w = true.
Proof.
  rewrite !forallb_forall. intros H x Hx. apply json_ws_is_ws. now apply H.
Qed.

Lemma skip_json_ws_split (s : JsString) :
  exists w, s = w ++ skip_json_ws s /\ forallb is_json_ws w = true.
Proof.
  induction s as [|c s (w & E & Hw)]; simpl.
  - now exists [].
  - destruct (is_json_ws c) eqn:Hc.
    + exists (c :: w). simpl. rewrite Hc, Hw. split; [congruence|reflexivity].
    + now exists [].
Qed.

Lemma skip_json_ws_nil (s : JsString) :
  skip_json_ws s = [] -> forallb is_json_ws s = true.
Proof.
  intros H. destruct (skip_json_ws_split s) as (w & E & Hw).
  rewrite H, app_nil_r in E. now subst w.
Qed.

Lemma solid_ends (s : JsString) :
  s <> [] -> forallb solid s = true -> ends_solid s = true.
Proof.
  induction s as [|c s IH]; [congruence|].
  intros _ H. simpl in H. apply andb_prop in H. destruct H as [Hc Hs].
  destruct s as [|d s]; [exact Hc|].
  apply IH; [discriminate | exact Hs].
Qed.

Lemma digit_solid (base c : N) (d : Z) :
  digit_of base c = Some d -> solid c = true.
Proof.
  unfold digit_of, solid, is_ws. intros H.
  destruct ((48 <=? c) && (c <=? 57))%N eqn:E1;
    [|destruct ((97 <=? c) && (c <=? 102))%N eqn:E2;
      [|destruct ((65 <=? c) && (c <=? 70))%N eqn:E3; [|discriminate]]].
  all: apply andb_prop in E1 || apply andb_prop in E2 || apply andb_prop in E3.
  all: match goal with
       | E : _ /\ _ |- _ =>
           destruct E as [Elo Ehi];
           apply N.leb_le in Elo; apply N.leb_le in Ehi
       end.
  all: repeat match goal with
         | |- context [(?a <=? ?b)%N] =>
             destruct (N.leb_spec a b); try lia
         | |- context [(?a =? ?b)%N] =>
             destruct (N.eqb_spec a b); try lia
         end.
  all: reflexivity.
Qed.

Lemma read_digits_spec (base : N) (s : JsString) :
  forall acc n m n' r,
    read_digits base s acc n = (m, n', r) ->
    exists ds,
      s = ds ++ r /\ forallb solid ds = true /\
      n' = (n + Z.of_nat (List.length ds))%Z.
Proof.
  induction s as [|c s IH]; intros acc n m n' r H; simpl in H.
  - injection H as <- <- <-. exists []. simpl. repeat split. lia.
  - destruct (digit_of base c) as [d|] eqn:Hd.
    + destruct (IH _ _ _ _ _ H) as (ds & E & Hs & Hn).
      exists (c :: ds). simpl. rewrite (digit_solid _ _ _ Hd), Hs.
      repeat split; [congruence | lia].
    + injection H as <- <- <-. exists []. simpl. repeat split. lia.
Qed.

Lemma read_sign_spec (s : JsString) (neg : bool) (r : JsString) :
  read_sign s = (neg, r) ->
  exists ds, s = ds ++ r /\ forallb solid ds = true.
Proof.
  unfold read_sign. intros H.
  destruct s as [|c s]; [injection H as <- <-; now exists []|].
  destruct (N.eqb_spec c 43) as [->|H43];
    [injection H as <- <-; now exists [43%N]|].
  destruct (N.eqb_spec c 45) as [->|H45];
    [injection H as <- <-; now exists [45%N]|].
  exists []. split; [|reflexivity].
  destruct c as [|p]; [now injection H as <- <-|].
  repeat (destruct p as [p|p|]; try (now injection H as <- <-));
    congruence.
Qed.

Lemma read_exponent_spec (s : JsString) (x : Z) (r : JsString) :
  read_exponent s = Some (x, r) ->
  exists ds, s = ds ++ r /\ forallb solid ds = true.
Proof.
  unfold read_exponent. intros H.
  destruct s as [|c s]; [injection H as <- <-; now exists []|].
  destruct ((c =? 101) || (c =? 69))%N eqn:Hc;
    [|injection H as <- <-; now exists []].
  destruct (read_sign s) as [neg t'] eqn:Hsign.
  destruct (read_digits 10 t' 0 0) as [[v n] r'] eqn:Hdigits.
  destruct (n =? 0)%Z; [discriminate|]. injection H as <- <-.
  destruct (read_sign_spec _ _ _ Hsign) as (sg & E1 & S1).
  destruct (read_digits_spec _ _ _ _ _ _ _ Hdigits) as (ds & E2 & S2 & _).
  exists (c :: sg ++ ds). split.
  - simpl. now rewrite <- app_assoc, <- E2, <- E1.
  - simpl. rewrite forallb_app, S1, S2.
    apply orb_prop in Hc.
    destruct Hc as [Hc|Hc]; apply N.eqb_eq in Hc; subst c; reflexivity.
Qed.

Lemma read_decimal_spec (frac_needed : bool) (s : JsString) (m e : Z)
  (r : JsString) :
  read_decimal frac_needed s = Some (m, e, r) ->
  exists ds, s = ds ++ r /\ forallb solid ds = true /\ ds <> [].
Proof.
  unfold read_decimal. intros H.
  destruct (read_digits 10 s 0 0) as [[ip n_ip] r1] eqn:Hip.
  destruct (read_digits_spec _ _ _ _ _ _ _ Hip) as (d1 & E1 & S1 & N1).
  match type of H with
  | match ?after with _ => _ end = _ => destruct after as [[[m' n_fp] r2]|] eqn:Hafter
  end; [|discriminate].
  destruct (read_exponent r2) as [[x r3]|] eqn:Hexp; [|discriminate].
  injection H as <- <- <-.
  destruct (read_exponent_spec _ _ _ Hexp) as (d3 & E3 & S3).
  assert (Hmid : exists d2, r1 = d2 ++ r2 /\ forallb solid d2 = true
                            /\ (d1 ++ d2 <> [])).
  { destruct r1 as [|c r1'].
    - destruct (n_ip =? 0)%Z eqn:Hn; [discriminate|].
      injection Hafter as <- <- <-. exists []. repeat split.
      rewrite app_nil_r. intros ->. simpl in N1. subst n_ip. discriminate.
    - destruct (N.eqb_spec c 46) as [->|Hdot].
      + destruct (read_digits 10 r1' ip 0) as [[m2 n2] r2'] eqn:Hfp.
        destruct (read_digits_spec _ _ _ _ _ _ _ Hfp) as (d2 & E2 & S2 & _).
        destruct ((n2 =? 0)%Z && (frac_needed || (n_ip =? 0)%Z));
          [discriminate|].
        injection Hafter as <- <- <-.
        exists (46%N :: d2). simpl. rewrite S2. repeat split.
        * congruence.
        * now destruct d1.
      + assert (Hother :
          (if (n_ip =? 0)%Z then None else Some (ip, 0%Z, c :: r1'))
          = Some (m', n_fp, r2)).
        { destruct c as [|p]; [exact Hafter|].
          repeat (destruct p as [p|p|]; try exact Hafter); congruence. }
        destruct (n_ip =? 0)%Z eqn:Hn; [discriminate|].
        injection Hother as <- <- <-. exists []. repeat split.
        rewrite app_nil_r. intros ->. simpl in N1. subst n_ip. discriminate. }
  destruct Hmid as (d2 & E2 & S2 & Hne).
  exists (d1 ++ d2 ++ d3). repeat split.
  - rewrite <- !app_assoc. congruence.
  - now rewrite !forallb_app, S1, S2, S3.
  - intros Hnil. apply Hne.
    destruct d1; [|discriminate]. destruct d2; [reflexivity|discriminate].
Qed.

Lemma json_start_solid (c : N) :
  json_start c = true -> is_ws c = false /\ c <> 106%N.
Proof.
  unfold json_start. intros H.
  rewrite !orb_true_iff, andb_true_iff, !N.eqb_eq, !N.leb_le in H.
  split; [|lia].
  apply not_true_is_false. unfold is_ws. intros E.
  rewrite !orb_true_iff, !andb_true_iff, !N.eqb_eq, !N.leb_le in E.
  lia.
Qed.

Lemma json_number_spec (s : JsString) (x : number) (r : JsString) :
  json_number s = Some (x, r) ->
  exists c ds,
    s = (c :: ds) ++ r /\ ends_solid (c :: ds) = true /\ json_start c = true.
Proof.
  unfold json_number. intros H.
  assert (Hsign : exists sg body,
            s = sg ++ body /\ (sg = [] \/ sg = [45%N]) /\
            (let '(neg, body') :=
               match s with
               | 45%N :: t => (true, t)
               | _ => (false, s)
               end in body' = body)).
  { destruct s as [|c s']; [exists [], []; auto|].
    destruct (N.eqb_spec c 45) as [->|H45]; [exists [45%N], s'; auto|].
    exists [], (c :: s'). repeat split; auto.
    destruct c as [|p]; [reflexivity|].
    repeat (destruct p as [p|p|]; try reflexivity); congruence. }
  destruct Hsign as (sg & body & Es & Ss & Hb).
  destruct (match s with 45%N :: t => (true, t) | _ => (false, s) end)
    as [neg body'].
  subst body'.
  match type of H with
  | (if ?c && _ then _ else _) = _ => destruct c eqn:Hstart; [|discriminate]
  end.
  match type of H with
  | (if ?c then _ else _) = _ => destruct c; [|discriminate]
  end.
  destruct (read_decimal true body) as [[[m e] rest]|] eqn:Hd; [|discriminate].
  injection H as <- <-.
  destruct (read_decimal_spec _ _ _ _ _ Hd) as (ds & E & S & Hne).
  destruct body as [|c body0]; [discriminate|].
  destruct ds as [|c0 ds0]; [congruence|].
  injection E as Ec E0. subst c0.
  assert (Hc0 : json_start c = true).
  { unfold json_start. rewrite Hstart. now rewrite !orb_true_r. }
  destruct Ss as [->| ->].
  - exists c, ds0. cbn [app] in *. repeat split; [congruence| |exact Hc0].
    apply solid_ends; [discriminate | exact S].
  - exists 45%N, (c :: ds0). repeat split.
    + cbn [app] in *. congruence.
    + apply (ends_solid_app [45%N]). apply solid_ends; [discriminate|exact S].
Qed.

Lemma cons_to_inv (c : N) (x : option (JsString * JsString))
  (str r : JsString) :
  match x with
  | Some (str', rest) => Some (c :: str', rest)
  | None => None
  end = Some (str, r) ->
  exists str', x = Some (str', r).
Proof.
  destruct x as [[str' rest]|]; [|discriminate].
  intros [= _ <-]. now exists str'.
Qed.

Lemma json_string_body_spec (n : nat) :
  forall s str r,
    List.length s <= n ->
    json_string_body s = Some (str, r) ->
    exists b, s = b ++ 34%N :: r.
Proof.
  induction n as [|n IH]; intros s str r Hlen H.
  - destruct s; [discriminate | simpl in Hlen; lia].
  - destruct s as [|c t]; [discriminate|].
    cbn [json_string_body] in H. simpl in Hlen.
    destruct (N.eqb_spec c 34) as [->|Hq].
    { injection H as <- <-. now exists []. }
    destruct (c =? 92)%N.
    + destruct t as [|e t']; [discriminate|]. simpl in Hlen.
      assert (Hplain : forall x,
                match json_string_body t' with
                | Some (str', rest) => Some (x :: str', rest)
                | None => None
                end = Some (str, r) ->
                exists b, c :: e :: t' = b ++ 34%N :: r).
      { intros x Hx. destruct (cons_to_inv _ _ _ _ Hx) as (str' & Ht').
        destruct (IH t' str' r ltac:(lia) Ht') as (b & ->).
        now exists (c :: e :: b). }
      repeat match type of H with
             | (if ?cond then _ else _) = _ =>
                 destruct cond; [now apply (Hplain _ H)|]
             end.
      destruct (e =? 117)%N; [|discriminate].
      destruct t' as [|h1 [|h2 [|h3 [|h4 t'']]]]; try discriminate.
      destruct (hex4 h1 h2 h3 h4) as [u|]; [|discriminate].
      destruct (cons_to_inv _ _ _ _ H) as (str' & Ht'').
      simpl in Hlen.
      destruct (IH t'' str' r ltac:(lia) Ht'') as (b & ->).
      now exists (c :: e :: h1 :: h2 :: h3 :: h4 :: b).
    + destruct (c <? 32)%N; [discriminate|].
      destruct (cons_to_inv _ _ _ _ H) as (str' & Ht).
      destruct (IH t str' r ltac:(lia) Ht) as (b & ->).
      now exists (c :: b).
Qed.

Lemma ends_solid_cons (c : N) (s : JsString) :
  ends_solid s = true -> ends_solid (c :: s) = true.
Proof. apply (ends_solid_app [c]). Qed.

Lemma closer_solid (w : JsString) (c : N) :
  c = 125%N \/ c = 93%N \/ c = 34%N -> ends_solid (w ++ [c]) = true.
Proof.
  intros H. apply ends_solid_last;
    destruct H as [->|[->| ->]]; (reflexivity || discriminate).
Qed.

Create HintDb solid_ends.
#[local] Hint Resolve ends_solid_app ends_solid_cons closer_solid
  : solid_ends.

Lemma skip_to (s : JsString) (c : N) (r : JsString) :
  skip_json_ws s = c :: r -> exists w, s = w ++ c :: r.
Proof.
  intros H. destruct (skip_json_ws_split s) as (w & E & _).
  exists w. congruence.
Qed.

Lemma value_read_step (n : nat) :
  elements_read n -> members_read n -> value_read (S n).
Proof.
  intros IHe IHm s v rest H. cbn [json_value] in H.
  destruct (skip_json_ws s) as [|c t] eqn:Es; [discriminate|].
  destruct (N.eqb_spec c 123) as [->|H123].
  { exists 123%N. destruct (skip_json_ws t) as [|c' r] eqn:Et; [discriminate|].
    destruct (N.eqb_spec c' 125) as [->|H125].
    - injection H as _ <-. destruct (skip_to _ _ _ Et) as (w & ->).
      exists (w ++ [125%N]). repeat split.
      + cbn [app]. now rewrite <- app_assoc.
      + auto with solid_ends.
    - destruct (IHm _ _ _ _ H) as (body & -> & Hend).
      exists body. repeat split. now apply ends_solid_cons. }
  destruct (N.eqb_spec c 91) as [->|H91].
  { exists 91%N. destruct (skip_json_ws t) as [|c' r] eqn:Et; [discriminate|].
    destruct (N.eqb_spec c' 93) as [->|H93].
    - injection H as _ <-. destruct (skip_to _ _ _ Et) as (w & ->).
      exists (w ++ [93%N]). repeat split.
      + cbn [app]. now rewrite <- app_assoc.
      + auto with solid_ends.
    - destruct (IHe _ _ _ _ H) as (body & -> & Hend).
      exists body. repeat split. now apply ends_solid_cons. }
  destruct (N.eqb_spec c 34) as [->|H34].
  { exists 34%N.
    destruct (json_string_body t) as [[str r]|] eqn:Hstr; [|discriminate].
    injection H as _ <-.
    destruct (json_string_body_spec _ _ _ _ (le_n _) Hstr) as (b & ->).
    exists (b ++ [34%N]). repeat split.
    - cbn [app]. now rewrite <- app_assoc.
    - auto with solid_ends. }
  destruct (strip_prefix (u16 "true") (c :: t)) as [r|] eqn:Htrue.
  { injection H as _ <-. apply strip_prefix_spec in Htrue.
    rewrite Htrue. exists 116%N, [114; 117; 101]%N. now repeat split. }
  destruct (strip_prefix (u16 "false") (c :: t)) as [r|] eqn:Hfalse.
  { injection H as _ <-. apply strip_prefix_spec in Hfalse.
    rewrite Hfalse. exists 102%N, [97; 108; 115; 101]%N. now repeat split. }
  destruct (strip_prefix (u16 "null") (c :: t)) as [r|] eqn:Hnull.
  { injection H as _ <-. apply strip_prefix_spec in Hnull.
    rewrite Hnull. exists 110%N, [117; 108; 108]%N. now repeat split. }
  destruct (json_number (c :: t)) as [[x r]|] eqn:Hnum; [|discriminate].
  injection H as _ <-.
  destruct (json_number_spec _ _ _ Hnum) as (c0 & ds & E & Hend & Hstart).
  exists c0, ds. now rewrite E.
Qed.

Lemma elements_read_step (n : nat) :
  value_read n -> elements_read n -> elements_read (S n).
Proof.
  intros IHv IHe s acc v rest H. cbn [json_elements] in H.
  destruct (json_value n s) as [v1 r1| |] eqn:Hv; try discriminate.
  destruct (IHv _ _ _ Hv) as (c & body & Es & _ & Hend).
  destruct (skip_json_ws_split s) as (w & E & _). rewrite Es in E.
  destruct (skip_json_ws r1) as [|d r'] eqn:Er; [discriminate|].
  destruct (skip_to _ _ _ Er) as (w1 & ->).
  destruct (N.eqb_spec d 44) as [->|H44].
  - destruct (IHe _ _ _ _ H) as (body2 & -> & Hend2).
    exists (w ++ (c :: body) ++ w1 ++ 44%N :: body2). split.
    + rewrite E. repeat (rewrite <- ?app_assoc; cbn [app]). reflexivity.
    + auto 6 with solid_ends.
  - destruct (N.eqb_spec d 93) as [->|H93]; [|discriminate].
    injection H as _ <-.
    exists (w ++ (c :: body) ++ w1 ++ [93%N]). split.
    + rewrite E. repeat (rewrite <- ?app_assoc; cbn [app]). reflexivity.
    + auto 6 with solid_ends.
Qed.

Lemma members_read_step (n : nat) :
  value_read n -> members_read n -> members_read (S n).
Proof.
  intros IHv IHm s acc v rest H. cbn [json_members] in H.
  destruct (skip_json_ws s) as [|q t] eqn:Es; [discriminate|].
  destruct (skip_to _ _ _ Es) as (w & ->).
  destruct (N.eqb_spec q 34) as [->|H34]; [|discriminate].
  destruct (json_string_body t) as [[k r]|] eqn:Hk; [|discriminate].
  destruct (json_string_body_spec _ _ _ _ (le_n _) Hk) as (b & ->).
  destruct (skip_json_ws r) as [|c r'] eqn:Er; [discriminate|].
  destruct (skip_to _ _ _ Er) as (w1 & ->).
  destruct (N.eqb_spec c 58) as [->|H58]; [|discriminate].
  destruct (json_value n r') as [v1 r1| |] eqn:Hv; try discriminate.
  destruct (IHv _ _ _ Hv) as (c & body & Ev & _ & Hend).
  destruct (skip_json_ws_split r') as (w2 & E2 & _). rewrite Ev in E2.
  destruct (skip_json_ws r1) as [|d r3] eqn:Er1; [discriminate|].
  destruct (skip_to _ _ _ Er1) as (w3 & ->).
  destruct (N.eqb_spec d 44) as [->|H44].
  - destruct (IHm _ _ _ _ H) as (body2 & -> & Hend2).
    exists (w ++ 34%N :: b ++ 34%N :: w1 ++ 58%N :: w2 ++ (c :: body)
            ++ w3 ++ 44%N :: body2). split.
    + rewrite E2. repeat (rewrite <- ?app_assoc; cbn [app]). reflexivity.
    + auto 12 with solid_ends.
  - destruct (N.eqb_spec d 125) as [->|H125]; [|discriminate].
    injection H as _ <-.
    exists (w ++ 34%N :: b ++ 34%N :: w1 ++ 58%N :: w2 ++ (c :: body)
            ++ w3 ++ [125%N]). split.
    + rewrite E2. repeat (rewrite <- ?app_assoc; cbn [app]). reflexivity.
    + auto 12 with solid_ends.
Qed.

Lemma json_read (n : nat) : value_read n /\ elements_read n /\ members_read n.
Proof.
  induction n as [|n (IHv & IHe & IHm)].
  - repeat split; intros s; intros; discriminate.
  - split; [|split].
    + now apply value_read_step.
    + now apply elements_read_step.
    + now apply members_read_step.
Qed.

(** A text that [JSON.parse] accepts is a value between two runs of white
    space; the value starts with a code unit that is not white space and
    not [j], and ends with one that is neither white space nor a
    backtick. *)
Lemma JSON_parse_shape (text : JsString) (v : JsValue) :
  JSON_parse text = Normal v ->
  exists l c core t,
    text = l ++ (c :: core) ++ t /\
    forallb is_ws l = true /\ forallb is_ws t = true /\
    is_ws c = false /\ c <> 106%N /\ ends_solid (c :: core) = true.
Proof.
  unfold JSON_parse. intros H.
  destruct (json_value _ text) as [v' rest| |] eqn:Hv; try discriminate.
  destruct (skip_json_ws rest) eqn:Hrest; [|discriminate].
  destruct (proj1 (json_read _) _ _ _ Hv) as (c & core & E & Hstart & Hend).
  destruct (skip_json_ws_split text) as (l & El & Hl). rewrite E in El.
  destruct (json_start_solid _ Hstart) as [Hws Hj].
  exists l, c, core, rest. repeat split; auto.
  - now apply forallb_json_ws.
  - now apply forallb_json_ws, skip_json_ws_nil.
Qed.

(** ** Fenced responses *)

Lemma jsonText_payload (tagged : bool) (w1 payload w2 : JsString)
  (v : JsValue) :
  JSON_parse payload = Normal v ->
  contains GeminiService.fence payload = false ->
  forallb is_ws w1 = true ->
  forallb is_ws w2 = true ->
  GeminiService.jsonText (fenced tagged w1 payload w2) = trim payload /\
  GeminiService.jsonText payload = trim payload.
Proof.
  intros Hparse Hno Hw1 Hw2.
  destruct (JSON_parse_shape _ _ Hparse)
    as (l & c & core & t & -> & Hl & Ht & Hc & Hj & Hend).
  assert (Hcore : contains GeminiService.fence (c :: core) = false).
  { apply contains_app_r in Hno. now apply contains_app_l in Hno. }
  rewrite (trim_core l (c :: core) t c core) by auto.
  split.
  - now apply jsonText_fenced with (c := c) (core' := core).
  - now apply jsonText_bare with (c := c) (core' := core).
Qed.

(** C4, as the code has it.  For a payload that is JSON text and in which
    three backticks do not occur in a row, the response made of the
    payload in a fenced block (with or without the tag [json], with any
    white space between the fences and the payload) gives the same result
    as the payload alone: in both cases the text handed to [JSON.parse] is
    the trimmed payload. *)
Theorem fenced_payload_same_result (currency : Currency) (city : JsValue)
  (tagged : bool) (w1 payload w2 : JsString) (v : JsValue) :
  JSON_parse payload = Normal v ->
  contains GeminiService.fence payload = false ->
  forallb is_ws w1 = true ->
  forallb is_ws w2 = true ->
  GeminiService.jsonText (fenced tagged w1 payload w2) = trim payload /\
  GeminiService.generateQuote currency city (fenced tagged w1 payload w2)
  = GeminiService.generateQuote currency city payload.
Proof.
  intros Hparse Hno Hw1 Hw2.
  destruct (jsonText_payload tagged w1 payload w2 v Hparse Hno Hw1 Hw2)
    as [Hfenced Hbare].
  split; [exact Hfenced|].
  unfold GeminiService.generateQuote. now rewrite Hfenced, Hbare.
Qed.

(** C4, as the specification has it, fails: when the payload has three
    backticks inside a string, the fenced response is cut at them and
    rejected, while the payload alone is accepted. *)
Lemma fenced_backticks_differ :
  fenced_payload_with_backticks
  = fenced true [10%N] payload_with_backticks [10%N] /\
  (exists v, JSON_parse payload_with_backticks = Normal v) /\
  GeminiService.jsonText fenced_payload_with_backticks = text "{'title':'a" /\
  GeminiService.generateQuote EUR JNull fenced_payload_with_backticks
  = Throw (PlainError GeminiService.invalid_json_message) /\
  exists quote,
    GeminiService.generateQuote EUR JNull payload_with_backticks
    = Normal quote.
Proof.
  split; [reflexivity|].
  split; [eexists; vm_compute; reflexivity|].
  split; [vm_compute; reflexivity|].
  split; [vm_compute; reflexivity|].
  eexists. vm_compute. reflexivity.
Qed.

(** ** The fuel of [JSON.parse] *)

Lemma skip_json_ws_length (s : JsString) :
  List.length (skip_json_ws s) <= List.length s.
Proof.
  destruct (skip_json_ws_split s) as (w & E & _).
  rewrite E at 2. rewrite length_app. lia.
Qed.

Lemma value_read_length (n : nat) (s : JsString) (v : JsValue)
  (rest : JsString) :
  json_value n s = Parsed v rest -> List.length rest < List.length s.
Proof.
  intros H. destruct (proj1 (json_read n) _ _ _ H) as (c & body & E & _).
  pose proof (skip_json_ws_length s) as Hlen.
  rewrite E, length_app in Hlen. simpl in Hlen. lia.
Qed.

Lemma enough_fuel_step (n : nat) : enough_fuel n -> enough_fuel (S n).
Proof.
  intros (IHv & IHe & IHm). split; [|split].
  - intros s Hfuel. cbn [json_value].
    pose proof (skip_json_ws_length s) as Hskip.
    destruct (skip_json_ws s) as [|c t]; [discriminate|]. simpl in Hskip.
    destruct (c =? 123)%N.
    { destruct (skip_json_ws t) as [|c' r]; [discriminate|].
      destruct (c' =? 125)%N; [discriminate|]. apply IHm. lia. }
    destruct (c =? 91)%N.
    { destruct (skip_json_ws t) as [|c' r]; [discriminate|].
      destruct (c' =? 93)%N; [discriminate|]. apply IHe. lia. }
    destruct (c =? 34)%N.
    { destruct (json_string_body t) as [[str r]|]; discriminate. }
    destruct (strip_prefix (u16 "true") (c :: t)); [discriminate|].
    destruct (strip_prefix (u16 "false") (c :: t)); [discriminate|].
    destruct (strip_prefix (u16 "null") (c :: t)); [discriminate|].
    destruct (json_number (c :: t)) as [[x r]|]; discriminate.
  - intros s acc Hfuel. cbn [json_elements].
    destruct (json_value n s) as [v r| |] eqn:Hv; [|discriminate|].
    + pose proof (value_read_length _ _ _ _ Hv) as Hr.
      pose proof (skip_json_ws_length r) as Hskip.
      destruct (skip_json_ws r) as [|c r']; [discriminate|]. simpl in Hskip.
      destruct (c =? 44)%N; [apply IHe; lia|].
      destruct (c =? 93)%N; discriminate.
    + exfalso. apply (IHv s); [lia | exact Hv].
  - intros s acc Hfuel. cbn [json_members].
    pose proof (skip_json_ws_length s) as Hskip.
    destruct (skip_json_ws s) as [|q t]; [discriminate|]. simpl in Hskip.
    destruct (q =? 34)%N; [|discriminate].
    destruct (json_string_body t) as [[k r]|] eqn:Hk; [|discriminate].
    destruct (json_string_body_spec _ _ _ _ (le_n _) Hk) as (b & Eb).
    assert (Hr : List.length r < List.length t)
      by (rewrite Eb, length_app; simpl; lia).
    pose proof (skip_json_ws_length r) as Hskip1.
    destruct (skip_json_ws r) as [|c r']; [discriminate|]. simpl in Hskip1.
    destruct (c =? 58)%N; [|discriminate].
    destruct (json_value n r') as [v r1| |] eqn:Hv; [|discriminate|].
    + pose proof (value_read_length _ _ _ _ Hv) as Hr1.
      pose proof (skip_json_ws_length r1) as Hskip2.
      destruct (skip_json_ws r1) as [|d r3]; [discriminate|]. simpl in Hskip2.
      destruct (d =? 44)%N; [apply IHm; lia|].
      destruct (d =? 125)%N; discriminate.
    + exfalso. apply (IHv r'); [lia | exact Hv].
Qed.

Lemma enough_fuel_all (n : nat) : enough_fuel n.
Proof.
  induction n as [|n IH].
  - repeat split; intros; lia.
  - now apply enough_fuel_step.
Qed.

(** [JSON_parse] never stops for lack of fuel: a text it rejects is one
    the grammar rejects. *)
Lemma JSON_parse_fuel (text : JsString) :
  json_value (2 * List.length text + 1) text <> OutOfFuel.
Proof. apply (proj1 (enough_fuel_all _)). lia. Qed.

(* ================================================================== *)
(** * The properties at concrete quotes and responses *)
(* ================================================================== *)

Lemma example_steps_numeric : Forall numeric_step example_steps.
Proof.
  repeat constructor; eexists; split; reflexivity.
Qed.

Lemma totals_formulas_witness :
  Forall numeric_step example_steps /\
  exists t,
    QuoteResult.totals (map Step example_steps) = Normal t /\
    QuoteResult.grandTotal t = QuoteResult.subtotal t + QuoteResult.totalTax t.
Proof.
  split; [exact example_steps_numeric|].
  destruct (totals_formulas example_steps example_steps_numeric)
    as (_ & (t & Ht & _ & _ & Hg) & _).
  exists t. split; [exact Ht | exact Hg].
Defined.

Lemma example_quantities_nonnegative :
  quantities_nonnegative (QuoteData.steps example_quote).
Proof.
  repeat constructor; eexists; split; reflexivity.
Qed.

Lemma quantity_invariant_preserved_witness :
  quantities_nonnegative (QuoteData.steps example_quote) /\
  quantities_nonnegative
    (QuoteData.steps
       (QuoteResult.handleQuantityChange
          (QuoteResult.handlePriceChange example_quote 0 (u16 "12.5"))
          1 (u16 "4"))).
Proof.
  split; [exact example_quantities_nonnegative|].
  apply (quantity_invariant_preserved example_quote).
  - exact example_quantities_nonnegative.
  - apply edits_more
      with (q' := QuoteResult.handlePriceChange example_quote 0 (u16 "12.5")).
    + apply edits_more with (q' := example_quote); [apply edits_none|].
      exact (edit_price example_quote 0 (step_of 50 1 0) (u16 "12.5") eq_refl).
    + apply edit_quantity.
Defined.

Lemma rejected_edit_unchanged_witness :
  isNaN (StringToNumber (u16 "abc")) = true /\
  QuoteResult.handlePriceChange example_quote 0 (u16 "abc") = example_quote /\
  lt (StringToNumber (u16 "-3")) zero = true /\
  QuoteResult.handleQuantityChange example_quote 0 (u16 "-3") = example_quote.
Proof.
  split; [reflexivity|]. split.
  - apply (proj1 (rejected_edit_unchanged example_quote 0 (u16 "abc"))).
    reflexivity.
  - split; [reflexivity|].
    apply (proj2 (rejected_edit_unchanged example_quote 0 (u16 "-3"))).
    reflexivity.
Defined.

Lemma handleUpdateQuote_frame_witness :
  App.handleUpdateQuote example_quote_updated [other_quote; example_quote]
  = [other_quote; example_quote_updated].
Proof.
  destruct (handleUpdateQuote_frame example_quote_updated
              [other_quote; example_quote]) as [_ H].
  destruct (H 0 other_quote eq_refl) as [_ H0].
  destruct (H 1 example_quote eq_refl) as [H1 _].
  reflexivity.
Defined.


Lemma history_quantity_defaults_to_one_witness :
  ToNumber (QuoteStep.quantity step_without_quantity) = Normal nan /\
  isNaN nan = true /\
  QuoteHistory.totalPrice
    (QuoteData.with_steps example_quote [Step step_without_quantity])
  = QuoteHistory.totalPrice
      (QuoteData.with_steps example_quote
         [Step (QuoteStep.with_quantity step_without_quantity
                  (JNum (of_Z 1)))]).
Proof.
  split; [reflexivity|]. split; [reflexivity|].
  apply (history_quantity_defaults_to_one example_quote [] []
           step_without_quantity nan eq_refl (or_introl eq_refl)).
Defined.

Lemma env_with_key_available : credential_available env_with_key.
Proof.
  exists (JStr (u16 "k-123")). split; [reflexivity|]. right. reflexivity.
Qed.

Lemma env_without_key_unavailable : ~ credential_available env_without_key.
Proof.
  intros (k & _ & [H|H]); discriminate H.
Qed.

Lemma startup_credential_check_witness :
  GeminiService.module_init env_without_key
  = Throw (PlainError GeminiService.missing_key_message) /\
  exists k, GeminiService.module_init env_with_key = Normal k.
Proof.
  split.
  - apply (proj1 (startup_credential_check env_without_key)).
    exact env_without_key_unavailable.
  - destruct (proj2 (startup_credential_check env_with_key)
                env_with_key_available) as (k & Hk & _).
    exists k. exact Hk.
Defined.

Lemma generateQuote_steps_witness :
  exists quote,
    GeminiService.generateQuote EUR JNull response_two_steps = Normal quote /\
    List.length (QuoteFragment.steps quote) = 2.
Proof.
  destruct (generateQuote_steps EUR JNull response_two_steps
              (JObj [(u16 "title", JStr (u16 "T"));
                     (u16 "steps",
                      JArr [JObj [(u16 "suggestedPrice",
                                   JObj [(u16 "unitPrice",
                                          JNum (StringToNumber (u16 "12.5")));
                                         (u16 "unit", JStr (u16 "m"))])];
                            JObj [(u16 "suggestedPrice", JNum (of_Z 7));
                                  (u16 "suggestedQuantity", JNum (of_Z 3))]])])
              (JStr (u16 "T")) _
              ltac:(vm_compute; reflexivity) eq_refl eq_refl eq_refl)
    as (quote & Hq & Hlen & _).
  - repeat constructor.
  - exists quote. split; [exact Hq | exact Hlen].
Defined.

Lemma fenced_payload_same_result_witness :
  GeminiService.jsonText (fenced true [32%N] payload_example [32%N])
  = payload_example /\
  GeminiService.generateQuote EUR JNull
    (fenced true [32%N] payload_example [32%N])
  = GeminiService.generateQuote EUR JNull payload_example.
Proof.
  exact (fenced_payload_same_result EUR JNull true [32%N] payload_example
           [32%N]
           (JObj [(u16 "title", JStr (u16 "T")); (u16 "steps", JArr [])])
           ltac:(vm_compute; reflexivity) eq_refl eq_refl eq_refl).
Defined.

(* ================================================================== *)
(** * Properties of the remaining code *)
(* ================================================================== *)

(** ** The list of saved quotes *)

Lemma string_eqb_eq (a b : JsString) : string_eqb a b = true <-> a = b.
Proof.
  unfold string_eqb. destruct (list_eq_dec N.eq_dec a b); split; congruence.
Qed.

Lemma string_eqb_refl (a : JsString) : string_eqb a a = true.
Proof. now apply string_eqb_eq. Qed.

Lemma string_eqb_neq (a b : JsString) : a <> b -> string_eqb a b = false.
Proof.
  intros H. destruct (string_eqb a b) eqn:E; [|reflexivity].
  now apply string_eqb_eq in E.
Qed.

Lemma handleDeleteQuote_absent (id : JsString) (prev : list QuoteData.t) :
  ~ In id (ids prev) -> App.handleDeleteQuote true id prev = prev.
Proof.
  unfold App.handleDeleteQuote. induction prev as [|q prev IH]; simpl; intros H.
  - reflexivity.
  - rewrite string_eqb_neq by (intros E; apply H; now left). simpl.
    f_equal. apply IH. intros Hin. apply H. now right.
Qed.

Lemma handleDeleteQuote_app (id : JsString) (l1 l2 : list QuoteData.t) :
  App.handleDeleteQuote true id (l1 ++ l2)
  = App.handleDeleteQuote true id l1 ++ App.handleDeleteQuote true id l2.
Proof. unfold App.handleDeleteQuote. apply filter_app. Qed.

Lemma ids_app (l1 l2 : list QuoteData.t) : ids (l1 ++ l2) = ids l1 ++ ids l2.
Proof. apply map_app. Qed.

(** X1.  Saving a quote under an identifier that no stored quote has and
    then deleting that identifier gives back the list as it was. *)
Theorem save_then_delete (newId now : JsString) (finalQuote : QuoteData.t)
  (prev : list QuoteData.t) :
  ~ In newId (ids prev) ->
  App.handleDeleteQuote true newId
    (App.handleSaveQuote newId now finalQuote prev) = prev.
Proof.
  intros H. unfold App.handleSaveQuote.
  rewrite handleDeleteQuote_app, (handleDeleteQuote_absent _ _ H).
  unfold App.handleDeleteQuote. simpl. rewrite string_eqb_refl. simpl.
  apply app_nil_r.
Qed.

(** X2.  When the identifiers of the stored quotes are distinct, a
    confirmed deletion removes the quote of that identifier and nothing
    else, the others keeping their order; a deletion that is not
    confirmed changes nothing. *)
Theorem delete_removes_one (q : QuoteData.t) (before after : list QuoteData.t) :
  NoDup (ids (before ++ q :: after)) ->
  App.handleDeleteQuote true (QuoteData.id q) (before ++ q :: after)
  = before ++ after /\
  App.handleDeleteQuote false (QuoteData.id q) (before ++ q :: after)
  = before ++ q :: after.
Proof.
  intros H. split; [|reflexivity].
  rewrite ids_app in H. simpl in H.
  pose proof (NoDup_remove_2 _ _ _ H) as Hnot.
  rewrite handleDeleteQuote_app.
  rewrite handleDeleteQuote_absent
    by (intros Hin; apply Hnot, in_or_app; now left).
  f_equal. change (q :: after) with ([q] ++ after).
  rewrite handleDeleteQuote_app.
  rewrite (handleDeleteQuote_absent _ after)
    by (intros Hin; apply Hnot, in_or_app; now right).
  unfold App.handleDeleteQuote. simpl. now rewrite string_eqb_refl.
Qed.

Lemma quoteToView_absent (id : JsString) (quotes : list QuoteData.t) :
  ~ In id (ids quotes) -> App.quoteToView quotes id = None.
Proof.
  unfold App.quoteToView. induction quotes as [|q quotes IH]; simpl; intros H.
  - reflexivity.
  - rewrite string_eqb_neq by (intros E; apply H; now left).
    apply IH. intros Hin. apply H. now right.
Qed.

Lemma quoteToView_app (id : JsString) (l1 l2 : list QuoteData.t) :
  ~ In id (ids l1) ->
  App.quoteToView (l1 ++ l2) id = App.quoteToView l2 id.
Proof.
  unfold App.quoteToView. induction l1 as [|q l1 IH]; simpl; intros H.
  - reflexivity.
  - rewrite string_eqb_neq by (intros E; apply H; now left).
    apply IH. intros Hin. apply H. now right.
Qed.

Lemma quoteToView_In (id : JsString) (quotes : list QuoteData.t)
  (q : QuoteData.t) :
  App.quoteToView quotes id = Some q -> In q quotes /\ QuoteData.id q = id.
Proof.
  unfold App.quoteToView. intros H. apply find_some in H.
  destruct H as [Hin E]. split; [exact Hin | now apply string_eqb_eq].
Qed.

(** ** The pages of the application *)

Lemma is_page_eq (p q : App.Page) : App.is_page p q = true <-> p = q.
Proof. destruct p, q; simpl; split; congruence. Qed.

Lemma generateQuote_returns_cases (n : nat) (outcome : App.Outcome)
  (clock now : JsString) (s s' : App.State) :
  App.generateQuote_returns n outcome clock now s = Some s' ->
  App.savedQuotes s' = App.savedQuotes s /\
  App.pending s' = filter_index n (App.pending s) /\
  ((App.page s' = App.form /\ App.error s' <> None) \/
   (App.page s' = App.result /\
    exists q, App.currentQuote s' = Some q /\ generated_quote q)).
Proof.
  unfold App.generateQuote_returns.
  destruct (nth_error (App.pending s) n) as [call|]; [|discriminate].
  destruct outcome as [[message|]|text].
  - intros [= <-]. simpl. repeat split. left. split; [reflexivity|discriminate].
  - intros [= <-]. simpl. repeat split. left. split; [reflexivity|discriminate].
  - destruct (GeminiService.generateQuote _ _ text) as [generated|e] eqn:E.
    + intros [= <-]. simpl. repeat split. right. split; [reflexivity|].
      eexists. split; [reflexivity|].
      now exists generated, clock, now, call, text.
    + destruct e; try discriminate. intros [= <-]. simpl. repeat split.
      left. split; [reflexivity|discriminate].
Qed.

Lemma react_editor_has_quote (s s' : App.State) (e : App.Event) :
  editor_has_quote s -> App.react s e = Some s' -> editor_has_quote s'.
Proof.
  intros Hs. destruct e; simpl.
  - destruct (App.is_page (App.page s) App.form); [|discriminate].
    destruct (QuoteInputForm.handleSubmit _ filled) as [call|];
      intros [= <-]; [|exact Hs].
    unfold editor_has_quote. simpl. now destruct (App.pending s).
  - destruct (App.is_page (App.page s) App.form) eqn:E; [|discriminate].
    intros [= <-]. apply is_page_eq in E. unfold editor_has_quote. simpl.
    now rewrite E.
  - intros H. apply generateQuote_returns_cases in H.
    destruct H as (_ & _ & [[Hp _] | [Hp Hq]]);
      unfold editor_has_quote; rewrite Hp; [exact I | exact Hq].
  - destruct (_ && _); [|discriminate]. now intros [= <-].
  - destruct (negb _); [|discriminate]. now intros [= <-].
  - now intros [= <-].
  - destruct (App.currentQuote s) as [quote|]; [|discriminate].
    destruct (string_eqb _ _); [|discriminate].
    destruct (App.page s); try discriminate; now intros [= <-].
  - destruct (App.is_page (App.page s) App.settings) eqn:E; [|discriminate].
    intros [= <-]. apply is_page_eq in E. unfold editor_has_quote. simpl.
    now rewrite E.
  - destruct (App.is_page (App.page s) App.history) eqn:E; [|discriminate].
    intros [= <-]. apply is_page_eq in E. unfold editor_has_quote. simpl.
    now rewrite E.
  - destruct (App.is_page (App.page s) App.history); [|discriminate].
    intros [= <-]. unfold App.handleViewQuote.
    destruct (App.quoteToView (App.savedQuotes s) id) as [quote|] eqn:E;
      [|exact Hs].
    unfold editor_has_quote. simpl. exists quote. split; [reflexivity|].
    now apply quoteToView_In in E.
Qed.

Lemma run_editor_has_quote (events : list App.Event) (s s' : App.State) :
  editor_has_quote s -> App.run s events = Some s' -> editor_has_quote s'.
Proof.
  revert s. induction events as [|e events IH]; simpl; intros s Hs.
  - now intros [= <-].
  - destruct (App.react s e) as [s1|] eqn:E; [|discriminate].
    apply IH. exact (react_editor_has_quote _ _ _ Hs E).
Qed.

Lemma reachable_editor_has_quote (s : App.State) :
  reachable s -> editor_has_quote s.
Proof.
  intros (storedQuotes & storedSettings & events & H).
  apply (run_editor_has_quote events (App.initial storedQuotes storedSettings));
    [exact I | exact H].
Qed.

(** X3.  In every state that the application reaches, the pages of the
    editor have a current quote to show: on the page of a new result it is
    a quote that the service has generated, and on the page of a saved
    quote it is one of the saved quotes. *)
Theorem editor_never_blank (s : App.State) :
  reachable s ->
  (App.page s = App.result ->
   exists q, App.currentQuote s = Some q /\ generated_quote q) /\
  (App.page s = App.view ->
   exists q, App.currentQuote s = Some q /\ In q (App.savedQuotes s)).
Proof.
  intros H. apply reachable_editor_has_quote in H.
  unfold editor_has_quote in H.
  split; intros Hp; rewrite Hp in H; exact H.
Qed.

(** ** What [generateQuote] returns *)

Lemma bind_Normal {A B : Type} (c : completion A) (k : A -> completion B)
  (y : B) :
  bind c k = Normal y -> exists x, c = Normal x /\ k x = Normal y.
Proof. destruct c as [x|e]; simpl; [eauto | discriminate]. Qed.

Lemma mapM_Normal {A B : Type} (f : A -> completion B) (xs : list A)
  (ys : list B) :
  mapM f xs = Normal ys -> Forall2 (fun x y => f x = Normal y) xs ys.
Proof.
  revert ys. induction xs as [|x xs IH]; simpl; intros ys H.
  - injection H as <-. constructor.
  - apply bind_Normal in H. destruct H as (y & Hy & H).
    apply bind_Normal in H. destruct H as (ys' & Hys & H).
    injection H as <-. constructor; [exact Hy | now apply IH].
Qed.

Tactic Notation "bind_inv" hyp(H) ident(x) ident(Hx) :=
  apply bind_Normal in H; destruct H as (x & Hx & H).

Lemma stepWithUserPrice_generated (step : JsValue) (s : QuoteStep.t) :
  GeminiService.stepWithUserPrice step = Normal s -> generated_step s.
Proof.
  unfold GeminiService.stepWithUserPrice. intros H.
  bind_inv H suggested H1. bind_inv H nested H2. bind_inv H unit H3.
  bind_inv H suggestedQuantity H4. bind_inv H title H5.
  bind_inv H description H6. bind_inv H price H7. bind_inv H qty H8.
  bind_inv H userPrice H9. injection H as <-.
  rewrite H7 in H9. injection H9 as <-.
  exists price, qty. simpl. auto.
Qed.

Lemma or_else_truthy (v d : JsValue) :
  ToBoolean d = true -> ToBoolean (or_else v d) = true.
Proof. intros H. unfold or_else. now destruct (ToBoolean v) eqn:E. Qed.

(** X4.  Whatever the response, a quote that [generateQuote] returns has
    a title that is not empty, an execution time and payment terms that
    are not empty, the currency and the city of the request, and steps
    whose prices and quantity are Numbers, with the price of the user
    equal to the suggested price and a tax rate of [0]. *)
Theorem generateQuote_result (currency : Currency) (city : JsValue)
  (response_text : JsString) (quote : QuoteFragment.t) :
  GeminiService.generateQuote currency city response_text = Normal quote ->
  ToBoolean (QuoteFragment.title quote) = true /\
  ToBoolean (QuoteFragment.executionTime quote) = true /\
  ToBoolean (QuoteFragment.paymentTerms quote) = true /\
  QuoteFragment.currency quote = currency /\
  QuoteFragment.city quote = city /\
  Forall generated_step (QuoteFragment.steps quote).
Proof.
  unfold GeminiService.generateQuote.
  destruct (bind _ _) as [quote'|] eqn:H; [|discriminate].
  intros [= ->]. bind_inv H parsedJson Hparse.
  unfold GeminiService.quoteOfJson in H.
  bind_inv H title Htitle. bind_inv H shape Hshape.
  destruct shape; [|discriminate].
  destruct (ToBoolean title) eqn:Etitle; [|discriminate].
  bind_inv H steps Hsteps. bind_inv H stepsWithUserPrice Hmap.
  bind_inv H title' Htitle'. bind_inv H summary Hsummary.
  bind_inv H executionTime Htime. bind_inv H paymentTerms Hterms.
  injection H as <-. simpl.
  rewrite Htitle in Htitle'. injection Htitle' as <-.
  repeat split; try assumption; try (now apply or_else_truthy).
  destruct steps; try discriminate. simpl in Hmap.
  apply mapM_Normal in Hmap. clear Hsteps.
  induction Hmap as [|x y xs ys Hxy _ IH]; [constructor|].
  constructor; [exact (stepWithUserPrice_generated _ _ Hxy) | exact IH].
Qed.

(** ** Saving from the editor *)

Lemma ids_handleUpdateQuote (updatedQuote : QuoteData.t)
  (prev : list QuoteData.t) :
  ids (App.handleUpdateQuote updatedQuote prev) = ids prev.
Proof.
  unfold ids, App.handleUpdateQuote. rewrite map_map. apply map_ext.
  intros q. destruct (string_eqb _ _) eqn:E; [|reflexivity].
  apply string_eqb_eq in E. now symmetry.
Qed.

Lemma handleUpdateQuote_In (updatedQuote q : QuoteData.t)
  (prev : list QuoteData.t) :
  In q prev -> QuoteData.id updatedQuote = QuoteData.id q ->
  In updatedQuote (App.handleUpdateQuote updatedQuote prev).
Proof.
  intros Hin E. unfold App.handleUpdateQuote. apply in_map_iff.
  exists q. split; [|exact Hin]. now rewrite E, string_eqb_refl.
Qed.

(** X5.  The save button of the editor, pressed while a saved quote is
    open, is never lost: in every state that the application reaches, the
    edited quote is afterwards among the saved quotes, whose number and
    identifiers are as before, and the application shows the list. *)
Theorem update_from_view_is_stored (s s' : App.State)
  (finalQuote : QuoteData.t) (newId now : JsString) :
  reachable s ->
  App.page s = App.view ->
  App.react s (App.save_or_update finalQuote newId now) = Some s' ->
  In finalQuote (App.savedQuotes s') /\
  ids (App.savedQuotes s') = ids (App.savedQuotes s) /\
  App.page s' = App.history.
Proof.
  intros Hs Hp. apply reachable_editor_has_quote in Hs.
  unfold editor_has_quote in Hs. rewrite Hp in Hs.
  destruct Hs as (q & Hq & Hin). simpl. rewrite Hq, Hp.
  destruct (string_eqb _ _) eqn:E; [|discriminate].
  apply string_eqb_eq in E. intros [= <-]. simpl.
  split; [exact (handleUpdateQuote_In _ _ _ Hin E)|].
  split; [apply ids_handleUpdateQuote | reflexivity].
Qed.

Lemma filter_index_length {A : Type} (n : nat) (xs : list A) :
  n < List.length xs -> S (List.length (filter_index n xs)) = List.length xs.
Proof.
  revert n. induction xs as [|x xs IH]; simpl; intros n H; [lia|].
  destruct n as [|n]; [reflexivity|]. simpl. f_equal. apply IH. lia.
Qed.

(** X6.  The loading page is shown only while a call of the service is
    pending, and whatever a pending call comes to, a failed request or a
    response of any text, the application takes it off the list of
    pending calls and leaves the loading page, for the result or for the
    form with an error message. *)
Theorem loading_ends (s : App.State) :
  reachable s ->
  (App.page s = App.loading -> App.pending s <> []) /\
  forall n outcome clock now,
    n < List.length (App.pending s) ->
    exists s',
      App.react s (App.service_returns n outcome clock now) = Some s' /\
      S (List.length (App.pending s')) = List.length (App.pending s) /\
      (App.page s' = App.result \/
       (App.page s' = App.form /\ App.error s' <> None)).
Proof.
  intros Hs. split.
  - intros Hp. apply reachable_editor_has_quote in Hs.
    unfold editor_has_quote in Hs. now rewrite Hp in Hs.
  - intros n outcome clock now Hn.
    assert (exists s', App.generateQuote_returns n outcome clock now s
                       = Some s') as [s' H].
    { unfold App.generateQuote_returns.
      destruct (nth_error (App.pending s) n) as [call|] eqn:E;
        [|apply nth_error_None in E; lia].
      destruct outcome as [[message|]|text]; eauto.
      destruct (GeminiService.generateQuote _ _ text) as [generated|e] eqn:G;
        eauto.
      apply generateQuote_one_error in G. subst e. eauto. }
    exists s'. split; [exact H|].
    apply generateQuote_returns_cases in H.
    destruct H as (_ & Hpending & Hpage). rewrite Hpending.
    split; [now apply filter_index_length|].
    destruct Hpage as [Hf | [Hr _]]; [now right | now left].
Qed.

Lemma NoDup_snoc {A : Type} (a : A) (l : list A) :
  NoDup l -> ~ In a l -> NoDup (l ++ [a]).
Proof.
  induction l as [|b l IH]; simpl; intros Hl Ha.
  - constructor; [tauto | constructor].
  - inversion Hl as [|b' l' Hb Hl']; subst. constructor.
    + intros Hin. apply in_app_or in Hin. simpl in Hin.
      destruct Hin as [Hin | [E | []]]; [tauto | subst; tauto].
    + apply IH; tauto.
Qed.

(** X7.  The identifiers of the saved quotes stay distinct under every
    event, provided that the identifier given to a quote saved from the
    page of a new result is not that of a stored quote. *)
Theorem ids_stay_distinct (s s' : App.State) (e : App.Event) :
  NoDup (ids (App.savedQuotes s)) ->
  (forall finalQuote newId now,
     e = App.save_or_update finalQuote newId now ->
     App.page s = App.result ->
     ~ In newId (ids (App.savedQuotes s))) ->
  App.react s e = Some s' ->
  NoDup (ids (App.savedQuotes s')).
Proof.
  intros Hs Hfresh. destruct e; simpl.
  - destruct (App.is_page _ _); [|discriminate].
    destruct (QuoteInputForm.handleSubmit _ _); now intros [= <-].
  - destruct (App.is_page _ _); [|discriminate]. now intros [= <-].
  - intros H. apply generateQuote_returns_cases in H.
    destruct H as (E & _). now rewrite E.
  - destruct (_ && _); [|discriminate]. now intros [= <-].
  - destruct (negb _); [|discriminate]. now intros [= <-].
  - now intros [= <-].
  - destruct (App.currentQuote s) as [quote|]; [|discriminate].
    destruct (string_eqb _ _); [|discriminate].
    destruct (App.page s); try discriminate; intros [= <-]; simpl.
    + unfold App.handleSaveQuote. rewrite ids_app. simpl.
      apply NoDup_snoc; [exact Hs | exact (Hfresh _ _ _ eq_refl eq_refl)].
    + now rewrite ids_handleUpdateQuote.
  - destruct (App.is_page _ _); [|discriminate]. now intros [= <-].
  - destruct (App.is_page _ _); [|discriminate]. intros [= <-]. simpl.
    destruct confirmed; [|exact Hs].
    unfold App.handleDeleteQuote, ids. clear Hfresh.
    induction (App.savedQuotes s) as [|q l IH]; simpl; [constructor|].
    inversion Hs as [|a l' Hnot Hl]; subst.
    destruct (string_eqb _ _); simpl; [now apply IH|].
    constructor; [|now apply IH].
    intros Hin. apply Hnot. apply in_map_iff in Hin.
    destruct Hin as (q' & E & Hq'). apply filter_In in Hq'.
    apply in_map_iff. exists q'. tauto.
  - destruct (App.is_page _ _); [|discriminate]. intros [= <-].
    unfold App.handleViewQuote.
    now destruct (App.quoteToView _ _).
Qed.

Lemma quoteToView_unique (q : QuoteData.t) (quotes : list QuoteData.t) :
  NoDup (ids quotes) -> In q quotes ->
  App.quoteToView quotes (QuoteData.id q) = Some q.
Proof.
  intros Hnd Hin. apply in_split in Hin. destruct Hin as (l1 & l2 & ->).
  rewrite ids_app in Hnd. simpl in Hnd. apply NoDup_remove_2 in Hnd.
  rewrite quoteToView_app
    by (intros Hin; apply Hnd, in_or_app; now left).
  unfold App.quoteToView. simpl. now rewrite string_eqb_refl.
Qed.

(** X8.  On the page of the list, opening a quote of the list whose
    identifiers are distinct shows that very quote in the editor, without
    images and with the list unchanged; asking for an identifier that no
    saved quote has changes nothing. *)
Theorem view_opens_the_quote (s : App.State) :
  App.page s = App.history ->
  (forall q,
     NoDup (ids (App.savedQuotes s)) -> In q (App.savedQuotes s) ->
     exists s',
       App.react s (App.view_quote (QuoteData.id q)) = Some s' /\
       App.page s' = App.view /\ App.currentQuote s' = Some q /\
       App.currentImages s' = [] /\
       App.savedQuotes s' = App.savedQuotes s) /\
  (forall id,
     ~ In id (ids (App.savedQuotes s)) ->
     App.react s (App.view_quote id) = Some s).
Proof.
  intros Hp. split.
  - intros q Hnd Hin. simpl. rewrite Hp. simpl.
    unfold App.handleViewQuote. rewrite (quoteToView_unique _ _ Hnd Hin).
    eexists. split; [reflexivity|]. simpl. auto.
  - intros id Hid. simpl. rewrite Hp. simpl.
    unfold App.handleViewQuote. now rewrite (quoteToView_absent _ _ Hid).
Qed.

(** ** The handlers of the editor *)

Lemma assign_at (before after : list Slot) (x y : Slot) :
  StepArray.assign (before ++ x :: after) (List.length before) y
  = before ++ y :: after.
Proof. induction before as [|z l IH]; simpl; [reflexivity | now rewrite IH]. Qed.

Lemma spread_app (l1 l2 : list Slot) :
  StepArray.spread (l1 ++ l2) = StepArray.spread l1 ++ StepArray.spread l2.
Proof. apply map_app. Qed.

Lemma nth_error_split_step (steps : list Slot) (index : nat) (x : Slot) :
  nth_error steps index = Some x ->
  exists before after,
    steps = before ++ x :: after /\ List.length before = index.
Proof. intros H. apply nth_error_split in H. exact H. Qed.

Lemma written_at (before after : list Slot) (s : QuoteStep.t)
  (f : QuoteStep.t -> QuoteStep.t) :
  let newSteps := StepArray.spread (before ++ Step s :: after) in
  StepArray.assign newSteps (List.length before)
    (Step (f (StepArray.spread_object
                (StepArray.at_index newSteps (List.length before)))))
  = StepArray.spread before ++ Step (f s) :: StepArray.spread after.
Proof.
  cbv zeta. rewrite spread_app. cbn [StepArray.spread map].
  fold (StepArray.spread after). fold (StepArray.spread before).
  rewrite <- (spread_length before) at 1 2.
  rewrite assign_at. unfold StepArray.at_index.
  rewrite nth_error_app2, Nat.sub_diag by lia. reflexivity.
Qed.

Lemma handlePriceChange_at (q : QuoteData.t) (before after : list Slot)
  (s : QuoteStep.t) (value : JsString) :
  QuoteData.steps q = before ++ Step s :: after ->
  isNaN (StringToNumber value) = false ->
  QuoteResult.handlePriceChange q (List.length before) value
  = step_replaced q before
      (QuoteStep.with_userPrice s (JNum (StringToNumber value))) after.
Proof.
  intros Hq Hn. unfold QuoteResult.handlePriceChange, step_replaced.
  rewrite Hn, Hq. cbn [negb]. f_equal.
  apply (written_at before after s (fun s => QuoteStep.with_userPrice s _)).
Qed.

Lemma handleQuantityChange_at (q : QuoteData.t) (before after : list Slot)
  (s : QuoteStep.t) (value : JsString) :
  QuoteData.steps q = before ++ Step s :: after ->
  isNaN (StringToNumber value) = false ->
  ge (StringToNumber value) zero = true ->
  QuoteResult.handleQuantityChange q (List.length before) value
  = step_replaced q before
      (QuoteStep.with_quantity s (JNum (StringToNumber value))) after.
Proof.
  intros Hq Hn Hge. unfold QuoteResult.handleQuantityChange, step_replaced.
  rewrite Hn, Hge, Hq. cbn [negb andb]. f_equal.
  apply (written_at before after s (fun s => QuoteStep.with_quantity s _)).
Qed.

Lemma handleTaxChange_at (q : QuoteData.t) (before after : list Slot)
  (s : QuoteStep.t) (value : JsString) :
  QuoteData.steps q = before ++ Step s :: after ->
  isNaN (StringToNumber value) = false ->
  QuoteResult.handleTaxChange q (List.length before) value
  = step_replaced q before
      (QuoteStep.with_taxRate s (JNum (StringToNumber value))) after.
Proof.
  intros Hq Hn. unfold QuoteResult.handleTaxChange, step_replaced.
  rewrite Hn, Hq. cbn [negb]. f_equal.
  apply (written_at before after s (fun s => QuoteStep.with_taxRate s _)).
Qed.

Lemma handleDescriptionChange_at (q : QuoteData.t) (before after : list Slot)
  (s : QuoteStep.t) (value : JsString) :
  QuoteData.steps q = before ++ Step s :: after ->
  QuoteResult.handleDescriptionChange q (List.length before) value
  = step_replaced q before (QuoteStep.with_description s (JStr value)) after.
Proof.
  intros Hq. unfold QuoteResult.handleDescriptionChange, step_replaced.
  rewrite Hq. f_equal.
  apply (written_at before after s (fun s => QuoteStep.with_description s _)).
Qed.

Lemma handleTitleChange_at (q : QuoteData.t) (before after : list Slot)
  (s : QuoteStep.t) (value : JsString) :
  QuoteData.steps q = before ++ Step s :: after ->
  QuoteResult.handleTitleChange q (List.length before) value
  = Normal (step_replaced q before (QuoteStep.with_title s (JStr value)) after).
Proof.
  intros Hq. unfold QuoteResult.handleTitleChange, step_replaced. rewrite Hq.
  pose proof (written_at before after s
                (fun s => QuoteStep.with_title s (JStr value))) as H.
  cbv zeta in H.
  assert (StepArray.at_index
            (StepArray.spread (before ++ Step s :: after))
            (List.length before) = Step s) as E.
  { apply at_index_step, spread_nth_step.
    now rewrite nth_error_app2, Nat.sub_diag by lia. }
  rewrite E in *. cbn [StepArray.spread_object] in H. now rewrite H.
Qed.

(** X9.  An edit at the index of a step changes one field of that step
    in a copy of the array and nothing else of the quote: an accepted
    price, quantity or tax rate is stored as a Number, a description or
    title as the string typed. *)
Theorem edit_changes_one_field (q : QuoteData.t) (before after : list Slot)
  (s : QuoteStep.t) (value : JsString) :
  QuoteData.steps q = before ++ Step s :: after ->
  let index := List.length before in
  let n := StringToNumber value in
  (isNaN n = false ->
   QuoteResult.handlePriceChange q index value
   = step_replaced q before (QuoteStep.with_userPrice s (JNum n)) after) /\
  (isNaN n = false -> ge n zero = true ->
   QuoteResult.handleQuantityChange q index value
   = step_replaced q before (QuoteStep.with_quantity s (JNum n)) after) /\
  (isNaN n = false ->
   QuoteResult.handleTaxChange q index value
   = step_replaced q before (QuoteStep.with_taxRate s (JNum n)) after) /\
  QuoteResult.handleDescriptionChange q index value
  = step_replaced q before (QuoteStep.with_description s (JStr value)) after /\
  QuoteResult.handleTitleChange q index value
  = Normal (step_replaced q before (QuoteStep.with_title s (JStr value)) after).
Proof.
  intros Hq index n. unfold index, n. split; [|split; [|split; [|split]]].
  - now apply handlePriceChange_at.
  - now apply handleQuantityChange_at.
  - now apply handleTaxChange_at.
  - now apply handleDescriptionChange_at.
  - now apply handleTitleChange_at.
Qed.

Lemma same_identity_refl (q : QuoteData.t) : same_identity q q.
Proof. unfold same_identity. auto 7. Qed.

Lemma same_identity_replaced (q : QuoteData.t) (before after : list Slot)
  (s' : QuoteStep.t) :
  same_identity q (step_replaced q before s' after).
Proof. unfold same_identity. simpl. auto 7. Qed.

Lemma change_cases (q q' : QuoteData.t) :
  change q q' ->
  same_identity q q' /\
  (QuoteData.steps q' = QuoteData.steps q \/
   exists before s after s',
     QuoteData.steps q = before ++ Step s :: after /\
     QuoteData.steps q'
     = StepArray.spread before ++ Step s' :: StepArray.spread after /\
     one_field_written s s').
Proof.
  intros H. destruct H as [q index s value Hn | q index s value Hn
                          | q index s value Hn | q index s value Hn
                          | q index s value q' Hn Ht | q field value].
  1-5: destruct (nth_error_split_step _ _ _ Hn) as (before & after & Hq & Hi);
       pose proof (handlePriceChange_at q before after s value Hq) as Hprice;
       pose proof (handleQuantityChange_at q before after s value Hq)
         as Hquantity;
       pose proof (handleTaxChange_at q before after s value Hq) as Htax;
       pose proof (handleDescriptionChange_at q before after s value Hq)
         as Hdescription;
       pose proof (handleTitleChange_at q before after s value Hq) as Htitle;
       rewrite Hi in *.
  - destruct (isNaN (StringToNumber value)) eqn:E.
    + unfold QuoteResult.handlePriceChange. rewrite E. cbn [negb].
      split; [apply same_identity_refl | now left].
    + rewrite (Hprice eq_refl). split; [apply same_identity_replaced|].
      right. exists before, s, after. eexists. split; [exact Hq|].
      split; [reflexivity|]. left. eauto.
  - destruct (isNaN (StringToNumber value)) eqn:E;
      [|destruct (ge (StringToNumber value) zero) eqn:G].
    + unfold QuoteResult.handleQuantityChange. rewrite E. cbn [negb andb].
      split; [apply same_identity_refl | now left].
    + rewrite (Hquantity eq_refl eq_refl). split; [apply same_identity_replaced|].
      right. exists before, s, after. eexists. split; [exact Hq|].
      split; [reflexivity|]. right. left. eauto.
    + unfold QuoteResult.handleQuantityChange. rewrite E, G. cbn [negb andb].
      split; [apply same_identity_refl | now left].
  - destruct (isNaN (StringToNumber value)) eqn:E.
    + unfold QuoteResult.handleTaxChange. rewrite E. cbn [negb].
      split; [apply same_identity_refl | now left].
    + rewrite (Htax eq_refl). split; [apply same_identity_replaced|].
      right. exists before, s, after. eexists. split; [exact Hq|].
      split; [reflexivity|]. right. right. left. eauto.
  - rewrite Hdescription. split; [apply same_identity_replaced|].
    right. exists before, s, after. eexists. split; [exact Hq|].
    split; [reflexivity|]. right. right. right. left. eauto.
  - rewrite Htitle in Ht. injection Ht as <-.
    split; [apply same_identity_replaced|].
    right. exists before, s, after. eexists. split; [exact Hq|].
    split; [reflexivity|]. right. right. right. right. eauto.
  - split; [|left; now destruct field].
    unfold same_identity. destruct field; simpl; auto 7.
Qed.

Lemma spread_all_steps (P : QuoteStep.t -> Prop) (steps : list Slot) :
  all_steps P steps -> StepArray.spread steps = steps.
Proof.
  induction 1 as [|x l (s & -> & _) _ IH]; simpl; [reflexivity|].
  now rewrite IH.
Qed.

(** X10.  A session in the editor never changes the identifier, the
    date, the title, the summary, the currency or the city of the quote,
    and never adds or removes a step. *)
Theorem session_keeps_identity (q q' : QuoteData.t) :
  changes q q' ->
  same_identity q q' /\
  List.length (QuoteData.steps q') = List.length (QuoteData.steps q).
Proof.
  induction 1 as [|q' q'' _ [IHid IHlen] Hc].
  - split; [apply same_identity_refl | reflexivity].
  - apply change_cases in Hc. destruct Hc as [Hid Hsteps]. split.
    + unfold same_identity in *.
      destruct Hid as (-> & -> & -> & -> & -> & ->). exact IHid.
    + rewrite <- IHlen.
      destruct Hsteps as [-> | (before & s & after & s' & -> & -> & _)];
        [reflexivity|].
      rewrite !length_app. simpl. now rewrite !spread_length.
Qed.

Lemma convertible_or_zero (v : JsValue) :
  convertible v ->
  exists n, ToNumber (or_else v (JNum zero)) = Normal n.
Proof.
  intros H. unfold or_else. destruct (ToBoolean v).
  - rewrite (ToNumber_convertible _ H). eauto.
  - rewrite ToNumber_JNum. eauto.
Qed.

Lemma reduce_defined (P : QuoteStep.t -> Prop)
  (f : number -> Slot -> completion number) (steps : list Slot) :
  (forall acc s, P s -> exists r, f acc (Step s) = Normal r) ->
  all_steps P steps ->
  forall acc, exists r, StepArray.reduce f steps acc = Normal r.
Proof.
  intros Hf. induction 1 as [|x l (s & -> & Hs) _ IH]; intros acc; simpl.
  - eauto.
  - destruct (Hf acc s Hs) as [r ->]. simpl. apply IH.
Qed.

Lemma totals_defined (steps : list Slot) :
  all_steps amounts_convertible steps ->
  exists t, QuoteResult.totals steps = Normal t.
Proof.
  intros H. unfold QuoteResult.totals.
  destruct (reduce_defined amounts_convertible
              (fun acc step =>
                 p <- QuoteResult.number_of_or_zero step QuoteStep.userPrice ;;
                 q <- QuoteResult.number_of_or_zero step QuoteStep.quantity ;;
                 Normal (acc + (p * q)))
              steps) with (acc := zero) as [sub ->]; [|exact H|].
  { intros acc s (Hp & Hq & _). unfold QuoteResult.number_of_or_zero. simpl.
    destruct (convertible_or_zero _ Hp) as [p ->].
    destruct (convertible_or_zero _ Hq) as [q ->]. simpl. eauto. }
  destruct (reduce_defined amounts_convertible
              (fun acc step =>
                 p <- QuoteResult.number_of_or_zero step QuoteStep.userPrice ;;
                 q <- QuoteResult.number_of_or_zero step QuoteStep.quantity ;;
                 t <- QuoteResult.number_of_or_zero step QuoteStep.taxRate ;;
                 Normal (acc + ((p * q) * (t / of_Z 100))))
              steps) with (acc := zero) as [tax ->]; [|exact H|].
  { intros acc s (Hp & Hq & Ht). unfold QuoteResult.number_of_or_zero. simpl.
    destruct (convertible_or_zero _ Hp) as [p ->].
    destruct (convertible_or_zero _ Hq) as [q ->].
    destruct (convertible_or_zero _ Ht) as [t ->]. simpl. eauto. }
  simpl. eauto.
Qed.

Lemma lineTotals_defined (s : QuoteStep.t) :
  amounts_convertible s ->
  exists total withTax,
    QuoteResult.lineTotal s = Normal total /\
    QuoteResult.lineTotalWithTax s = Normal withTax.
Proof.
  intros (Hp & Hq & Ht).
  unfold QuoteResult.lineTotalWithTax, QuoteResult.lineTotal,
    QuoteResult.number_or_zero.
  rewrite (ToNumber_convertible _ Hp), (ToNumber_convertible _ Hq),
    (ToNumber_convertible _ Ht). simpl. eauto.
Qed.

Lemma one_field_written_convertible (s s' : QuoteStep.t) :
  one_field_written s s' -> amounts_convertible s -> amounts_convertible s'.
Proof.
  unfold amounts_convertible, convertible.
  intros [[n ->] | [[n ->] | [[n ->] | [[v ->] | [v ->]]]]] (Hp & Hq & Ht);
    simpl; auto.
Qed.

Lemma change_amounts_convertible (q q' : QuoteData.t) :
  change q q' ->
  all_steps amounts_convertible (QuoteData.steps q) ->
  all_steps amounts_convertible (QuoteData.steps q').
Proof.
  intros Hc H. apply change_cases in Hc.
  destruct Hc as [_ [-> | (before & s & after & s' & Hq & -> & Hs')]];
    [exact H|].
  rewrite Hq in H. unfold all_steps in *.
  apply Forall_app in H. destruct H as [Hb Ha].
  inversion Ha as [|x l (s0 & E & Hs) Hl]; subst. injection E as <-.
  rewrite (spread_all_steps _ _ Hb), (spread_all_steps _ _ Hl).
  apply Forall_app. split; [exact Hb|]. constructor; [|exact Hl].
  exists s'. split; [reflexivity|].
  exact (one_field_written_convertible _ _ Hs' Hs).
Qed.

(** X11.  When every element of the array of steps is a step object
    whose price, quantity and tax rate [Number] can convert, this stays so
    through a session in the editor, and neither the totals nor the line
    totals of a step throw. *)
Theorem totals_never_throw (q q' : QuoteData.t) :
  all_steps amounts_convertible (QuoteData.steps q) ->
  changes q q' ->
  all_steps amounts_convertible (QuoteData.steps q') /\
  (exists t, QuoteResult.totals (QuoteData.steps q') = Normal t) /\
  (forall s,
     In (Step s) (QuoteData.steps q') ->
     exists total withTax,
       QuoteResult.lineTotal s = Normal total /\
       QuoteResult.lineTotalWithTax s = Normal withTax).
Proof.
  intros Hq Hc.
  assert (all_steps amounts_convertible (QuoteData.steps q')) as H.
  { induction Hc as [|q' q'' _ IH Hc]; [exact Hq|].
    exact (change_amounts_convertible _ _ Hc IH). }
  split; [exact H|]. split; [now apply totals_defined|].
  intros s Hin. unfold all_steps in H. rewrite Forall_forall in H.
  destruct (H _ Hin) as (s0 & E & Hs). injection E as <-.
  now apply lineTotals_defined.
Qed.

Lemma StringToNumber_blank (value : JsString) :
  forallb is_ws value = true -> StringToNumber value = zero.
Proof.
  intros H. unfold StringToNumber, trim.
  rewrite <- (app_nil_r value), (trimStart_ws value [] H). reflexivity.
Qed.

(** X12.  An input that is empty or holds white space only is accepted
    by the handlers of the price, the quantity and the tax rate, and
    stores the Number [0] in the step. *)
Theorem blank_input_stores_zero (q : QuoteData.t) (before after : list Slot)
  (s : QuoteStep.t) (value : JsString) :
  QuoteData.steps q = before ++ Step s :: after ->
  forallb is_ws value = true ->
  QuoteResult.handlePriceChange q (List.length before) value
  = step_replaced q before (QuoteStep.with_userPrice s (JNum zero)) after /\
  QuoteResult.handleQuantityChange q (List.length before) value
  = step_replaced q before (QuoteStep.with_quantity s (JNum zero)) after /\
  QuoteResult.handleTaxChange q (List.length before) value
  = step_replaced q before (QuoteStep.with_taxRate s (JNum zero)) after.
Proof.
  intros Hq Hv.
  pose proof (handlePriceChange_at q before after s value Hq) as Hprice.
  pose proof (handleQuantityChange_at q before after s value Hq) as Hquantity.
  pose proof (handleTaxChange_at q before after s value Hq) as Htax.
  rewrite (StringToNumber_blank _ Hv) in *.
  split; [now apply Hprice|]. split; [now apply Hquantity | now apply Htax].
Qed.

Lemma assign_beyond (steps : list Slot) (k : nat) (x : Slot) :
  StepArray.assign steps (List.length steps + k) x
  = steps ++ repeat Hole k ++ [x].
Proof.
  induction steps as [|y l IH]; simpl.
  - induction k as [|k IHk]; simpl; [reflexivity | now rewrite IHk].
  - now rewrite IH.
Qed.

Lemma at_index_beyond (steps : list Slot) (index : nat) :
  List.length steps <= index -> StepArray.at_index steps index = Undefined.
Proof.
  intros H. unfold StepArray.at_index.
  apply nth_error_None in H. now rewrite H.
Qed.

(** X13.  At an index beyond the end of the array, the handler of the
    description lengthens the array: the steps are copied, the positions
    up to the index are left as holes, and the element at the index is a
    new object with a description and nothing else.  The handler of the
    title throws a TypeError there. *)
Theorem edit_beyond_the_end (q : QuoteData.t) (k : nat) (value : JsString) :
  let index := (List.length (QuoteData.steps q) + k)%nat in
  QuoteResult.handleDescriptionChange q index value
  = QuoteData.with_steps q
      (StepArray.spread (QuoteData.steps q) ++ repeat Hole k
       ++ [Step (QuoteStep.with_description QuoteStep.empty (JStr value))]) /\
  QuoteResult.handleTitleChange q index value = Throw TypeError.
Proof.
  intros index.
  assert (StepArray.at_index (StepArray.spread (QuoteData.steps q)) index
          = Undefined) as E.
  { apply at_index_beyond. rewrite spread_length. unfold index. lia. }
  split.
  - unfold QuoteResult.handleDescriptionChange. rewrite E. f_equal.
    unfold index. rewrite <- (spread_length (QuoteData.steps q)) at 1.
    apply assign_beyond.
  - unfold QuoteResult.handleTitleChange. now rewrite E.
Qed.

(** ** The list of saved quotes on screen *)

Lemma number_or_is_zero (n d : number) : is_zero n = true -> number_or n d = d.
Proof. intros H. unfold number_or. cbn [ToBoolean]. now rewrite H. Qed.

Lemma is_zero_accepted (n : number) :
  is_zero n = true -> isNaN n = false /\ ge n zero = true.
Proof. destruct n as [[|]|[|]| |]; simpl; intros H; now try discriminate. Qed.

(** X14.  A quantity of zero, which the handler of the quantity accepts,
    is listed as a quantity of one: the total that the list shows for the
    quote is the total it shows when the quantity typed is [1], although
    the line total of the step in the editor is the price times [0]. *)
Theorem zero_quantity_listed_as_one (q : QuoteData.t)
  (before after : list Slot) (s : QuoteStep.t) (value : JsString) :
  QuoteData.steps q = before ++ Step s :: after ->
  is_zero (StringToNumber value) = true ->
  QuoteHistory.totalPrice
    (QuoteResult.handleQuantityChange q (List.length before) value)
  = QuoteHistory.totalPrice
      (QuoteResult.handleQuantityChange q (List.length before) (u16 "1")) /\
  QuoteResult.handleQuantityChange q (List.length before) value
  = step_replaced q before
      (QuoteStep.with_quantity s (JNum (StringToNumber value))) after /\
  QuoteResult.lineTotal
    (QuoteStep.with_quantity s (JNum (StringToNumber value)))
  = (p <- QuoteResult.number_or_zero (QuoteStep.userPrice s) ;;
     Normal (p * zero)).
Proof.
  intros Hq Hz. destruct (is_zero_accepted _ Hz) as [Hnan Hge].
  pose proof (handleQuantityChange_at q before after s value Hq) as Hzero.
  pose proof (handleQuantityChange_at q before after s (u16 "1") Hq) as Hone.
  rewrite (Hzero Hnan Hge).
  rewrite Hone by (vm_compute; reflexivity).
  split; [|split; [reflexivity|]].
  - unfold QuoteHistory.totalPrice, step_replaced.
    cbn [QuoteData.with_steps QuoteData.steps].
    apply reduce_replace. intros acc.
    cbn [StepArray.prop bind QuoteStep.with_quantity QuoteStep.userPrice
         QuoteStep.quantity QuoteStep.taxRate].
    rewrite !ToNumber_JNum. cbn [bind].
    rewrite (number_or_is_zero _ _ Hz).
    replace (StringToNumber (u16 "1")) with (of_Z 1)
      by (vm_compute; reflexivity).
    replace (number_or (of_Z 1) (of_Z 1)) with (of_Z 1)
      by (vm_compute; reflexivity).
    reflexivity.
  - unfold QuoteResult.lineTotal.
    cbn [QuoteStep.with_quantity QuoteStep.userPrice QuoteStep.quantity].
    unfold QuoteResult.number_or_zero at 2. rewrite ToNumber_JNum.
    cbn [bind]. now rewrite (number_or_is_zero _ _ Hz).
Qed.

Lemma render_rows (quotes : list QuoteData.t) (r : QuoteHistory.Rendering) :
  QuoteHistory.render quotes = Normal r ->
  mapM (fun quote =>
          total <- QuoteHistory.totalPrice quote ;; Normal (quote, total))
       (rev quotes) = Normal (listed r).
Proof.
  destruct quotes as [|q l]; simpl.
  - now intros [= <-].
  - intros H. apply bind_Normal in H. destruct H as (rs & Hrs & H).
    now injection H as <-.
Qed.

(** X15.  The list shows the quotes from the last saved to the first: a
    quote that has just been saved is the first row, with the total of
    its steps, above the rows that were listed before, which keep their
    order and their totals. *)
Theorem saved_quote_is_listed_first (newId now : JsString)
  (finalQuote : QuoteData.t) (prev : list QuoteData.t)
  (r : QuoteHistory.Rendering) (total : number) :
  QuoteHistory.render prev = Normal r ->
  QuoteHistory.totalPrice finalQuote = Normal total ->
  QuoteHistory.render (App.handleSaveQuote newId now finalQuote prev)
  = Normal (QuoteHistory.rows
              ((QuoteData.with_id_date finalQuote newId (JStr now), total)
               :: listed r)).
Proof.
  intros Hr Ht. apply render_rows in Hr.
  unfold App.handleSaveQuote, QuoteHistory.render.
  destruct (prev ++ [_]) as [|q0 l0] eqn:E;
    [now destruct prev|]. rewrite <- E. clear E.
  rewrite rev_app_distr. cbn [rev app mapM].
  change (QuoteHistory.totalPrice
            (QuoteData.with_id_date finalQuote newId (JStr now)))
    with (QuoteHistory.totalPrice finalQuote).
  rewrite Ht. cbn [bind]. rewrite Hr. reflexivity.
Qed.

(** ** Text around a fenced block *)

Lemma trimStart_app_solid (a r : JsString) (c : N) :
  is_ws c = false -> trimStart (a ++ c :: r) = trimStart a ++ c :: r.
Proof.
  intros Hc. induction a as [|d a IH]; simpl.
  - now rewrite Hc.
  - now destruct (is_ws d).
Qed.

Lemma trimEnd_app_solid (x b : JsString) (z : N) :
  is_ws z = false -> trimEnd (x ++ z :: b) = x ++ z :: trimEnd b.
Proof.
  intros Hz. unfold trimEnd. rewrite rev_app_distr. cbn [rev].
  rewrite <- app_assoc. cbn [app].
  rewrite trimStart_app_solid by exact Hz.
  rewrite rev_app_distr. cbn [rev]. rewrite rev_involutive.
  now rewrite <- app_assoc.
Qed.

Lemma no_backtick_trimStart (a : JsString) :
  no_backtick a = true -> no_backtick (trimStart a) = true.
Proof.
  unfold no_backtick. induction a as [|c a IH]; simpl; [auto|].
  intros H. destruct (is_ws c); [|exact H].
  apply andb_prop in H. now apply IH.
Qed.

Lemma fence_match_skip (a s : JsString) :
  no_backtick a = true ->
  GeminiService.fence_match (a ++ s) = GeminiService.fence_match s.
Proof.
  unfold no_backtick. induction a as [|c a IH]; [reflexivity|].
  cbn [forallb app]. intros H. apply andb_prop in H. destruct H as [Hc Ha].
  rewrite fence_match_eq. unfold GeminiService.match_at.
  change GeminiService.fence with [96; 96; 96]%N. cbn [strip_prefix].
  rewrite N.eqb_sym. apply negb_true_iff in Hc. rewrite Hc. now apply IH.
Qed.

Lemma match_at_fenced (tagged : bool) (w1 w2 l core t rest : JsString)
  (c : N) (core' : JsString) :
  forallb is_ws w1 = true ->
  forallb is_ws w2 = true ->
  forallb is_ws l = true ->
  forallb is_ws t = true ->
  core = c :: core' ->
  is_ws c = false ->
  c <> 106%N ->
  ends_solid core = true ->
  contains GeminiService.fence core = false ->
  GeminiService.match_at (fenced tagged w1 (l ++ core ++ t) w2 ++ rest)
  = Some core.
Proof.
  intros Hw1 Hw2 Hl Ht Hcore Hc Hj Hend Hno.
  assert (Htag :
    GeminiService.after_tag
      ((w1 ++ l) ++ core ++ (t ++ w2) ++ GeminiService.fence ++ rest)
    = Some core).
  { apply after_tag_body with (c := c) (core' := core'); auto.
    - rewrite forallb_app, Hw1, Hl. reflexivity.
    - rewrite forallb_app, Ht, Hw2. reflexivity. }
  assert (Hopen :
    GeminiService.after_opening
      ((if tagged then u16 "json" else []) ++ w1 ++ (l ++ core ++ t) ++ w2
       ++ GeminiService.fence ++ rest)
    = Some core).
  { replace (w1 ++ (l ++ core ++ t) ++ w2 ++ GeminiService.fence ++ rest)
      with ((w1 ++ l) ++ core ++ (t ++ w2) ++ GeminiService.fence ++ rest)
      by now rewrite <- !app_assoc.
    unfold GeminiService.after_opening. destruct tagged.
    - now rewrite strip_prefix_app, Htag.
    - cbn [app]. rewrite Htag.
      destruct (w1 ++ l) as [|d wl] eqn:Ewl.
      + cbn [app]. rewrite Hcore. cbn [app].
        now rewrite strip_prefix_json_other.
      + cbn [app]. rewrite strip_prefix_json_other; [reflexivity|].
        apply is_ws_not_j.
        assert (Hwl : forallb is_ws (w1 ++ l) = true)
          by (rewrite forallb_app, Hw1, Hl; reflexivity).
        rewrite Ewl in Hwl. simpl in Hwl.
        now apply andb_prop in Hwl. }
  unfold GeminiService.match_at, fenced.
  rewrite <- !app_assoc. rewrite strip_prefix_app.
  rewrite <- Hopen. f_equal. now rewrite <- !app_assoc.
Qed.

Lemma trim_around_fenced (a b : JsString) (tagged : bool)
  (w1 payload w2 : JsString) :
  trim (a ++ fenced tagged w1 payload w2 ++ b)
  = trimStart a ++ fenced tagged w1 payload w2 ++ trimEnd b.
Proof.
  unfold trim, fenced.
  set (inner := (if tagged then u16 "json" else []) ++ w1 ++ payload ++ w2).
  replace ((if tagged then u16 "json" else []) ++ w1 ++ payload ++ w2
           ++ GeminiService.fence)
    with (inner ++ GeminiService.fence)
    by (unfold inner; now rewrite <- !app_assoc).
  change GeminiService.fence with [96; 96; 96]%N.
  cbn [app]. rewrite trimStart_app_solid by reflexivity.
  replace (trimStart a ++ 96%N :: 96%N :: 96%N :: (inner ++ [96; 96; 96]%N) ++ b)
    with ((trimStart a ++ [96; 96; 96]%N ++ inner ++ [96; 96]%N)
          ++ 96%N :: b)
    by (repeat (rewrite <- ?app_assoc; cbn [app]); reflexivity).
  rewrite trimEnd_app_solid by reflexivity.
  repeat (rewrite <- ?app_assoc; cbn [app]). reflexivity.
Qed.

(** X16.  Text around the fenced block is ignored: when the payload is
    JSON text in which three backticks do not occur in a row, a response
    that has the block after any text without a backtick and before any
    text at all gives the same result as the payload alone. *)
Theorem text_around_fence_ignored (currency : Currency) (city : JsValue)
  (tagged : bool) (w1 payload w2 leading trailing : JsString) (v : JsValue) :
  JSON_parse payload = Normal v ->
  contains GeminiService.fence payload = false ->
  forallb is_ws w1 = true ->
  forallb is_ws w2 = true ->
  no_backtick leading = true ->
  GeminiService.jsonText
    (leading ++ fenced tagged w1 payload w2 ++ trailing) = trim payload /\
  GeminiService.generateQuote currency city
    (leading ++ fenced tagged w1 payload w2 ++ trailing)
  = GeminiService.generateQuote currency city payload.
Proof.
  intros Hparse Hno Hw1 Hw2 Hlead.
  destruct (jsonText_payload tagged w1 payload w2 v Hparse Hno Hw1 Hw2)
    as [_ Hbare].
  assert (GeminiService.jsonText
            (leading ++ fenced tagged w1 payload w2 ++ trailing)
          = trim payload) as Hfenced.
  { destruct (JSON_parse_shape _ _ Hparse)
      as (l & c & core & t & -> & Hl & Ht & Hc & Hj & Hend).
    rewrite (trim_core l (c :: core) t c core) by auto.
    pose proof (contains_app_l _ _ _ (contains_app_r _ _ _ Hno)) as Hcore.
    unfold GeminiService.jsonText. rewrite trim_around_fenced.
    rewrite fence_match_skip by now apply no_backtick_trimStart.
    rewrite fence_match_eq.
    now rewrite (match_at_fenced tagged w1 w2 l (c :: core) t (trimEnd trailing)
                   c core). }
  split; [exact Hfenced|].
  unfold GeminiService.generateQuote. now rewrite Hfenced, Hbare.
Qed.

(** ** Responses that are not JSON text *)

Lemma JSON_parse_throws (text : JsString) (e : JsError) :
  JSON_parse text = Throw e -> e = SyntaxError.
Proof.
  unfold JSON_parse. destruct (json_value _ _) as [v rest| |];
    [destruct (skip_json_ws rest)|..]; now intros [= <-].
Qed.

Lemma JSON_parse_backtick_end (x : JsString) :
  JSON_parse (x ++ [96%N]) = Throw SyntaxError.
Proof.
  destruct (JSON_parse (x ++ [96%N])) as [v|e] eqn:E;
    [|now rewrite (JSON_parse_throws _ _ E)].
  exfalso. apply JSON_parse_shape in E.
  destruct E as (l & c & core & t & E & _ & Ht & _ & _ & Hend).
  apply ends_solid_inv in Hend. destruct Hend as (a & z & Ez & Hz & Hz96).
  rewrite Ez in E. apply (f_equal (@rev N)) in E.
  rewrite !rev_app_distr in E. cbn [rev app] in E.
  destruct (rev t) as [|d rt] eqn:Et; cbn [app] in E.
  - injection E as E _. now apply Hz96.
  - injection E as E _. apply forallb_rev in Ht. rewrite Et in Ht.
    simpl in Ht. rewrite <- E in Ht. discriminate Ht.
Qed.

Lemma fenced_backtick_end (tagged : bool) (w1 payload w2 : JsString) :
  exists x, fenced tagged w1 payload w2 = x ++ [96%N].
Proof.
  unfold fenced. change GeminiService.fence with [96; 96; 96]%N.
  exists ([96; 96; 96]%N ++ (if tagged then u16 "json" else []) ++ w1
          ++ payload ++ w2 ++ [96; 96]%N).
  repeat (rewrite <- ?app_assoc; cbn [app]). reflexivity.
Qed.

(** X17.  The parsing of the response in [generateTechnicalReport] does
    not take a fenced block apart: a response that is a fenced block, of
    any payload, with or without the tag and with any white space around
    the block, is rejected with the error of the report, also when the
    payload is JSON text. *)
Theorem report_rejects_fenced (tagged : bool)
  (w1 payload w2 leading trailing : JsString) :
  forallb is_ws leading = true ->
  forallb is_ws trailing = true ->
  GeminiService.generateTechnicalReport
    (leading ++ fenced tagged w1 payload w2 ++ trailing)
  = Throw (PlainError GeminiService.report_error_message).
Proof.
  intros Hl Ht. unfold GeminiService.generateTechnicalReport. cbv zeta.
  assert (trim (leading ++ fenced tagged w1 payload w2 ++ trailing)
          = fenced tagged w1 payload w2) as ->.
  { rewrite trim_around_fenced.
    rewrite <- (app_nil_r leading), (trimStart_ws leading [] Hl).
    unfold trimEnd. rewrite <- (app_nil_r (rev trailing)).
    rewrite (trimStart_ws (rev trailing) []) by now apply forallb_rev.
    cbn [trimStart rev app]. now rewrite app_nil_r. }
  destruct (fenced_backtick_end tagged w1 payload w2) as [x ->].
  now rewrite JSON_parse_backtick_end.
Qed.

Lemma after_tag_blank (w rest : JsString) :
  forallb is_ws w = true ->
  GeminiService.after_tag (w ++ GeminiService.fence ++ rest) = Some [].
Proof.
  induction w as [|c w IH]; cbn [forallb app]; intros H.
  - change GeminiService.fence with [96; 96; 96]%N. cbn [app].
    cbn [GeminiService.after_tag]. cbn [is_ws]. 
    apply (lazy_capture_body [] [] rest); auto.
  - apply andb_prop in H. destruct H as [Hc Hw].
    cbn [GeminiService.after_tag]. rewrite Hc. now rewrite (IH Hw).
Qed.

(** X18.  A fenced block with nothing but white space between the
    fences is rejected: the capture is empty, so the whole response, with
    its fences, is handed to [JSON.parse]. *)
Theorem empty_fenced_block_rejected (currency : Currency) (city : JsValue)
  (tagged : bool) (w : JsString) :
  forallb is_ws w = true ->
  GeminiService.jsonText (fenced tagged w [] []) = fenced tagged w [] [] /\
  GeminiService.generateQuote currency city (fenced tagged w [] [])
  = Throw (PlainError GeminiService.invalid_json_message).
Proof.
  intros Hw.
  assert (GeminiService.jsonText (fenced tagged w [] [])
          = fenced tagged w [] []) as E.
  { unfold GeminiService.jsonText. rewrite trim_fenced.
    assert (GeminiService.fence_match (fenced tagged w [] []) = Some [])
      as ->; [|reflexivity].
    rewrite fence_match_eq. unfold GeminiService.match_at, fenced.
    rewrite strip_prefix_app. cbn [app].
    pose proof (after_tag_blank w [] Hw) as Htag.
    rewrite app_nil_r in Htag.
    unfold GeminiService.after_opening. destruct tagged.
    - now rewrite strip_prefix_app, Htag.
    - cbn [app]. rewrite Htag.
      destruct w as [|d w']; cbn [app].
      + reflexivity.
      + rewrite strip_prefix_json_other; [reflexivity|].
        apply is_ws_not_j. simpl in Hw. now apply andb_prop in Hw. }
  split; [exact E|].
  unfold GeminiService.generateQuote. rewrite E.
  destruct (fenced_backtick_end tagged w [] []) as [x ->].
  now rewrite JSON_parse_backtick_end.
Qed.

(** ** The credential *)

(** X19.  The variable [API_KEY] of [process.env] comes first: a truthy
    value stored there is the key, whatever [import.meta] holds; the
    variable [VITE_API_KEY] of [import.meta.env] is the key when
    [process.env] has no [API_KEY] or a falsy one, among them the empty
    string. *)
Theorem getApiKey_priority (env : GeminiService.Environment) (k : JsValue) :
  ToBoolean k = true ->
  (stored_key (GeminiService.process env) "API_KEY" = Some k ->
   GeminiService.getApiKey env = k) /\
  (stored_key (GeminiService.import_meta env) "VITE_API_KEY" = Some k ->
   (forall k1, stored_key (GeminiService.process env) "API_KEY" = Some k1 ->
               ToBoolean k1 = false) ->
   GeminiService.getApiKey env = k).
Proof.
  intros Hk. unfold GeminiService.getApiKey. rewrite !try_source_stored.
  split.
  - intros ->. now rewrite Hk.
  - intros -> Hfirst. rewrite Hk.
    destruct (stored_key (GeminiService.process env) "API_KEY") as [k1|];
      [|reflexivity].
    now rewrite (Hfirst k1 eq_refl).
Qed.

(** ** Files *)

Lemma split_no_sep (sep : N) (s : JsString) :
  forallb (fun c => negb (c =? sep)%N) s = true -> split sep s = [s].
Proof.
  induction s as [|c s IH]; simpl; [reflexivity|].
  intros H. apply andb_prop in H. destruct H as [Hc Hs].
  apply negb_true_iff in Hc. now rewrite Hc, (IH Hs).
Qed.

Lemma split_at_sep (sep : N) (a b : JsString) :
  forallb (fun c => negb (c =? sep)%N) a = true ->
  split sep (a ++ sep :: b) = a :: split sep b.
Proof.
  induction a as [|c a IH]; simpl.
  - now rewrite N.eqb_refl.
  - intros H. apply andb_prop in H. destruct H as [Hc Ha].
    apply negb_true_iff in Hc. now rewrite Hc, (IH Ha).
Qed.

(** X20.  From a data URL, which is a header, a comma and the payload,
    [fileToGenerativePart] takes the payload, with the type of the file
    as the MIME type.  When the result of the reader is a string without
    a comma, as the data URL of an empty file, the data is [undefined];
    when the result is no string, the data is the empty string. *)
Theorem fileToGenerativePart_payload (file : File.t) :
  (forall header payload,
     File.result file = JStr (header ++ 44%N :: payload) ->
     no_comma header = true -> no_comma payload = true ->
     GeminiService.data (GeminiService.fileToGenerativePart file)
     = JStr payload) /\
  (forall result,
     File.result file = JStr result -> no_comma result = true ->
     GeminiService.data (GeminiService.fileToGenerativePart file)
     = JUndefined) /\
  (File.result file = JNull ->
   GeminiService.data (GeminiService.fileToGenerativePart file) = JStr []) /\
  GeminiService.mimeType (GeminiService.fileToGenerativePart file)
  = File.type file.
Proof.
  unfold GeminiService.fileToGenerativePart, no_comma. simpl. repeat split.
  - intros header payload -> Hh Hp.
    now rewrite (split_at_sep _ _ _ Hh), (split_no_sep _ _ Hp).
  - intros result -> Hr. now rewrite (split_no_sep _ _ Hr).
  - now intros ->.
Qed.

(** ** The name of the PDF file *)

Lemma replace_ws_solid (s : JsString) :
  forallb (fun c => negb (is_ws c)) (replace_ws 95 s) = true.
Proof.
  unfold replace_ws. induction s as [|c l IH]; cbn [map forallb];
    [reflexivity|].
  rewrite IH, andb_true_r.
  destruct (is_ws c) eqn:E; [reflexivity | now rewrite E].
Qed.

(** X21.  When the name of the client is a string, the file name has no
    white space: it is the prefix of the view, the name of the client
    with every white space character replaced by an underscore, and
    [.pdf].  When the name of the client is no string, as in a stored
    quote without one, computing the file name throws a TypeError. *)
Theorem fileName_has_no_white_space (viewMode : QuoteResult.ViewMode)
  (editedQuote : QuoteData.t) :
  (forall clientName,
     QuoteData.clientName editedQuote = JStr clientName ->
     exists name,
       QuoteResult.fileName viewMode editedQuote = Normal name /\
       forallb (fun c => negb (is_ws c)) name = true /\
       List.length name
       = (List.length (match viewMode with
                       | QuoteResult.report => u16 "laudo-"
                       | QuoteResult.quote => u16 "orcamento-"
                       end) + List.length clientName + 4)%nat) /\
  ((forall clientName, QuoteData.clientName editedQuote <> JStr clientName) ->
   QuoteResult.fileName viewMode editedQuote = Throw TypeError).
Proof.
  unfold QuoteResult.fileName. split.
  - intros clientName ->. eexists. split; [reflexivity|]. split.
    + rewrite !forallb_app. apply andb_true_intro. split;
        [now destruct viewMode|].
      apply andb_true_intro. split; [|reflexivity].
      apply replace_ws_solid.
    + rewrite !length_app. unfold replace_ws. rewrite length_map.
      simpl. lia.
  - intros H. destruct (QuoteData.clientName editedQuote); try reflexivity.
    now destruct (H s).
Qed.

(** ** The photos of the form *)

Lemma filter_index_map {A B : Type} (f : A -> B) (index : nat) (xs : list A) :
  filter_index index (map f xs) = map f (filter_index index xs).
Proof.
  revert index. induction xs as [|x xs IH]; intros [|i]; simpl; auto.
  now rewrite IH.
Qed.

Lemma filter_index_incl {A : Type} (index : nat) (xs : list A) :
  incl (filter_index index xs) xs.
Proof.
  revert index. induction xs as [|x xs IH]; intros [|i]; simpl.
  - apply incl_refl.
  - apply incl_refl.
  - apply incl_tl, incl_refl.
  - apply incl_cons; [now left|]. apply incl_tl, IH.
Qed.

(** X22.  Whatever files the user chooses and whatever photos the user
    removes, the previews of the form stay those of its images: the two
    lists have the same length, and the preview at a position is the URL
    that was created for the image at that position. *)
Theorem previews_follow_images (events : list PhotoEvent) :
  let s := fold_left photo_react events QuoteInputForm.initial in
  previews_of_images s (chosen events) /\
  List.length (QuoteInputForm.imagePreviews s)
  = List.length (QuoteInputForm.images s).
Proof.
  cbv zeta.
  assert (forall s pairs,
            previews_of_images s pairs ->
            previews_of_images (fold_left photo_react events s)
              (pairs ++ chosen events)) as H.
  { induction events as [|e events IH]; intros s pairs Hs.
    - simpl. rewrite app_nil_r. exact Hs.
    - cbn [fold_left chosen flat_map]. fold (chosen events).
      rewrite app_assoc. apply IH.
      destruct Hs as (shown & Hi & Hp & Hincl).
      destruct e as [[files|]|index]; simpl.
      + exists (shown ++ files). simpl. rewrite !map_app, Hi, Hp.
        split; [reflexivity|]. split; [reflexivity|].
        apply incl_app_app; [exact Hincl | apply incl_refl].
      + exists shown. rewrite app_nil_r. auto.
      + exists (filter_index index shown). simpl.
        rewrite Hi, Hp, !filter_index_map, app_nil_r.
        split; [reflexivity|]. split; [reflexivity|].
        eapply incl_tran; [apply filter_index_incl | exact Hincl]. }
  specialize (H QuoteInputForm.initial []). cbn [app] in H.
  assert (previews_of_images QuoteInputForm.initial []) as H0.
  { exists []. simpl. repeat split. apply incl_refl. }
  specialize (H H0). split; [exact H|].
  destruct H as (shown & -> & -> & _). now rewrite !length_map.
Qed.

(** ** The pages of the PDF *)

Lemma place_spec (pdfWidth pdfHeight : number) (l : QuoteResult.Layout)
  (section : QuoteResult.PdfSection) :
  exists img,
    QuoteResult.drawn (QuoteResult.place pdfWidth pdfHeight l section)
    = QuoteResult.drawn l ++ [img] /\
    QuoteResult.pages (QuoteResult.place pdfWidth pdfHeight l section)
    = QuoteResult.on_page img /\
    QuoteResult.pages l <= QuoteResult.on_page img /\
    placed pdfWidth pdfHeight section img.
Proof.
  unfold QuoteResult.place, placed, scaled_height.
  destruct (QuoteResult.break_before_page section); cbn [QuoteResult.cursorY];
    match goal with
    | |- context [if ?g then _ else _] => destruct g eqn:G
    end;
    eexists; cbn [QuoteResult.drawn QuoteResult.pages QuoteResult.cursorY];
    (split; [reflexivity|]);
    cbn [QuoteResult.on_page QuoteResult.image_y QuoteResult.image_height];
    (split; [reflexivity|]); (split; [lia|]); (split; [reflexivity|]);
    (split; [auto | try discriminate; auto]).
Qed.

Lemma layout_from (pdfWidth pdfHeight : number)
  (sections : list QuoteResult.PdfSection) (l : QuoteResult.Layout) :
  exists images,
    QuoteResult.drawn (fold_left (QuoteResult.place pdfWidth pdfHeight)
                         sections l)
    = QuoteResult.drawn l ++ images /\
    Forall2 (placed pdfWidth pdfHeight) sections images /\
    pages_in_order (QuoteResult.pages l) images
      (QuoteResult.pages (fold_left (QuoteResult.place pdfWidth pdfHeight)
                            sections l)).
Proof.
  revert l. induction sections as [|section sections IH]; intros l.
  - exists []. simpl. rewrite app_nil_r. repeat split; [constructor | lia].
  - cbn [fold_left].
    destruct (place_spec pdfWidth pdfHeight l section)
      as (img & Hdrawn & Hpages & Hle & Hplaced).
    destruct (IH (QuoteResult.place pdfWidth pdfHeight l section))
      as (images & Hd & Hall & Horder).
    exists (img :: images). rewrite Hd, Hdrawn, <- app_assoc.
    split; [reflexivity|]. split; [now constructor|].
    cbn [pages_in_order]. split; [exact Hle|]. now rewrite <- Hpages.
Qed.

(** X23.  The PDF has one image for each section, in the order of the
    sections and scaled to the usable width.  An image is drawn at the
    top margin or where it does not reach below the bottom margin, and
    at the top margin when its section asks for a page break; the pages
    of the images never go back. *)
Theorem layout_places_every_section (pdfWidth pdfHeight : number)
  (sections : list QuoteResult.PdfSection) :
  let l := QuoteResult.layout pdfWidth pdfHeight sections in
  Forall2 (placed pdfWidth pdfHeight) sections (QuoteResult.drawn l) /\
  pages_in_order 1 (QuoteResult.drawn l) (QuoteResult.pages l).
Proof.
  cbv zeta. unfold QuoteResult.layout.
  destruct (layout_from pdfWidth pdfHeight sections
              {| QuoteResult.pages := 1; QuoteResult.drawn := [];
                 QuoteResult.cursorY := QuoteResult.margin |})
    as (images & Hd & Hall & Horder).
  cbn [QuoteResult.drawn QuoteResult.pages app] in *.
  rewrite Hd. auto.
Qed.


(* ================================================================== *)
(** * The further properties at concrete states and inputs *)
(* ================================================================== *)

Lemma ids_other_example_distinct : NoDup (ids [other_quote; example_quote]).
Proof.
  repeat constructor; simpl; intros H;
    repeat (destruct H as [H|H]; try discriminate H); exact H.
Qed.

Lemma save_then_delete_witness :
  ~ In (u16 "temp-3") (ids [other_quote; example_quote]) /\
  App.handleDeleteQuote true (u16 "temp-3")
    (App.handleSaveQuote (u16 "temp-3") (u16 "2025-01-01") example_quote_updated
       [other_quote; example_quote])
  = [other_quote; example_quote].
Proof.
  assert (~ In (u16 "temp-3") (ids [other_quote; example_quote])) as H.
  { simpl. intros H. repeat (destruct H as [H|H]; try discriminate H).
    exact H. }
  split; [exact H|].
  exact (save_then_delete (u16 "temp-3") (u16 "2025-01-01")
           example_quote_updated [other_quote; example_quote] H).
Defined.

Lemma delete_removes_one_witness :
  NoDup (ids ([other_quote] ++ example_quote :: [])) /\
  App.handleDeleteQuote true (u16 "temp-1") [other_quote; example_quote]
  = [other_quote].
Proof.
  split; [exact ids_other_example_distinct|].
  exact (proj1 (delete_removes_one example_quote [other_quote] []
                  ids_other_example_distinct)).
Defined.

Lemma state_viewing_reachable : reachable state_viewing.
Proof.
  exists (Some [other_quote; example_quote]), None,
    [App.show_history; App.view_quote (u16 "temp-1")].
  reflexivity.
Qed.

Lemma editor_never_blank_witness :
  reachable state_viewing /\
  exists q,
    App.currentQuote state_viewing = Some q /\
    In q (App.savedQuotes state_viewing).
Proof.
  split; [exact state_viewing_reachable|].
  exact (proj2 (editor_never_blank state_viewing state_viewing_reachable)
           eq_refl).
Defined.

Lemma generateQuote_result_witness :
  GeminiService.generateQuote EUR JNull payload_example
  = Normal (QuoteFragment.mk (JStr (u16 "T")) JUndefined
              (JStr (u16 "A definir")) (JStr (u16 "A combinar")) [] EUR JNull)
  /\
  ToBoolean (JStr (u16 "A definir")) = true.
Proof.
  assert (GeminiService.generateQuote EUR JNull payload_example
          = Normal (QuoteFragment.mk (JStr (u16 "T")) JUndefined
                      (JStr (u16 "A definir")) (JStr (u16 "A combinar")) []
                      EUR JNull)) as H
    by (vm_compute; reflexivity).
  split; [exact H|].
  exact (proj1 (proj2 (generateQuote_result EUR JNull payload_example _ H))).
Defined.

Lemma update_from_view_is_stored_witness :
  reachable state_viewing /\
  App.page state_viewing = App.view /\
  App.react state_viewing
    (App.save_or_update example_quote_updated [] []) = Some state_updated /\
  In example_quote_updated (App.savedQuotes state_updated).
Proof.
  split; [exact state_viewing_reachable|]. split; [reflexivity|].
  split; [reflexivity|].
  exact (proj1 (update_from_view_is_stored state_viewing state_updated
                  example_quote_updated [] [] state_viewing_reachable
                  eq_refl eq_refl)).
Defined.

Lemma state_loading_reachable : reachable state_loading.
Proof.
  exists None, None, [App.submit_form form_filled]. reflexivity.
Qed.

Lemma loading_ends_witness :
  reachable state_loading /\
  App.pending state_loading <> [] /\
  exists s',
    App.react state_loading
      (App.service_returns 0 (App.response response_malformed) [] [])
    = Some s' /\
    S (List.length (App.pending s')) = 1.
Proof.
  split; [exact state_loading_reachable|].
  destruct (loading_ends state_loading state_loading_reachable)
    as [Hpending Hreturns].
  split; [exact (Hpending eq_refl)|].
  destruct (Hreturns 0 (App.response response_malformed) [] [])
    as (s' & Hs' & Hlen & _); [simpl; lia|].
  exists s'. split; [exact Hs' | exact Hlen].
Defined.

Lemma ids_stay_distinct_witness :
  NoDup (ids (App.savedQuotes state_result)) /\
  App.react state_result
    (App.save_or_update example_quote (u16 "2025-01-01T00:00:00.000Z0.5")
       (u16 "2025-01-01T00:00:00.000Z")) = Some state_saved /\
  NoDup (ids (App.savedQuotes state_saved)).
Proof.
  assert (NoDup (ids (App.savedQuotes state_result))) as H.
  { repeat constructor. simpl. intros []. }
  split; [exact H|]. split; [reflexivity|].
  apply (ids_stay_distinct state_result state_saved
           (App.save_or_update example_quote
              (u16 "2025-01-01T00:00:00.000Z0.5")
              (u16 "2025-01-01T00:00:00.000Z")) H); [|reflexivity].
  intros finalQuote newId now E _. injection E as _ <- _.
  simpl. intros [F|[]]. discriminate F.
Defined.

Lemma view_opens_the_quote_witness :
  App.page state_history = App.history /\
  exists s',
    App.react state_history (App.view_quote (u16 "temp-1")) = Some s' /\
    App.currentQuote s' = Some example_quote.
Proof.
  split; [reflexivity|].
  destruct (proj1 (view_opens_the_quote state_history eq_refl) example_quote
              ids_other_example_distinct)
    as (s' & Hs' & _ & Hq & _); [simpl; auto|].
  exists s'. split; [exact Hs' | exact Hq].
Defined.

Lemma edit_changes_one_field_witness :
  QuoteData.steps example_quote
  = [] ++ Step (step_of 50 1 0) :: [Step (step_of 30 3 10)] /\
  QuoteResult.handlePriceChange example_quote 0 (u16 "12.5")
  = step_replaced example_quote []
      (QuoteStep.with_userPrice (step_of 50 1 0)
         (JNum (StringToNumber (u16 "12.5"))))
      [Step (step_of 30 3 10)].
Proof.
  split; [reflexivity|].
  exact (proj1 (edit_changes_one_field example_quote []
                  [Step (step_of 30 3 10)] (step_of 50 1 0) (u16 "12.5")
                  eq_refl) eq_refl).
Defined.

Lemma example_session :
  changes example_quote
    (QuoteResult.handleDescriptionChange
       (QuoteResult.handlePriceChange example_quote 0 (u16 "12.5"))
       1 (u16 "Tinta")).
Proof.
  apply changes_more
    with (q' := QuoteResult.handlePriceChange example_quote 0 (u16 "12.5")).
  - apply changes_more with (q' := example_quote); [apply changes_none|].
    exact (change_price example_quote 0 (step_of 50 1 0) (u16 "12.5") eq_refl).
  - exact (change_description
             (QuoteResult.handlePriceChange example_quote 0 (u16 "12.5"))
             1 (step_of 30 3 10) (u16 "Tinta") eq_refl).
Qed.

Lemma session_keeps_identity_witness :
  changes example_quote
    (QuoteResult.handleDescriptionChange
       (QuoteResult.handlePriceChange example_quote 0 (u16 "12.5"))
       1 (u16 "Tinta")) /\
  QuoteData.id
    (QuoteResult.handleDescriptionChange
       (QuoteResult.handlePriceChange example_quote 0 (u16 "12.5"))
       1 (u16 "Tinta")) = u16 "temp-1".
Proof.
  split; [exact example_session|].
  exact (proj1 (proj1 (session_keeps_identity _ _ example_session))).
Defined.

Lemma example_amounts_convertible :
  all_steps amounts_convertible (QuoteData.steps example_quote).
Proof.
  repeat constructor; eexists; (split; [reflexivity|]);
    repeat split; reflexivity.
Qed.

Lemma totals_never_throw_witness :
  all_steps amounts_convertible (QuoteData.steps example_quote) /\
  exists t,
    QuoteResult.totals
      (QuoteData.steps
         (QuoteResult.handleDescriptionChange
            (QuoteResult.handlePriceChange example_quote 0 (u16 "12.5"))
            1 (u16 "Tinta"))) = Normal t.
Proof.
  split; [exact example_amounts_convertible|].
  exact (proj1 (proj2 (totals_never_throw _ _ example_amounts_convertible
                         example_session))).
Defined.

Lemma blank_input_stores_zero_witness :
  forallb is_ws (u16 "  ") = true /\
  QuoteResult.handleTaxChange example_quote 0 (u16 "  ")
  = step_replaced example_quote []
      (QuoteStep.with_taxRate (step_of 50 1 0) (JNum zero))
      [Step (step_of 30 3 10)].
Proof.
  split; [reflexivity|].
  exact (proj2 (proj2 (blank_input_stores_zero example_quote []
                         [Step (step_of 30 3 10)] (step_of 50 1 0) (u16 "  ")
                         eq_refl eq_refl))).
Defined.

Lemma zero_quantity_listed_as_one_witness :
  is_zero (StringToNumber (u16 "0")) = true /\
  QuoteHistory.totalPrice
    (QuoteResult.handleQuantityChange example_quote 0 (u16 "0"))
  = QuoteHistory.totalPrice
      (QuoteResult.handleQuantityChange example_quote 0 (u16 "1")).
Proof.
  split; [reflexivity|].
  exact (proj1 (zero_quantity_listed_as_one example_quote []
                  [Step (step_of 30 3 10)] (step_of 50 1 0) (u16 "0")
                  eq_refl eq_refl)).
Defined.

Lemma saved_quote_is_listed_first_witness :
  QuoteHistory.render [] = Normal QuoteHistory.nothing_saved /\
  QuoteHistory.totalPrice example_quote_updated = Normal (of_Z 60) /\
  QuoteHistory.render
    (App.handleSaveQuote (u16 "temp-3") (u16 "2025-01-01")
       example_quote_updated [])
  = Normal (QuoteHistory.rows
              [(QuoteData.with_id_date example_quote_updated (u16 "temp-3")
                  (JStr (u16 "2025-01-01")), of_Z 60)]).
Proof.
  assert (QuoteHistory.totalPrice example_quote_updated = Normal (of_Z 60))
    as H by (vm_compute; reflexivity).
  split; [reflexivity|]. split; [exact H|].
  exact (saved_quote_is_listed_first (u16 "temp-3") (u16 "2025-01-01")
           example_quote_updated [] QuoteHistory.nothing_saved (of_Z 60)
           eq_refl H).
Defined.

Lemma payload_example_parses :
  exists v, JSON_parse payload_example = Normal v.
Proof. eexists. reflexivity. Qed.

Lemma text_around_fence_ignored_witness :
  no_backtick (u16 "Segue o JSON: ") = true /\
  GeminiService.generateQuote EUR JNull
    (u16 "Segue o JSON: " ++ fenced true [10%N] payload_example [10%N]
     ++ u16 " e mais ``` texto")
  = GeminiService.generateQuote EUR JNull payload_example.
Proof.
  split; [reflexivity|].
  refine (proj2 (text_around_fence_ignored EUR JNull true [10%N]
                   payload_example [10%N] (u16 "Segue o JSON: ")
                   (u16 " e mais ``` texto")
                   (JObj [(u16 "title", JStr (u16 "T"));
                          (u16 "steps", JArr [])])
                   _ eq_refl eq_refl eq_refl eq_refl)).
  vm_compute. reflexivity.
Defined.

Lemma report_rejects_fenced_witness :
  forallb is_ws [32%N] = true /\
  JSON_parse payload_example
  = Normal (JObj [(u16 "title", JStr (u16 "T")); (u16 "steps", JArr [])]) /\
  GeminiService.generateTechnicalReport
    ([32%N] ++ fenced true [10%N] payload_example [10%N] ++ [10%N])
  = Throw (PlainError GeminiService.report_error_message).
Proof.
  split; [reflexivity|]. split; [vm_compute; reflexivity|].
  exact (report_rejects_fenced true [10%N] payload_example [10%N] [32%N]
           [10%N] eq_refl eq_refl).
Defined.

Lemma empty_fenced_block_rejected_witness :
  forallb is_ws [10%N] = true /\
  GeminiService.generateQuote EUR JNull (fenced true [10%N] [] [])
  = Throw (PlainError GeminiService.invalid_json_message).
Proof.
  split; [reflexivity|].
  exact (proj2 (empty_fenced_block_rejected EUR JNull true [10%N] eq_refl)).
Defined.

Lemma getApiKey_priority_witness :
  GeminiService.getApiKey env_both_keys = JStr (u16 "k-first") /\
  GeminiService.getApiKey env_empty_first_key = JStr (u16 "k-second").
Proof.
  split.
  - exact (proj1 (getApiKey_priority env_both_keys (JStr (u16 "k-first"))
                    eq_refl) eq_refl).
  - apply (proj2 (getApiKey_priority env_empty_first_key
                    (JStr (u16 "k-second")) eq_refl) eq_refl).
    intros k1 H. injection H as <-. reflexivity.
Defined.

Lemma fileToGenerativePart_payload_witness :
  GeminiService.data (GeminiService.fileToGenerativePart file_png)
  = JStr (u16 "QUJD") /\
  GeminiService.data (GeminiService.fileToGenerativePart file_empty)
  = JUndefined.
Proof.
  split.
  - exact (proj1 (fileToGenerativePart_payload file_png)
             (u16 "data:image/png;base64") (u16 "QUJD")
             eq_refl eq_refl eq_refl).
  - exact (proj1 (proj2 (fileToGenerativePart_payload file_empty))
             (u16 "data:") eq_refl eq_refl).
Defined.

Lemma fileName_has_no_white_space_witness :
  QuoteData.clientName example_quote_of_client = JStr (u16 "Ana Maria") /\
  (exists name,
     QuoteResult.fileName QuoteResult.quote example_quote_of_client
     = Normal name /\
     forallb (fun c => negb (is_ws c)) name = true) /\
  QuoteResult.fileName QuoteResult.report example_quote = Throw TypeError.
Proof.
  split; [reflexivity|]. split.
  - destruct (proj1 (fileName_has_no_white_space QuoteResult.quote
                       example_quote_of_client) (u16 "Ana Maria") eq_refl)
      as (name & Hname & Hsolid & _).
    exists name. split; [exact Hname | exact Hsolid].
  - apply (proj2 (fileName_has_no_white_space QuoteResult.report
                    example_quote)).
    intros clientName H. discriminate H.
Defined.

